(** * FramePerfect-AI: frame sampling, analysis, enhancement and export

    A shallow embedding of the TypeScript sources
      - [types.ts]                    (data model),
      - [services/geminiService.ts]   (callWithRetry, analyzeFrameWithGemini,
                                       enhanceFrameWithGemini),
      - [services/exportService.ts]   (exportProjectToZip),
      - [App.tsx]                     (startExtraction, processFrameAI,
                                       handleEnhanceSelection, handleBatchEnhance,
                                       toggleFrameSelection),
    followed by the properties of the specification that concern them.

    Conventions.
      - The numbers [startExtraction] computes with ([video.duration],
        [scanSettings.interval] and the times of the loop) are IEEE 754
        binary64 values, [float], with the rounding operations of
        [PrimFloat].  A number that is only stored, compared with a constant
        or printed (a frame's [timestamp], a score) is the exact rational
        [Q] the double stands for; delays in milliseconds are integers [Z].
      - A TypeScript string enum is erased to its strings at run time, so
        [FrameQuality], [ShotType] and [EnhancementType] are modules of string
        constants: a value read from the service's JSON is whatever string the
        service sent.
      - An optional or possibly [undefined] property is an [option].
      - React state [frames] is a [list VideoFrame]; a call
        [setFrames(curr => ...)] is a function on that list, applied to the
        store as it is when the update runs. *)

From Stdlib Require Import Floats.
From Stdlib Require Import List String Ascii Bool Arith ZArith QArith Lia.
From Stdlib Require Import Qround DecimalString.
Import ListNotations.
Local Open Scope string_scope.

(* ================================================================== *)
(** * types.ts *)

Module FrameQuality.
Definition FAIR : string := "Fair".
Definition GOOD : string := "Good".
Definition EXCELLENT : string := "Excellent".
Definition PENDING : string := "Pending".
End FrameQuality.

Module ShotType.
Definition POSE : string := "Pose".
Definition CANDID : string := "Candid".
Definition UNKNOWN : string := "Unknown".
End ShotType.

Module EnhancementType.
Definition RESTORE : string := "Restore (Standard)".
Definition UNBLUR : string := "Unblur & Sharpen".
Definition REMOVE_BG : string := "Remove Background".
Definition CINEMATIC : string := "Cinematic Lighting".
Definition BOKEH : string := "Portrait Bokeh".
End EnhancementType.

(** [interface AIAnalysis].  [quality], [qualityReason], [shotType] and
    [subjectId] are copied from the parsed JSON without a check and are
    [None] when the property is missing there ([undefined]). *)
Record AIAnalysis : Type := mkAnalysis {
  quality : option string;
  qualityReason : option string;
  people : list string;
  shotType : option string;
  tags : list string;
  compositionScore : Q;
  technicalAdvice : string;
  subjectId : option string
}.

(** [interface VideoFrame], with the [appliedEnhancements] property App.tsx
    adds to it. *)
Record VideoFrame : Type := mkFrame {
  id : string;
  timestamp : Q;
  imageUrl : string;
  analysis : option AIAnalysis;
  isSelected : bool;
  isProcessing : bool;
  enhancedUrl : option string;
  isEnhancing : option bool;
  appliedEnhancements : option (list string)
}.

Inductive ScanRange : Type :=
  | full | first_half | second_half | q1 | q2 | q3 | q4.

Record ScanSettings : Type := mkScan {
  range : ScanRange;
  interval : float
}.

(* ================================================================== *)
(** * JavaScript helpers *)

(** [s.includes(sub)] *)
Fixpoint includes (sub s : string) : bool :=
  String.prefix sub s ||
  match s with
  | EmptyString => false
  | String _ rest => includes sub rest
  end.

(** [x || dflt] on a possibly missing string: [undefined] and [""] are falsy. *)
Definition or_string (x : option string) (dflt : string) : string :=
  match x with
  | Some s => if String.eqb s "" then dflt else s
  | None => dflt
  end.

(** [x || []] on a possibly missing array: every array is truthy. *)
Definition or_array {A : Type} (x : option (list A)) : list A :=
  match x with
  | Some l => l
  | None => []
  end.

(** [x || dflt] on a possibly missing number: [undefined] and [0] are falsy. *)
Definition or_number (x : option Q) (dflt : Q) : Q :=
  match x with
  | Some q => if Qeq_bool q 0 then dflt else q
  | None => dflt
  end.

(** Truthiness of an optional string ([!!s]). *)
Definition truthy (x : option string) : bool :=
  match x with
  | Some s => negb (String.eqb s "")
  | None => false
  end.

(** [x === s] for a possibly missing string [x] and a string [s]. *)
Definition strict_eq (x : option string) (s : string) : bool :=
  match x with
  | Some y => String.eqb y s
  | None => false
  end.

(** [s.replace(/^data:image\/(png|jpeg|jpg);base64,/, "")] *)
Definition drop_prefix (p s : string) : option string :=
  if String.prefix p s
  then Some (String.substring (String.length p) (String.length s - String.length p) s)
  else None.

Definition stripDataUrl (s : string) : string :=
  match drop_prefix "data:image/png;base64," s with
  | Some r => r
  | None =>
    match drop_prefix "data:image/jpeg;base64," s with
    | Some r => r
    | None =>
      match drop_prefix "data:image/jpg;base64," s with
      | Some r => r
      | None => s
      end
    end
  end.

(* ================================================================== *)
(** * Promises: errors, the capability and the clock

    An [async] function is a state transformer on a [World] that counts the
    requests sent to the model service and logs every [setTimeout] delay that
    was awaited; it either resolves with a value or rejects with an error. *)

(** The properties of a thrown value that the code inspects. *)
Record JsError : Type := mkError {
  status : option Z;
  code : option Z;
  message : option string
}.

(** [new Error(msg)]: no [status], no [code]. *)
Definition Error (msg : string) : JsError := mkError None None (Some msg).

Inductive Outcome (T : Type) : Type :=
  | Resolved (v : T)
  | Rejected (e : JsError).
Arguments Resolved {T} v.
Arguments Rejected {T} e.

Record World : Type := mkWorld {
  requests : nat;
  timeouts : list Z
}.

Definition world0 : World := mkWorld 0 [].

Definition Promise (T : Type) : Type := World -> Outcome T * World.

Definition resolve {T : Type} (v : T) : Promise T := fun w => (Resolved v, w).
Definition throw {T : Type} (e : JsError) : Promise T := fun w => (Rejected e, w).

(** [await p; k] *)
Definition await {A B : Type} (p : Promise A) (k : A -> Promise B) : Promise B :=
  fun w =>
    match p w with
    | (Resolved v, w') => k v w'
    | (Rejected e, w') => (Rejected e, w')
    end.

(** [try { p } catch (error) { handler }] *)
Definition try_catch {T : Type} (p : Promise T) (handler : JsError -> Promise T)
  : Promise T :=
  fun w =>
    match p w with
    | (Resolved v, w') => (Resolved v, w')
    | (Rejected e, w') => handler e w'
    end.

(** [await new Promise(resolve => setTimeout(resolve, delay))] *)
Definition setTimeout (delay : Z) : Promise unit :=
  fun w => (Resolved tt, mkWorld (requests w) (timeouts w ++ [delay])%list).

Notation "x <- p ;; k" := (await p (fun x => k))
  (at level 61, p at next level, right associativity).

(* ================================================================== *)
(** * services/geminiService.ts *)

(** The object [JSON.parse(text)] of an analysis response, property by
    property; a property the service left out is [None].  (A JSON number,
    string or array in place of the object has none of the properties and
    behaves as the object with every property missing.) *)
Module json.
Record t : Type := mk {
  quality : option string;
  qualityReason : option string;
  people : option (list string);
  shotType : option string;
  tags : option (list string);
  compositionScore : option Q;
  technicalAdvice : option string;
  subjectId : option string
}.
End json.

(** What [analyzeFrameWithGemini] can tell about the response to a request
    that did not fail. *)
Inductive Response : Type :=
  | NoText                       (* [response.text] is undefined or empty *)
  | Unparseable (msg : string)   (* [JSON.parse(text)] throws a SyntaxError *)
  | ParsedNull                   (* [JSON.parse(text)] is [null] *)
  | Parsed (j : json.t).         (* [JSON.parse(text)] is [j] *)

(** What one [ai.models.generateContent] request comes to: it rejects with
    an error, or it resolves with a response.  For the analysis model the
    response is a [Response]; for the image model it is the [data] of the
    first part that has [inlineData], if there is one. *)
Inductive Reply (R : Type) : Type :=
  | Fails (e : JsError)
  | Responds (r : R).
Arguments Fails {R} e.
Arguments Responds {R} r.

(** The degraded analysis returned from the [catch] block. *)
Definition fallbackAnalysis : AIAnalysis :=
  {| quality := Some FrameQuality.FAIR;
     qualityReason := Some "AI Analysis Failed";
     people := [];
     shotType := Some ShotType.UNKNOWN;
     tags := [];
     compositionScore := 0;
     technicalAdvice := "Retry analysis";
     subjectId := None |}.

(** The object built from the parsed response. *)
Definition analysisOfJson (j : json.t) : AIAnalysis :=
  {| quality := json.quality j;
     qualityReason := json.qualityReason j;
     people := or_array (json.people j);
     shotType := json.shotType j;
     tags := or_array (json.tags j);
     compositionScore := or_number (json.compositionScore j) 5;
     technicalAdvice := or_string (json.technicalAdvice j) "No advice available";
     subjectId := json.subjectId j |}.

Definition Z_is (x : option Z) (n : Z) : bool :=
  match x with
  | Some v => Z.eqb v n
  | None => false
  end.

(** [error?.status === 429 || error?.code === 429 || error?.message?.includes('429')] *)
Definition isRateLimit (error : JsError) : bool :=
  Z_is (status error) 429 || Z_is (code error) 429 ||
  match message error with
  | Some m => includes "429" m
  | None => false
  end.

(** [error?.status === 503 || error?.code === 503] *)
Definition isServerOverload (error : JsError) : bool :=
  Z_is (status error) 503 || Z_is (code error) 503.

(** [callWithRetry(fn, retries = 3, delay = 2000)].  The recursion is on
    [retries], which the source decrements by one down to the test
    [retries > 0]. *)
Fixpoint callWithRetry {T : Type} (fn : Promise T) (retries : nat) (delay : Z)
  : Promise T :=
  try_catch fn (fun error =>
    match retries with
    | S retries' =>
      if isRateLimit error || isServerOverload error
      then _ <- setTimeout delay ;; callWithRetry fn retries' (delay * 2)
      else throw error
    | O => throw error
    end).

Section Service.

(** [process.env.API_KEY] *)
Variable API_KEY : option string.
(** The reply of the analysis model to the request sent when [n] requests
    had been sent before it. *)
Variable flash : nat -> Reply Response.
(** The same for the image model. *)
Variable flashImage : nat -> Reply (option string).

(** [await ai.models.generateContent({ model, ... })] *)
Definition generateContent {R : Type} (model : nat -> Reply R) : Promise R :=
  fun w =>
    let w' := mkWorld (S (requests w)) (timeouts w) in
    match model (requests w) with
    | Fails e => (Rejected e, w')
    | Responds r => (Resolved r, w')
    end.

(** The function passed to [callWithRetry] by [analyzeFrameWithGemini]. *)
Definition analyzeAttempt (base64Image : string) : Promise AIAnalysis :=
  try_catch
    (if negb (truthy API_KEY) then throw (Error "API Key not found") else
     response <- generateContent flash ;;
     match response with
     | NoText => throw (Error "No response from AI")
     | Unparseable msg => throw (Error msg)
     | ParsedNull => throw (Error "Cannot read properties of null (reading 'quality')")
     | Parsed j => resolve (analysisOfJson j)
     end)
    (fun error =>
       if Z_is (status error) 429 then throw error
       else resolve fallbackAnalysis).

Definition analyzeFrameWithGemini (base64Image : string) : Promise AIAnalysis :=
  callWithRetry (analyzeAttempt base64Image) 3 2000.

(** The function passed to [callWithRetry] by [enhanceFrameWithGemini]; the
    prompt text built from [advice] and [type] is sent with the request and
    does not otherwise enter the control flow. *)
Definition enhanceAttempt (base64Image advice : string) (type : list string)
  : Promise (option string) :=
  try_catch
    (if negb (truthy API_KEY) then throw (Error "API Key not found") else
     part <- generateContent flashImage ;;
     match part with
     | Some data => resolve (Some ("data:image/png;base64," ++ data))
     | None => resolve None
     end)
    (fun error =>
       if Z_is (status error) 429 then throw error
       else resolve None).

Definition enhanceFrameWithGemini (base64Image advice : string) (type : list string)
  : Promise (option string) :=
  callWithRetry (enhanceAttempt base64Image advice type) 3 2000.

(* ================================================================ *)
(** * App.tsx: the frame store and its asynchronous handlers *)

(** [curr.map(f => f.id === id ? patch(f) : f)] *)
Definition updateFrame (target : string) (patch : VideoFrame -> VideoFrame)
           (frames : list VideoFrame) : list VideoFrame :=
  map (fun f => if String.eqb (id f) target then patch f else f) frames.

(** [{ ...f, analysis: result, isProcessing: false, isSelected: shouldAutoSelect }] *)
Definition withVerdict (result : AIAnalysis) (f : VideoFrame) : VideoFrame :=
  let shouldAutoSelect := strict_eq (quality result) FrameQuality.EXCELLENT in
  {| id := id f; timestamp := timestamp f; imageUrl := imageUrl f;
     analysis := Some result;
     isSelected := shouldAutoSelect;
     isProcessing := false;
     enhancedUrl := enhancedUrl f; isEnhancing := isEnhancing f;
     appliedEnhancements := appliedEnhancements f |}.

(** [{ ...f, isProcessing: false }] *)
Definition withProcessingDone (f : VideoFrame) : VideoFrame :=
  {| id := id f; timestamp := timestamp f; imageUrl := imageUrl f;
     analysis := analysis f; isSelected := isSelected f;
     isProcessing := false;
     enhancedUrl := enhancedUrl f; isEnhancing := isEnhancing f;
     appliedEnhancements := appliedEnhancements f |}.

(** [{ ...f, isEnhancing: b }] *)
Definition withEnhancing (b : bool) (f : VideoFrame) : VideoFrame :=
  {| id := id f; timestamp := timestamp f; imageUrl := imageUrl f;
     analysis := analysis f; isSelected := isSelected f;
     isProcessing := isProcessing f;
     enhancedUrl := enhancedUrl f; isEnhancing := Some b;
     appliedEnhancements := appliedEnhancements f |}.

(** [{ ...f, isSelected: !f.isSelected }] *)
Definition withToggledSelection (f : VideoFrame) : VideoFrame :=
  {| id := id f; timestamp := timestamp f; imageUrl := imageUrl f;
     analysis := analysis f; isSelected := negb (isSelected f);
     isProcessing := isProcessing f;
     enhancedUrl := enhancedUrl f; isEnhancing := isEnhancing f;
     appliedEnhancements := appliedEnhancements f |}.

(** [f.analysis ? { ...f.analysis, quality: FrameQuality.EXCELLENT } : null] *)
Definition promoted (a : option AIAnalysis) : option AIAnalysis :=
  match a with
  | Some a =>
    Some {| quality := Some FrameQuality.EXCELLENT;
            qualityReason := qualityReason a; people := people a;
            shotType := shotType a; tags := tags a;
            compositionScore := compositionScore a;
            technicalAdvice := technicalAdvice a; subjectId := subjectId a |}
  | None => None
  end.

(** [enhancedBase64 || undefined] *)
Definition or_undefined (x : option string) : option string :=
  if truthy x then x else None.

(** The object written by [handleEnhanceSelection] once
    [enhanceFrameWithGemini] has resolved with [enhancedBase64]. *)
Definition withEnhancement (enhancedBase64 : option string) (types : list string)
           (f : VideoFrame) : VideoFrame :=
  {| id := id f; timestamp := timestamp f; imageUrl := imageUrl f;
     analysis := promoted (analysis f);
     isSelected := true;
     isProcessing := isProcessing f;
     enhancedUrl := or_undefined enhancedBase64;
     isEnhancing := Some false;
     appliedEnhancements := Some (or_array (appliedEnhancements f) ++ types)%list |}.

(** The object written by [handleBatchEnhance] for one frame: as above
    without [isSelected]. *)
Definition withBatchEnhancement (enhancedBase64 : option string) (type : string)
           (f : VideoFrame) : VideoFrame :=
  {| id := id f; timestamp := timestamp f; imageUrl := imageUrl f;
     analysis := promoted (analysis f);
     isSelected := isSelected f;
     isProcessing := isProcessing f;
     enhancedUrl := or_undefined enhancedBase64;
     isEnhancing := Some false;
     appliedEnhancements := Some (or_array (appliedEnhancements f) ++ [type])%list |}.

(** [toggleFrameSelection(id)] *)
Definition toggleFrameSelection (target : string) (frames : list VideoFrame)
  : list VideoFrame :=
  updateFrame target withToggledSelection frames.

(** [handleSaveVersion(frame)], with [uuid] the value of
    [crypto.randomUUID()]: nothing happens without an enhanced image;
    otherwise the enhanced image becomes a new frame put in front. *)
Definition handleSaveVersion (uuid : string) (frame : VideoFrame)
           (frames : list VideoFrame) : list VideoFrame :=
  match or_undefined (enhancedUrl frame) with
  | None => frames
  | Some enhanced =>
    {| id := uuid; timestamp := timestamp frame; imageUrl := enhanced;
       analysis := promoted (analysis frame);
       isSelected := true; isProcessing := false;
       enhancedUrl := None; isEnhancing := Some false;
       appliedEnhancements := appliedEnhancements frame |} :: frames
  end.

(** An asynchronous handler ends in one [setFrames] call; the handler is
    modelled by the update it passes to [setFrames] together with the world
    after its awaits.  The update is applied to the store as it is then. *)
Definition Update : Type := list VideoFrame -> list VideoFrame.

(** [processFrameAI(frame)] *)
Definition processFrameAI (frame : VideoFrame) (w : World) : Update * World :=
  match analyzeFrameWithGemini (imageUrl frame) w with
  | (Resolved result, w') => (updateFrame (id frame) (withVerdict result), w')
  | (Rejected e, w') => (updateFrame (id frame) withProcessingDone, w')
  end.

(** [handleEnhanceSelection(frame, advice, type)]: the update made before
    the request, and the one made when it settles. *)
Definition enhanceSelectionStart (frame : VideoFrame) : Update :=
  updateFrame (id frame) (withEnhancing true).

Definition enhanceSelectionSettle (frame : VideoFrame) (advice : string)
           (types : list string) (w : World) : Update * World :=
  match enhanceFrameWithGemini (imageUrl frame) advice types w with
  | (Resolved enhancedBase64, w') =>
      (updateFrame (id frame) (withEnhancement enhancedBase64 types), w')
  | (Rejected e, w') =>
      (updateFrame (id frame) (withEnhancing false), w')
  end.

(** The whole handler run against a store that nothing else touches
    meanwhile. *)
Definition handleEnhanceSelection (frame : VideoFrame) (advice : string)
           (types : list string) (frames : list VideoFrame) (w : World)
  : list VideoFrame * World :=
  let frames1 := enhanceSelectionStart frame frames in
  let (settle, w') := enhanceSelectionSettle frame advice types w in
  (settle frames1, w').

(** The [for (const frame of selectedFrames)] loop of [handleBatchEnhance];
    [frames] is the store, [selectedFrames] the snapshot iterated over. *)
Fixpoint batchLoop (type : string) (selectedFrames : list VideoFrame)
         (frames : list VideoFrame) (w : World) : list VideoFrame * World :=
  match selectedFrames with
  | [] => (frames, w)
  | frame :: rest =>
    match analysis frame with
    | None => batchLoop type rest frames w                      (* continue *)
    | Some a =>
      match enhanceFrameWithGemini (imageUrl frame) (technicalAdvice a) [type] w with
      | (Resolved enhancedBase64, w') =>
          batchLoop type rest
            (updateFrame (id frame) (withBatchEnhancement enhancedBase64 type) frames) w'
      | (Rejected e, w') =>
          batchLoop type rest
            (updateFrame (id frame) (withEnhancing false) frames) w'
      end
    end
  end.

(** [handleBatchEnhance(type)] run against a store that nothing else
    touches meanwhile. *)
Definition handleBatchEnhance (type : string) (frames : list VideoFrame) (w : World)
  : list VideoFrame * World :=
  let selectedFrames := filter isSelected frames in
  let targetIds := map id selectedFrames in
  let frames1 :=
    map (fun f => if existsb (String.eqb (id f)) targetIds
                  then withEnhancing true f else f) frames in
  batchLoop type selectedFrames frames1 w.

End Service.

(* ================================================================== *)
(** * App.tsx: startExtraction *)

(** [x < y] on numbers. *)
Definition Qltb (x y : Q) : bool := negb (Qle_bool y x).

(** The rational number a double stands for, in lowest terms (0 for both
    zeros).  NaN and the infinities stand for none and are given 0; the
    loop below makes a frame only at a time below [endTime], which is
    neither NaN nor +Infinity. *)
Definition numberValue (x : float) : Q :=
  match Prim2SF x with
  | S754_finite s m e => Qred (inject_Z (if s then Z.neg m else Z.pos m) * 2 ^ e)
  | _ => 0
  end.

(** [Number.isFinite(x)] *)
Definition isFiniteNumber (x : float) : bool :=
  match classify x with
  | NaN | PInf | NInf => false
  | _ => true
  end.

(** [Math.max(x, y)]: NaN when an argument is NaN, and +0 for the two
    zeros in either order. *)
Definition Math_max (x y : float) : float :=
  if is_nan x || is_nan y then nan
  else if (x <? y)%float then y
  else if (y <? x)%float then x
  else if get_sign x then y else x.

(** The [switch (scanSettings.range)] that sets [startTime] and [endTime]. *)
Definition scanWindow (r : ScanRange) (duration : float) : float * float :=
  match r with
  | first_half => (0, duration / 2)
  | second_half => (duration / 2, duration)
  | q1 => (0, duration * 0.25)
  | q2 => (duration * 0.25, duration * 0.5)
  | q3 => (duration * 0.5, duration * 0.75)
  | q4 => (duration * 0.75, duration)
  | full => (0, duration)
  end%float.

Definition maxFrames : nat := 50.

Section Extraction.

(** [crypto.randomUUID()], by the number of frames made before. *)
Variable randomUUID : nat -> string.
(** [canvas.toDataURL('image/jpeg', 0.85)] after the video was sought to
    a time and drawn. *)
Variable toDataURL : Q -> string.

Definition newFrame (count : nat) (currentTime : float) : VideoFrame :=
  {| id := randomUUID count;
     timestamp := numberValue currentTime;
     imageUrl := toDataURL (numberValue currentTime);
     analysis := None;
     isSelected := false;
     isProcessing := true;
     enhancedUrl := None;
     isEnhancing := None;
     appliedEnhancements := Some [] |}.

(** [while (currentTime < endTime && count < maxFrames) { ... }]: the
    frames it makes, in order; [currentTime += interval] is the addition of
    doubles.  [fuel] bounds the number of iterations; [scanLoop_fuel] below
    shows that [maxFrames - count] is enough for the loop to leave by its
    own test. *)
Fixpoint scanLoop (fuel : nat) (count : nat) (currentTime endTime interval : float)
  : list VideoFrame :=
  match fuel with
  | O => []
  | S fuel' =>
    if (currentTime <? endTime)%float && (count <? maxFrames)%nat
    then newFrame count currentTime
           :: scanLoop fuel' (S count) (currentTime + interval)%float endTime interval
    else []
  end.

(** The frames [startExtraction] appends to the store (each is also handed
    to [processFrameAI]), once the video element, the canvas and the
    metadata are there. *)
Definition startExtraction (scanSettings : ScanSettings) (duration : float)
  : list VideoFrame :=
  let (startTime, endTime) := scanWindow (range scanSettings) duration in
  let currentTime := startTime in
  let interval := Math_max 1 (interval scanSettings) in
  scanLoop maxFrames 0 currentTime endTime interval.

End Extraction.

(* ================================================================== *)
(** * services/exportService.ts *)

(** The values that occur in a manifest entry. *)
Inductive JsValue : Type :=
  | undefined
  | JsString (s : string)
  | JsNumber (q : Q)
  | JsBoolean (b : bool)
  | JsStrings (l : list string).

Definition JsOptString (x : option string) : JsValue :=
  match x with
  | Some s => JsString s
  | None => undefined
  end.

(** [f.analysis?.prop] *)
Definition optChain {A : Type} (a : option AIAnalysis) (prop : AIAnalysis -> A)
           (inj : A -> JsValue) : JsValue :=
  match a with
  | Some a => inj (prop a)
  | None => undefined
  end.

(** The decimal digits of a natural number, ["0"] for zero. *)
Definition digits (n : Z) : string :=
  NilZero.string_of_uint (N.to_uint (Z.to_N n)).

Fixpoint zeros (n : nat) : string :=
  match n with
  | O => ""
  | S n' => String "0" (zeros n')
  end.

(** [x.toFixed(2)] (for [|x| < 1e21]): the nearest multiple of 1/100, the
    larger one on a tie, written with two decimals; the sign is set apart
    first. *)
Definition toFixed2 (x : Q) : string :=
  let s := if Qltb x 0 then "-" else "" in
  let x := if Qltb x 0 then Qopp x else x in
  let n := Qfloor (x * 100 + (1 # 2)) in
  let m := digits n in
  let k := String.length m in
  let m := if (k <=? 2)%nat then zeros (3 - k) ++ m else m in
  let k := String.length m in
  s ++ String.substring 0 (k - 2) m ++ "." ++ String.substring (k - 2) 2 m.

(** The object literal of one manifest entry: its keys, in order, with
    their values. *)
Definition manifestEntry (f : VideoFrame) : list (string * JsValue) :=
  [ ("id", JsString (id f));
    ("timestamp", JsNumber (timestamp f));
    ("quality", optChain (analysis f) quality JsOptString);
    ("score", optChain (analysis f) compositionScore JsNumber);
    ("tags", optChain (analysis f) tags JsStrings);
    ("advice", optChain (analysis f) technicalAdvice JsString);
    ("people", optChain (analysis f) people JsStrings);
    ("shotType", optChain (analysis f) shotType JsOptString);
    ("isEnhanced", JsBoolean (truthy (enhancedUrl f))) ].

(** [frame.analysis?.quality || 'ungraded'] *)
Definition qualityLabel (frame : VideoFrame) : string :=
  match analysis frame with
  | Some a => or_string (quality a) "ungraded"
  | None => "ungraded"
  end.

Definition filename (frame : VideoFrame) : string :=
  "frame_" ++ toFixed2 (timestamp frame) ++ "s_" ++ qualityLabel frame ++ ".png".

(** [frame.enhancedUrl || frame.imageUrl] *)
Definition imageData (frame : VideoFrame) : string :=
  or_string (enhancedUrl frame) (imageUrl frame).

Definition isUndefined (v : JsValue) : bool :=
  match v with
  | undefined => true
  | _ => false
  end.

(** What [JSON.stringify] writes of an object: its members in the order of
    the properties, without the properties whose value is [undefined].
    (The text itself, with its quotes and its indentation, is not
    modelled.) *)
Definition JSON_stringify (object : list (string * JsValue)) : list (string * JsValue) :=
  filter (fun member => negb (isUndefined (snd member))) object.

(** What [exportProjectToZip] puts into the folder before the archive is
    generated: the entries written to [manifest.json] by
    [JSON.stringify(manifest, null, 2)], and the
    [folder.file(filename, base64Data, ...)] calls of the image loop, in
    order. *)
Record ExportBundle : Type := mkBundle {
  manifest : list (list (string * JsValue));
  imageFiles : list (string * string)
}.

Definition exportProjectToZip (frames : list VideoFrame) : ExportBundle :=
  let keepers := filter isSelected frames in
  let manifest := map manifestEntry keepers in
  {| manifest := map JSON_stringify manifest;
     imageFiles := map (fun frame => (filename frame, stripDataUrl (imageData frame)))
                       keepers |}.

(* ================================================================== *)
(** * Sanity checks of the embedding on concrete inputs *)

Example toFixed2_zero : toFixed2 0 = "0.00".
Proof. reflexivity. Qed.

Example toFixed2_rounds : toFixed2 (7 # 3) = "2.33" /\ toFixed2 (1005 # 1000) = "1.01".
Proof. split; reflexivity. Qed.

Example toFixed2_wide : toFixed2 125 = "125.00" /\ toFixed2 (5 # 100) = "0.05".
Proof. split; reflexivity. Qed.

Example stripDataUrl_jpeg : stripDataUrl "data:image/jpeg;base64,AAAA" = "AAAA".
Proof. reflexivity. Qed.

Example stripDataUrl_other : stripDataUrl "data:image/gif;base64,AAAA" = "data:image/gif;base64,AAAA".
Proof. reflexivity. Qed.

Example includes_429 : includes "429" "got 429 Too Many Requests" = true.
Proof. reflexivity. Qed.

(* ================================================================== *)
(** * The frame store: update by id *)

Section StoreFacts.

Variable target : string.
Variable patch : VideoFrame -> VideoFrame.

Lemma updateFrame_length (frames : list VideoFrame) :
  List.length (updateFrame target patch frames) = List.length frames.
Proof. unfold updateFrame. apply length_map. Qed.

Lemma updateFrame_nth (frames : list VideoFrame) (n : nat) (f : VideoFrame) :
  nth_error frames n = Some f ->
  nth_error (updateFrame target patch frames) n
  = Some (if String.eqb (id f) target then patch f else f).
Proof.
  intros Hn. unfold updateFrame.
  rewrite nth_error_map, Hn. reflexivity.
Qed.

Lemma updateFrame_absent (frames : list VideoFrame) :
  (forall f, In f frames -> id f <> target) ->
  updateFrame target patch frames = frames.
Proof.
  induction frames as [|f frames IH]; intros Habsent; [reflexivity|].
  cbn [updateFrame map].
  destruct (String.eqb_spec (id f) target) as [Heq|_].
  - exfalso. exact (Habsent f (or_introl eq_refl) Heq).
  - f_equal. apply IH. intros g Hg. apply Habsent. now right.
Qed.

(** When [patch] keeps ids, so does the update, frame by frame. *)
Lemma updateFrame_ids (frames : list VideoFrame) :
  (forall f, id (patch f) = id f) ->
  map id (updateFrame target patch frames) = map id frames.
Proof.
  intros Hid. unfold updateFrame. rewrite map_map.
  apply map_ext. intros f.
  destruct (String.eqb (id f) target); [apply Hid | reflexivity].
Qed.

End StoreFacts.

(** C9.  An update addressed to a frame id that no frame of the store
    carries leaves the store exactly as it was, frame for frame and in the
    same order.  This holds for any patch, and so for the updates the
    asynchronous handlers make when they settle late: the verdict (or the
    failure) of [processFrameAI], and both updates of
    [handleEnhanceSelection]. *)
Theorem update_of_absent_id_is_noop :
  forall (API_KEY : option string) (flash : nat -> Reply Response)
         (flashImage : nat -> Reply (option string))
         (frame : VideoFrame) (advice : string) (types : list string)
         (frames : list VideoFrame) (w : World),
    (forall f, In f frames -> id f <> id frame) ->
    (forall patch, updateFrame (id frame) patch frames = frames) /\
    fst (processFrameAI API_KEY flash frame w) frames = frames /\
    enhanceSelectionStart frame frames = frames /\
    fst (enhanceSelectionSettle API_KEY flashImage frame advice types w) frames = frames.
Proof.
  intros API_KEY flash flashImage frame advice types frames w Habsent.
  assert (Hnoop : forall patch, updateFrame (id frame) patch frames = frames)
    by (intros patch; now apply updateFrame_absent).
  repeat split.
  - exact Hnoop.
  - unfold processFrameAI.
    destruct (analyzeFrameWithGemini API_KEY flash (imageUrl frame) w) as [[result|e] w'];
      apply Hnoop.
  - apply Hnoop.
  - unfold enhanceSelectionSettle.
    destruct (enhanceFrameWithGemini API_KEY flashImage (imageUrl frame) advice types w)
      as [[enhanced|e] w']; apply Hnoop.
Qed.

(** Two frames for the concrete checks below. *)
Definition goodAnalysis : AIAnalysis :=
  {| quality := Some FrameQuality.GOOD;
     qualityReason := Some "Usable";
     people := ["Child"];
     shotType := Some ShotType.CANDID;
     tags := ["Beach"];
     compositionScore := 6;
     technicalAdvice := "Lift the shadows. Straighten the horizon.";
     subjectId := Some "Child_Red_Hat" |}.

Definition pendingFrame (name : string) (t : Q) : VideoFrame :=
  {| id := name; timestamp := t; imageUrl := "data:image/jpeg;base64,AAAA";
     analysis := None; isSelected := false; isProcessing := true;
     enhancedUrl := None; isEnhancing := None; appliedEnhancements := Some [] |}.

Definition goodJson : json.t :=
  {| json.quality := Some "Good"; json.qualityReason := Some "Usable";
     json.people := Some ["Child"]; json.shotType := Some "Candid";
     json.tags := Some ["Beach"]; json.compositionScore := Some 6;
     json.technicalAdvice := Some "Lift the shadows. Straighten the horizon.";
     json.subjectId := Some "Child_Red_Hat" |}.

Lemma update_of_absent_id_is_noop_witness :
  let frames := [pendingFrame "a" 0; pendingFrame "b" 3] in
  let gone := pendingFrame "discarded" 6 in
  fst (processFrameAI (Some "key") (fun _ => Responds (Parsed goodJson)) gone world0) frames = frames.
Proof.
  intros frames gone.
  refine (proj1 (proj2 (update_of_absent_id_is_noop
            (Some "key") (fun _ => Responds (Parsed goodJson)) (fun _ => Responds None)
            gone "" [] frames world0 _))).
  intros f [Hf|[Hf|[]]]; subst f; discriminate.
Defined.

(* ================================================================== *)
(** * The retry helper and the two service calls *)

(** The world after one more request, and after one more awaited delay. *)
Definition sent (w : World) : World := mkWorld (S (requests w)) (timeouts w).
Definition slept (delay : Z) (w : World) : World :=
  mkWorld (requests w) (timeouts w ++ [delay])%list.

Section RetryFacts.

Context {T : Type}.
Variable fn : Promise T.

Lemma callWithRetry_resolved (retries : nat) (delay : Z) (w w' : World) (v : T) :
  fn w = (Resolved v, w') ->
  callWithRetry fn retries delay w = (Resolved v, w').
Proof.
  intros Hfn. destruct retries; cbn [callWithRetry]; unfold try_catch;
    rewrite Hfn; reflexivity.
Qed.

Lemma callWithRetry_again (retries : nat) (delay : Z) (w w' : World) (e : JsError) :
  fn w = (Rejected e, w') ->
  isRateLimit e || isServerOverload e = true ->
  callWithRetry fn (S retries) delay w
  = callWithRetry fn retries (delay * 2) (slept delay w').
Proof.
  intros Hfn Hbusy. cbn [callWithRetry]. unfold try_catch at 1.
  rewrite Hfn, Hbusy. reflexivity.
Qed.

Lemma callWithRetry_other (retries : nat) (delay : Z) (w w' : World) (e : JsError) :
  fn w = (Rejected e, w') ->
  isRateLimit e || isServerOverload e = false ->
  callWithRetry fn retries delay w = (Rejected e, w').
Proof.
  intros Hfn Hbusy. destruct retries; cbn [callWithRetry]; unfold try_catch;
    rewrite Hfn; [reflexivity|]. rewrite Hbusy. reflexivity.
Qed.

Lemma callWithRetry_exhausted (delay : Z) (w w' : World) (e : JsError) :
  fn w = (Rejected e, w') ->
  callWithRetry fn 0 delay w = (Rejected e, w').
Proof.
  intros Hfn. cbn [callWithRetry]. unfold try_catch. rewrite Hfn. reflexivity.
Qed.

(** However [fn] behaves, it is called at most [retries + 1] times: the
    log of delays grows by at most [retries] entries. *)
Lemma callWithRetry_waits (retries : nat) (fn_quiet : forall w, timeouts (snd (fn w)) = timeouts w) :
  forall (delay : Z) (w : World),
    exists waits, timeouts (snd (callWithRetry fn retries delay w))
                  = (timeouts w ++ waits)%list
                  /\ (List.length waits <= retries)%nat.
Proof.
  induction retries as [|r IH]; intros delay w.
  - exists []. split; [|apply Nat.le_refl].
    cbn [callWithRetry]. unfold try_catch.
    specialize (fn_quiet w). destruct (fn w) as [[v|e] w']; cbn in *;
      rewrite app_nil_r; assumption.
  - cbn [callWithRetry]. unfold try_catch at 1.
    pose proof (fn_quiet w) as Hq. destruct (fn w) as [[v|e] w']; cbn in Hq.
    + exists []. cbn. rewrite app_nil_r. split; [assumption|apply Nat.le_0_l].
    + destruct (isRateLimit e || isServerOverload e).
      * destruct (IH (delay * 2)%Z (slept delay w')) as [waits [Hw Hlen]].
        exists (delay :: waits). split.
        -- unfold await, setTimeout. fold (slept delay w').
           rewrite Hw. cbn. rewrite Hq, <- app_assoc. reflexivity.
        -- cbn. now apply le_n_S.
      * exists []. cbn. rewrite app_nil_r. split; [assumption|apply Nat.le_0_l].
Qed.

End RetryFacts.

Section AnalyzeFacts.

Variable API_KEY : option string.
Variable flash : nat -> Reply Response.
Variable base64Image : string.
Hypothesis has_key : truthy API_KEY = true.

Lemma analyzeAttempt_parsed (w : World) (j : json.t) :
  flash (requests w) = Responds (Parsed j) ->
  analyzeAttempt API_KEY flash base64Image w = (Resolved (analysisOfJson j), sent w).
Proof.
  intros Hr. unfold analyzeAttempt, try_catch, await, generateContent.
  rewrite has_key. cbn. rewrite Hr. reflexivity.
Qed.

Lemma analyzeAttempt_status_429 (w : World) (e : JsError) :
  flash (requests w) = Fails e ->
  Z_is (status e) 429 = true ->
  analyzeAttempt API_KEY flash base64Image w = (Rejected e, sent w).
Proof.
  intros Hr H429. unfold analyzeAttempt, try_catch, await, generateContent.
  rewrite has_key. cbn. rewrite Hr. cbn. rewrite H429. reflexivity.
Qed.

Lemma analyzeAttempt_other_failure (w : World) (e : JsError) :
  flash (requests w) = Fails e ->
  Z_is (status e) 429 = false ->
  analyzeAttempt API_KEY flash base64Image w = (Resolved fallbackAnalysis, sent w).
Proof.
  intros Hr H429. unfold analyzeAttempt, try_catch, await, generateContent.
  rewrite has_key. cbn. rewrite Hr. cbn. rewrite H429. reflexivity.
Qed.

Lemma analyzeAttempt_unusable (w : World) :
  (flash (requests w) = Responds NoText \/ (exists msg, flash (requests w) = Responds (Unparseable msg))
   \/ flash (requests w) = Responds ParsedNull) ->
  analyzeAttempt API_KEY flash base64Image w = (Resolved fallbackAnalysis, sent w).
Proof.
  intros [Hr|[[msg Hr]|Hr]];
    unfold analyzeAttempt, try_catch, await, generateContent;
    rewrite has_key; cbn; rewrite Hr; reflexivity.
Qed.

End AnalyzeFacts.

Lemma status_429_isRateLimit (e : JsError) :
  Z_is (status e) 429 = true -> isRateLimit e || isServerOverload e = true.
Proof. intros H. unfold isRateLimit. rewrite H. reflexivity. Qed.

(** The retry law on the path the code does retry: two rejections with
    [status] 429, then a parsed response.  The parsed analysis is returned
    after three requests and two waits, of 2000 ms and 4000 ms. *)
Lemma analyze_retries_status_429 :
  forall (API_KEY : option string) (flash : nat -> Reply Response) (img : string)
         (e0 e1 : JsError) (j : json.t),
    truthy API_KEY = true ->
    flash 0%nat = Fails e0 -> Z_is (status e0) 429 = true ->
    flash 1%nat = Fails e1 -> Z_is (status e1) 429 = true ->
    flash 2%nat = Responds (Parsed j) ->
    analyzeFrameWithGemini API_KEY flash img world0
    = (Resolved (analysisOfJson j), mkWorld 3 [2000; 4000]%Z).
Proof.
  intros API_KEY flash img e0 e1 j Hkey H0 S0 H1 S1 H2.
  unfold analyzeFrameWithGemini.
  rewrite (callWithRetry_again _ _ _ world0 (sent world0) e0).
  - rewrite (callWithRetry_again _ _ _ _ (sent (slept 2000 (sent world0))) e1).
    + apply callWithRetry_resolved.
      now apply analyzeAttempt_parsed.
    + now apply analyzeAttempt_status_429.
    + now apply status_429_isRateLimit.
  - now apply analyzeAttempt_status_429.
  - now apply status_429_isRateLimit.
Qed.

(** A failure that is not a [status] 429 rejection ends the call at once with
    the degraded fallback: one request, no wait. *)
Lemma analyze_terminal_failure :
  forall (API_KEY : option string) (flash : nat -> Reply Response) (img : string) (w : World),
    truthy API_KEY = true ->
    (flash (requests w) = Responds NoText
     \/ (exists msg, flash (requests w) = Responds (Unparseable msg))
     \/ flash (requests w) = Responds ParsedNull
     \/ (exists e, flash (requests w) = Fails e /\ Z_is (status e) 429 = false)) ->
    analyzeFrameWithGemini API_KEY flash img w = (Resolved fallbackAnalysis, sent w).
Proof.
  intros API_KEY flash img w Hkey Hr.
  unfold analyzeFrameWithGemini. apply callWithRetry_resolved.
  destruct Hr as [Hr|[Hr|[Hr|[e [Hr He]]]]].
  - apply analyzeAttempt_unusable; auto.
  - apply analyzeAttempt_unusable; auto.
  - apply analyzeAttempt_unusable; auto.
  - now apply analyzeAttempt_other_failure with (e := e).
Qed.

(** Without credentials no request is sent and the fallback is returned. *)
Lemma analyze_without_key :
  forall (API_KEY : option string) (flash : nat -> Reply Response) (img : string) (w : World),
    truthy API_KEY = false ->
    analyzeFrameWithGemini API_KEY flash img w = (Resolved fallbackAnalysis, w).
Proof.
  intros API_KEY flash img w Hkey.
  unfold analyzeFrameWithGemini. apply callWithRetry_resolved.
  unfold analyzeAttempt, try_catch. rewrite Hkey. reflexivity.
Qed.

(** When every request is rejected with [status] 429, the call rejects after
    four requests and the waits 2000, 4000, 8000. *)
Lemma analyze_rejects_when_exhausted :
  forall (API_KEY : option string) (flash : nat -> Reply Response) (img : string)
         (e : JsError) (w : World),
    truthy API_KEY = true ->
    (forall n, flash n = Fails e) -> Z_is (status e) 429 = true ->
    analyzeFrameWithGemini API_KEY flash img w
    = (Rejected e, sent (slept 8000 (sent (slept 4000 (sent (slept 2000 (sent w))))))).
Proof.
  intros API_KEY flash img e w Hkey Hall H429.
  assert (Hstep : forall w0, analyzeAttempt API_KEY flash img w0 = (Rejected e, sent w0))
    by (intros w0; now apply analyzeAttempt_status_429).
  pose proof (status_429_isRateLimit e H429) as Hbusy.
  unfold analyzeFrameWithGemini.
  rewrite (callWithRetry_again _ _ _ _ _ e (Hstep _) Hbusy).
  rewrite (callWithRetry_again _ _ _ _ _ e (Hstep _) Hbusy).
  rewrite (callWithRetry_again _ _ _ _ _ e (Hstep _) Hbusy).
  apply callWithRetry_exhausted. apply Hstep.
Qed.

(* ================================================================== *)
(** * Analysis: verdicts and selection *)

Lemma strict_eq_true (x : option string) (s : string) :
  strict_eq x s = true <-> x = Some s.
Proof.
  destruct x as [y|]; cbn.
  - rewrite String.eqb_eq. split; [now intros ->|now intros [= ->]].
  - split; discriminate.
Qed.

(** C1 (as amended).  When the analysis call of a frame resolves with a
    verdict, the frame of that id gets the verdict, [isProcessing] is
    cleared, and [isSelected] is overwritten with the test
    [quality === Excellent]: it becomes true exactly when the quality is
    Excellent, and false when the quality is Good or Fair, whatever it was
    before.  The degraded fallback, whose quality is Fair, therefore never
    selects a frame. *)
Theorem verdict_overwrites_selection :
  forall (API_KEY : option string) (flash : nat -> Reply Response)
         (frame : VideoFrame) (w w' : World) (result : AIAnalysis)
         (frames : list VideoFrame) (n : nat) (f : VideoFrame),
    analyzeFrameWithGemini API_KEY flash (imageUrl frame) w = (Resolved result, w') ->
    nth_error frames n = Some f ->
    id f = id frame ->
    exists f',
      nth_error (fst (processFrameAI API_KEY flash frame w) frames) n = Some f' /\
      analysis f' = Some result /\
      isProcessing f' = false /\
      (isSelected f' = true <-> quality result = Some FrameQuality.EXCELLENT) /\
      (quality result = Some FrameQuality.GOOD \/ quality result = Some FrameQuality.FAIR ->
       isSelected f' = false) /\
      (result = fallbackAnalysis -> isSelected f' = false).
Proof.
  intros API_KEY flash frame w w' result frames n f Hcall Hn Hid.
  exists (withVerdict result f).
  unfold processFrameAI. rewrite Hcall. cbn [fst].
  rewrite (updateFrame_nth _ _ _ _ _ Hn), Hid, String.eqb_refl.
  repeat split; cbn [isSelected withVerdict].
  - apply strict_eq_true.
  - apply strict_eq_true.
  - intros [Hq|Hq]; rewrite Hq; reflexivity.
  - intros ->. reflexivity.
Qed.

Lemma verdict_overwrites_selection_witness :
  exists f',
    nth_error (fst (processFrameAI (Some "key") (fun _ => Responds (Parsed goodJson))
                                   (pendingFrame "a" 0) world0)
                   [pendingFrame "a" 0]) 0 = Some f' /\
    analysis f' = Some goodAnalysis /\ isSelected f' = false.
Proof.
  destruct (verdict_overwrites_selection (Some "key") (fun _ => Responds (Parsed goodJson))
              (pendingFrame "a" 0) world0 (mkWorld 1 []) goodAnalysis
              [pendingFrame "a" 0] 0 (pendingFrame "a" 0)
              eq_refl eq_refl eq_refl)
    as [f' [Hn [Ha [_ [_ [Hgood _]]]]]].
  exists f'. repeat split; [exact Hn | exact Ha | apply Hgood; left; reflexivity].
Defined.

(** C1 as stated fails: a frame the user selected while its analysis was
    outstanding loses the selection when a Good verdict arrives. *)
Lemma good_verdict_clears_selection :
  let frame := pendingFrame "a" 0 in
  let frames := toggleFrameSelection "a" [frame] in
  map isSelected frames = [true] /\
  fst (analyzeFrameWithGemini (Some "key") (fun _ => Responds (Parsed goodJson)) (imageUrl frame) world0)
  = Resolved goodAnalysis /\
  map isSelected
      (fst (processFrameAI (Some "key") (fun _ => Responds (Parsed goodJson)) frame world0) frames)
  = [false].
Proof. repeat split. Qed.

(* ================================================================== *)
(** * Analysis: transient failures *)

Definition tooManyRequests : JsError :=
  mkError (Some 429%Z) None (Some "Resource has been exhausted").

Definition serviceUnavailable : JsError :=
  mkError (Some 503%Z) None (Some "The model is overloaded").

(** A service that is overloaded for the first two requests and answers the
    third. *)
Definition overloadedTwice (n : nat) : Reply Response :=
  if (n <? 2)%nat then Fails serviceUnavailable else Responds (Parsed goodJson).

(** The same with rate-limit rejections. *)
Definition rateLimitedTwice (n : nat) : Reply Response :=
  if (n <? 2)%nat then Fails tooManyRequests else Responds (Parsed goodJson).

Example rate_limit_is_retried :
  analyzeFrameWithGemini (Some "key") rateLimitedTwice "img" world0
  = (Resolved goodAnalysis, mkWorld 3 [2000; 4000]%Z).
Proof. reflexivity. Qed.

(** [callWithRetry] by itself does retry a 503 rejection. *)
Example callWithRetry_retries_overload :
  callWithRetry (generateContent overloadedTwice) 3 2000 world0
  = (Resolved (Parsed goodJson), mkWorld 3 [2000; 4000]%Z).
Proof. reflexivity. Qed.

(** C3 at a service-overload signal.  Against a service that rejects the
    first two requests with status 503 and answers the third with a Good
    verdict, [analyzeFrameWithGemini] sends a single request, waits for no
    delay and returns the degraded fallback: the [catch] block of the
    attempt only re-throws a [status] 429 error, so [callWithRetry] never
    sees the 503 it is written to retry. *)
Theorem overload_is_not_retried :
  analyzeFrameWithGemini (Some "key") overloadedTwice "img" world0
  = (Resolved fallbackAnalysis, mkWorld 1 []) /\
  isServerOverload serviceUnavailable = true /\
  overloadedTwice 2 = Responds (Parsed goodJson) /\
  analysisOfJson goodJson <> fallbackAnalysis.
Proof. repeat split. discriminate. Qed.

(** C4 at a frame whose four requests are all rejected with status 429.
    [analyzeFrameWithGemini] rejects after the waits 2000, 4000 and 8000, and
    the [catch] block of [processFrameAI] clears [isProcessing] only: the
    frame keeps [analysis = null] and gets no fallback record. *)
Theorem exhausted_retries_leave_analysis_null :
  let frame := pendingFrame "a" 0 in
  let always429 := fun _ : nat => Fails tooManyRequests in
  analyzeFrameWithGemini (Some "key") always429 (imageUrl frame) world0
  = (Rejected tooManyRequests, mkWorld 4 [2000; 4000; 8000]%Z) /\
  fst (processFrameAI (Some "key") always429 frame world0) [frame]
  = [ {| id := "a"; timestamp := 0; imageUrl := imageUrl frame;
         analysis := None; isSelected := false; isProcessing := false;
         enhancedUrl := None; isEnhancing := None;
         appliedEnhancements := Some [] |} ].
Proof. split; reflexivity. Qed.

(** The same for any store and any frame: after exhausted retries the update
    is [{ ...f, isProcessing: false }], which keeps [analysis]. *)
Lemma exhausted_retries_update :
  forall (API_KEY : option string) (flash : nat -> Reply Response) (e : JsError)
         (frame : VideoFrame) (w : World),
    truthy API_KEY = true ->
    (forall n, flash n = Fails e) -> Z_is (status e) 429 = true ->
    fst (processFrameAI API_KEY flash frame w) = updateFrame (id frame) withProcessingDone.
Proof.
  intros API_KEY flash e frame w Hkey Hall H429.
  unfold processFrameAI.
  rewrite (analyze_rejects_when_exhausted _ _ _ e w Hkey Hall H429). reflexivity.
Qed.

(* ================================================================== *)
(** * Analysis: responses with a missing field *)

(** A parsed response that has every property but [quality]. *)
Definition jsonWithoutQuality : json.t :=
  {| json.quality := None; json.qualityReason := Some "Usable";
     json.people := Some ["Child"]; json.shotType := Some "Candid";
     json.tags := Some ["Beach"]; json.compositionScore := Some 6;
     json.technicalAdvice := Some "Lift the shadows.";
     json.subjectId := None |}.

(** C5 as stated fails: the response without [quality] is not turned into
    the degraded fallback; its other fields are passed on and [quality] is
    left undefined. *)
Lemma missing_quality_is_not_the_fallback :
  analyzeFrameWithGemini (Some "key") (fun _ => Responds (Parsed jsonWithoutQuality)) "img" world0
  = (Resolved {| quality := None; qualityReason := Some "Usable";
                 people := ["Child"]; shotType := Some "Candid";
                 tags := ["Beach"]; compositionScore := 6;
                 technicalAdvice := "Lift the shadows."; subjectId := None |},
     mkWorld 1 []) /\
  quality fallbackAnalysis = Some "Fair" /\
  fst (analyzeFrameWithGemini (Some "key") (fun _ => Responds (Parsed jsonWithoutQuality)) "img" world0)
  <> Resolved fallbackAnalysis.
Proof. repeat split. discriminate. Qed.

(** C5 (as amended).  With credentials present, a parsed response that
    lacks [quality] is answered without a retry (one request, no wait) by
    the analysis read off the response field by field: [quality] is
    undefined, and the defaults [[]], [[]], 5 and "No advice available" stand
    in for missing [people], [tags], [compositionScore] and
    [technicalAdvice]; this is not the degraded fallback.  The exact
    degraded fallback is what a response without text, an unparseable
    text, a parsed [null] or a rejection whose status is not 429 resolves
    to, again after one request and no wait. *)
Theorem missing_quality_passes_through :
  forall (API_KEY : option string) (flash : nat -> Reply Response) (img : string) (w : World),
    truthy API_KEY = true ->
    (forall j, flash (requests w) = Responds (Parsed j) -> json.quality j = None ->
       analyzeFrameWithGemini API_KEY flash img w
       = (Resolved (analysisOfJson j), sent w) /\
       quality (analysisOfJson j) = None /\
       people (analysisOfJson j) = or_array (json.people j) /\
       tags (analysisOfJson j) = or_array (json.tags j) /\
       compositionScore (analysisOfJson j) = or_number (json.compositionScore j) 5 /\
       technicalAdvice (analysisOfJson j)
       = or_string (json.technicalAdvice j) "No advice available" /\
       analysisOfJson j <> fallbackAnalysis) /\
    ((flash (requests w) = Responds NoText
      \/ (exists msg, flash (requests w) = Responds (Unparseable msg))
      \/ flash (requests w) = Responds ParsedNull
      \/ (exists e, flash (requests w) = Fails e /\ Z_is (status e) 429 = false)) ->
     analyzeFrameWithGemini API_KEY flash img w = (Resolved fallbackAnalysis, sent w)) /\
    timeouts (sent w) = timeouts w /\ requests (sent w) = S (requests w).
Proof.
  intros API_KEY flash img w Hkey. repeat split.
  - unfold analyzeFrameWithGemini. apply callWithRetry_resolved.
    now apply analyzeAttempt_parsed.
  - cbn. assumption.
  - intros Heq. apply (f_equal quality) in Heq. cbn in Heq. congruence.
  - intros Hr. now apply analyze_terminal_failure.
Qed.

Lemma missing_quality_passes_through_witness :
  analyzeFrameWithGemini (Some "key") (fun _ => Responds (Parsed jsonWithoutQuality)) "img" world0
  = (Resolved (analysisOfJson jsonWithoutQuality), sent world0).
Proof.
  exact (proj1 (proj1 (missing_quality_passes_through
                         (Some "key") (fun _ => Responds (Parsed jsonWithoutQuality)) "img" world0
                         eq_refl)
                      jsonWithoutQuality eq_refl eq_refl)).
Defined.

(* ================================================================== *)
(** * Enhancement *)

(** What the failure branch of both handlers writes keeps everything but
    [isEnhancing]. *)
Lemma withEnhancing_frame (b : bool) (f : VideoFrame) :
  enhancedUrl (withEnhancing b f) = enhancedUrl f /\
  appliedEnhancements (withEnhancing b f) = appliedEnhancements f /\
  analysis (withEnhancing b f) = analysis f /\
  isSelected (withEnhancing b f) = isSelected f /\
  isEnhancing (withEnhancing b f) = Some b.
Proof. repeat split. Qed.

(** When [enhanceFrameWithGemini] rejects (a 429 on every attempt), the
    handler clears [isEnhancing] on the frame and changes nothing else. *)
Lemma enhance_rejected_clears_flag_only :
  forall (API_KEY : option string) (flashImage : nat -> Reply (option string))
         (frame : VideoFrame) (advice : string) (types : list string)
         (w w' : World) (e : JsError),
    enhanceFrameWithGemini API_KEY flashImage (imageUrl frame) advice types w
    = (Rejected e, w') ->
    fst (enhanceSelectionSettle API_KEY flashImage frame advice types w)
    = updateFrame (id frame) (withEnhancing false).
Proof.
  intros API_KEY flashImage frame advice types w w' e Hcall.
  unfold enhanceSelectionSettle. rewrite Hcall. reflexivity.
Qed.

(** A frame that was enhanced once before, and is not selected. *)
Definition restoredFrame : VideoFrame :=
  {| id := "a"; timestamp := 3; imageUrl := "data:image/jpeg;base64,AAAA";
     analysis := Some goodAnalysis; isSelected := false; isProcessing := false;
     enhancedUrl := Some "data:image/png;base64,OLD";
     isEnhancing := Some false;
     appliedEnhancements := Some [EnhancementType.RESTORE] |}.

(** The image model answers without an image part. *)
Definition noImage (n : nat) : Reply (option string) := Responds None.

(** C2 at a "no image produced" result.  [enhanceFrameWithGemini] resolves
    with [null], which both handlers treat like an image: the earlier
    [enhancedUrl] is replaced by [undefined], the requested style is appended
    to [appliedEnhancements] and the quality of the analysis is forced to
    Excellent ([handleEnhanceSelection] also selects the frame).  Only a
    rejection takes the branch that clears [isEnhancing] alone. *)
Theorem no_image_result_overwrites_frame :
  enhanceFrameWithGemini (Some "key") noImage (imageUrl restoredFrame)
                         "Lift the shadows" [EnhancementType.CINEMATIC] world0
  = (Resolved None, mkWorld 1 []) /\
  fst (handleEnhanceSelection (Some "key") noImage restoredFrame "Lift the shadows"
                              [EnhancementType.CINEMATIC] [restoredFrame] world0)
  = [ {| id := "a"; timestamp := 3; imageUrl := "data:image/jpeg;base64,AAAA";
         analysis := promoted (Some goodAnalysis);
         isSelected := true; isProcessing := false;
         enhancedUrl := None;
         isEnhancing := Some false;
         appliedEnhancements :=
           Some [EnhancementType.RESTORE; EnhancementType.CINEMATIC] |} ] /\
  fst (handleBatchEnhance (Some "key") noImage EnhancementType.CINEMATIC
                          (toggleFrameSelection "a" [restoredFrame]) world0)
  = [ {| id := "a"; timestamp := 3; imageUrl := "data:image/jpeg;base64,AAAA";
         analysis := promoted (Some goodAnalysis);
         isSelected := true; isProcessing := false;
         enhancedUrl := None;
         isEnhancing := Some false;
         appliedEnhancements :=
           Some [EnhancementType.RESTORE; EnhancementType.CINEMATIC] |} ].
Proof. repeat split. Qed.

(** The same happens when the request fails with an error that is not a
    status 429: the attempt's [catch] turns it into [null]. *)
Example failed_request_overwrites_frame :
  map enhancedUrl
      (fst (handleEnhanceSelection (Some "key") (fun _ => Fails serviceUnavailable)
              restoredFrame "Lift the shadows" [EnhancementType.CINEMATIC]
              [restoredFrame] world0))
  = [None].
Proof. reflexivity. Qed.

(** Whereas a rejection that survives the retries leaves the frame as it
    was, [isEnhancing] apart. *)
Example rejected_request_keeps_frame :
  fst (handleEnhanceSelection (Some "key") (fun _ => Fails tooManyRequests)
         restoredFrame "Lift the shadows" [EnhancementType.CINEMATIC]
         [restoredFrame] world0)
  = [restoredFrame].
Proof. reflexivity. Qed.

(* ================================================================== *)
(** * Batch enhancement *)

(** The first update of [handleBatchEnhance] raises [isEnhancing] on every
    selected frame. *)
Lemma batch_start_flags_targets (frames : list VideoFrame) (f : VideoFrame) (n : nat) :
  nth_error frames n = Some f -> isSelected f = true ->
  let targetIds := map id (filter isSelected frames) in
  nth_error (map (fun f => if existsb (String.eqb (id f)) targetIds
                           then withEnhancing true f else f) frames) n
  = Some (withEnhancing true f).
Proof.
  intros Hn Hsel targetIds. rewrite nth_error_map, Hn. cbn [option_map].
  replace (existsb (String.eqb (id f)) targetIds) with true; [reflexivity|].
  symmetry. apply existsb_exists. exists (id f). split; [|apply String.eqb_refl].
  apply in_map. apply filter_In. split; [|assumption].
  eapply nth_error_In; eassumption.
Qed.

(** The image model answers every request with an image. *)
Definition someImage (n : nat) : Reply (option string) := Responds (Some "NEW").

(** A keeper without an analysis, as left behind by [processFrameAI] after
    exhausted retries and then selected by the user. *)
Definition unanalysedKeeper : VideoFrame :=
  {| id := "b"; timestamp := 6; imageUrl := "data:image/jpeg;base64,BBBB";
     analysis := None; isSelected := true; isProcessing := false;
     enhancedUrl := None; isEnhancing := None; appliedEnhancements := Some [] |}.

Definition analysedKeeper : VideoFrame :=
  {| id := "c"; timestamp := 9; imageUrl := "data:image/jpeg;base64,CCCC";
     analysis := Some goodAnalysis; isSelected := true; isProcessing := false;
     enhancedUrl := None; isEnhancing := None; appliedEnhancements := Some [] |}.

(** C6 at a batch with a keeper that has no analysis.  The batch raises
    [isEnhancing] on both keepers; the loop skips the one without an
    analysis by [continue] and never lowers its flag again, so it is still
    true when the batch is over (one request was sent, for the other
    keeper, whose flag is cleared). *)
Theorem skipped_frame_keeps_isEnhancing :
  let (frames, w) :=
    handleBatchEnhance (Some "key") someImage EnhancementType.CINEMATIC
                       [unanalysedKeeper; analysedKeeper] world0 in
  map id frames = ["b"; "c"] /\
  map isEnhancing frames = [Some true; Some false] /\
  map enhancedUrl frames = [None; Some "data:image/png;base64,NEW"] /\
  w = mkWorld 1 [].
Proof. repeat split. Qed.

(* ================================================================== *)
(** * Sampling *)

Lemma Qltb_lt (x y : Q) : Qltb x y = true <-> x < y.
Proof.
  unfold Qltb. rewrite negb_true_iff. split.
  - intros Hb. apply Qnot_le_lt. intros Hle.
    apply Qle_bool_iff in Hle. congruence.
  - intros Hlt. destruct (Qle_bool y x) eqn:Hb; [|reflexivity].
    apply Qle_bool_iff in Hb. exfalso. exact (Qlt_not_le _ _ Hlt Hb).
Qed.

(** ** Facts of binary64 arithmetic

    [Prim2SF] reads a double as its sign, mantissa and exponent; the
    operations of [PrimFloat] are specified on that form ([add_spec],
    [ltb_spec], ...) by the functions of [SpecFloat], which shift, round to
    nearest even and shift again.  What the loop needs of them: adding a
    positive double to a non-negative one does not give less. *)

Section Binary64.

Local Open Scope Z_scope.

Lemma fexp_eq (e : Z) : fexp prec emax e = Z.max (e - 53) (-1074).
Proof. reflexivity. Qed.

Lemma digits2_pos_bounds (m : positive) :
  2 ^ (Zpos (digits2_pos m) - 1) <= Zpos m < 2 ^ Zpos (digits2_pos m).
Proof.
  induction m as [m IH|m IH|]; cbn [digits2_pos].
  - rewrite Pos2Z.inj_succ.
    replace (Z.succ (Zpos (digits2_pos m)) - 1) with (Z.succ (Zpos (digits2_pos m) - 1)) by lia.
    rewrite !Z.pow_succ_r by lia. lia.
  - rewrite Pos2Z.inj_succ.
    replace (Z.succ (Zpos (digits2_pos m)) - 1) with (Z.succ (Zpos (digits2_pos m) - 1)) by lia.
    rewrite !Z.pow_succ_r by lia. lia.
  - cbn. lia.
Qed.

Lemma shl_align_spec (mx : positive) (ex ex' : Z) :
  Zpos (fst (shl_align mx ex ex')) = Zpos mx * 2 ^ (ex - snd (shl_align mx ex ex')) /\
  snd (shl_align mx ex ex') = Z.min ex ex'.
Proof.
  unfold shl_align. destruct (ex' - ex) as [|d|d] eqn:Hd; cbn [fst snd].
  - replace (ex - ex) with 0 by lia. split; lia.
  - replace (ex - ex) with 0 by lia. split; lia.
  - replace (ex - ex') with (Zpos d) by lia. split; [|lia].
    clear Hd. induction d as [|d IH] using Pos.peano_ind.
    + cbn. lia.
    + rewrite Pos.iter_succ, Pos2Z.inj_succ, Z.pow_succ_r by lia.
      rewrite (Pos2Z.inj_xO (Pos.iter xO mx d)), IH. lia.
Qed.

Lemma shr_1_m (mrs : shr_record) :
  0 <= shr_m mrs -> shr_m (shr_1 mrs) = shr_m mrs / 2.
Proof.
  intros Hm. rewrite <- Z.div2_div.
  destruct mrs as [m r s]. cbn [shr_m] in *.
  destruct m as [|[p|p|]|p]; try reflexivity. lia.
Qed.

Lemma iter_pos_shr_1 (p : positive) :
  forall mrs, 0 <= shr_m mrs ->
    shr_m (SpecFloat.iter_pos shr_1 p mrs) = shr_m mrs / 2 ^ Zpos p.
Proof.
  induction p as [p IH|p IH|]; intros mrs Hm; cbn [SpecFloat.iter_pos].
  - assert (H1 : 0 <= shr_m (shr_1 mrs)).
    { rewrite shr_1_m by assumption. apply Z.div_pos; lia. }
    assert (H2 : 0 <= shr_m (SpecFloat.iter_pos shr_1 p (shr_1 mrs))).
    { rewrite IH by assumption. apply Z.div_pos; [assumption|]. apply Z.pow_pos_nonneg; lia. }
    rewrite IH by assumption. rewrite IH by assumption. rewrite shr_1_m by assumption.
    assert (Hp : 0 < 2 ^ Zpos p) by (apply Z.pow_pos_nonneg; lia).
    rewrite !Z.div_div by lia.
    f_equal. replace (Zpos p~1) with (Z.succ (Zpos p + Zpos p)) by lia.
    rewrite Z.pow_succ_r, Z.pow_add_r by lia. lia.
  - assert (H2 : 0 <= shr_m (SpecFloat.iter_pos shr_1 p mrs)).
    { rewrite IH by assumption. apply Z.div_pos; [assumption|]. apply Z.pow_pos_nonneg; lia. }
    rewrite IH by assumption. rewrite IH by assumption.
    assert (Hp : 0 < 2 ^ Zpos p) by (apply Z.pow_pos_nonneg; lia).
    rewrite !Z.div_div by lia.
    f_equal. replace (Zpos p~0) with (Zpos p + Zpos p) by lia.
    rewrite Z.pow_add_r by lia. lia.
  - rewrite shr_1_m by assumption. reflexivity.
Qed.

Lemma shr_fexp_spec (m e : Z) (l : location) :
  0 <= m ->
  shr_m (fst (shr_fexp prec emax m e l))
  = m / 2 ^ Z.max 0 (fexp prec emax (Zdigits2 m + e) - e) /\
  snd (shr_fexp prec emax m e l) = e + Z.max 0 (fexp prec emax (Zdigits2 m + e) - e).
Proof.
  intros Hm. unfold shr_fexp, shr.
  assert (Hl : shr_m (shr_record_of_loc m l) = m) by (destruct l as [|[| |]]; reflexivity).
  destruct (fexp prec emax (Zdigits2 m + e) - e) as [|p|p]; cbn [fst snd].
  - rewrite Hl. cbn. rewrite Z.div_1_r. split; lia.
  - rewrite iter_pos_shr_1 by (rewrite Hl; assumption). rewrite Hl.
    replace (Z.max 0 (Zpos p)) with (Zpos p) by lia. split; reflexivity.
  - rewrite Hl. replace (Z.max 0 (Zneg p)) with 0 by lia. cbn. rewrite Z.div_1_r. split; lia.
Qed.

Lemma round_nearest_even_cases (m : Z) (l : location) :
  round_nearest_even m l = m \/ round_nearest_even m l = m + 1.
Proof.
  destruct l as [|[| |]]; cbn; auto. destruct (Z.even m); auto.
Qed.

(** The stages of [binary_round_aux]: shift, round, shift again. *)
Lemma binary_round_aux_stages (sx : bool) (mx ex : Z) (lx : location) :
  0 <= mx ->
  exists m1 e1 m2 m3 e3,
    m1 = mx / 2 ^ Z.max 0 (fexp prec emax (Zdigits2 mx + ex) - ex) /\
    e1 = ex + Z.max 0 (fexp prec emax (Zdigits2 mx + ex) - ex) /\
    (m2 = m1 \/ m2 = m1 + 1) /\
    m3 = m2 / 2 ^ Z.max 0 (fexp prec emax (Zdigits2 m2 + e1) - e1) /\
    e3 = e1 + Z.max 0 (fexp prec emax (Zdigits2 m2 + e1) - e1) /\
    binary_round_aux prec emax sx mx ex lx
    = match m3 with
      | Z0 => S754_zero sx
      | Zpos m => if e3 <=? emax - prec then S754_finite sx m e3 else S754_infinity sx
      | Zneg _ => S754_nan
      end.
Proof.
  intros Hm. unfold binary_round_aux.
  destruct (shr_fexp_spec mx ex lx Hm) as [Hm1 He1].
  destruct (shr_fexp prec emax mx ex lx) as [mrs' e'] eqn:H1. cbn [fst snd] in Hm1, He1.
  set (m2 := round_nearest_even (shr_m mrs') (loc_of_shr_record mrs')).
  assert (Hm1' : 0 <= shr_m mrs').
  { rewrite Hm1. apply Z.div_pos; [assumption|]. apply Z.pow_pos_nonneg; lia. }
  assert (Hm2 : 0 <= m2).
  { destruct (round_nearest_even_cases (shr_m mrs') (loc_of_shr_record mrs')) as [H|H];
      fold m2 in H; lia. }
  destruct (shr_fexp_spec m2 e' loc_Exact Hm2) as [Hm3 He3].
  destruct (shr_fexp prec emax m2 e' loc_Exact) as [mrs'' e''] eqn:H2. cbn [fst snd] in Hm3, He3.
  exists (shr_m mrs'), e', m2, (shr_m mrs''), e''.
  repeat split; try assumption.
  apply round_nearest_even_cases.
Qed.

Definition nonneg (x : spec_float) : Prop :=
  match x with
  | S754_zero _ | S754_finite false _ _ | S754_infinity false => True
  | _ => False
  end.

Definition positive_sf (x : spec_float) : Prop :=
  match x with
  | S754_finite false _ _ | S754_infinity false => True
  | _ => False
  end.

Lemma binary_round_aux_nonneg (mx ex : Z) (lx : location) :
  0 <= mx -> nonneg (binary_round_aux prec emax false mx ex lx).
Proof.
  intros Hm.
  destruct (binary_round_aux_stages false mx ex lx Hm)
    as [m1 [e1 [m2 [m3 [e3 [Hm1 [He1 [Hm2 [Hm3 [He3 ->]]]]]]]]]].
  assert (0 <= m1).
  { rewrite Hm1. apply Z.div_pos; [assumption|]. apply Z.pow_pos_nonneg; lia. }
  assert (0 <= m3).
  { rewrite Hm3. apply Z.div_pos; [lia|]. apply Z.pow_pos_nonneg; lia. }
  destruct m3 as [|p|p]; [exact I| |lia].
  destruct (e3 <=? emax - prec); exact I.
Qed.


Lemma bounded_canonical (m : positive) (e : Z) :
  bounded prec emax m e = true ->
  e = Z.max (Zpos (digits2_pos m) + e - 53) (-1074).
Proof.
  unfold bounded, canonical_mantissa. intros H. apply andb_prop in H as [H _].
  apply Z.eqb_eq in H. rewrite fexp_eq in H. lia.
Qed.

Lemma pow2_pos (k : Z) : 0 <= k -> 0 < 2 ^ k.
Proof. intros Hk. apply Z.pow_pos_nonneg; lia. Qed.

(** A shift that leaves a digit gives a positive quotient. *)
Lemma shifted_positive (m : positive) (k : Z) :
  0 <= k <= Zpos (digits2_pos m) - 1 -> 0 < Zpos m / 2 ^ k.
Proof.
  intros Hk. pose proof (digits2_pos_bounds m) as [Hlo _].
  apply Z.div_str_pos. split; [now apply pow2_pos|].
  apply Z.le_trans with (m := 2 ^ (Zpos (digits2_pos m) - 1)); [|assumption].
  apply Z.pow_le_mono_r; lia.
Qed.

(** The sum of two positive doubles is not below the first: rounding to
    nearest does not go below a double that the exact sum exceeds. *)
Lemma SFadd_finite_lower (mx : positive) (ex : Z) (my : positive) (ey : Z) :
  bounded prec emax mx ex = true -> bounded prec emax my ey = true ->
  SFadd prec emax (S754_finite false mx ex) (S754_finite false my ey) = S754_infinity false \/
  exists m3 e3,
    SFadd prec emax (S754_finite false mx ex) (S754_finite false my ey)
    = S754_finite false m3 e3 /\
    (ex < e3 \/ (e3 = ex /\ Zpos mx <= Zpos m3)).
Proof.
  intros Hx Hy. apply bounded_canonical in Hx, Hy.
  cbn [SFadd cond_Zopp].
  set (ez := Z.min ex ey).
  destruct (shl_align_spec mx ex ez) as [Hax Hex].
  destruct (shl_align_spec my ey ez) as [Hay Hey].
  rewrite Hex in Hax. rewrite Hey in Hay.
  replace (Z.min ex ez) with ez in Hax by lia.
  replace (Z.min ey ez) with ez in Hay by lia.
  set (ax := fst (shl_align mx ex ez)) in *.
  set (ay := fst (shl_align my ey ez)) in *.
  change (Zpos ax + Zpos ay) with (Zpos (ax + ay)).
  cbn [binary_normalize]. unfold binary_round.
  set (m := (ax + ay)%positive).
  assert (Hm : Zpos mx * 2 ^ (ex - ez) < Zpos m).
  { unfold m. rewrite Pos2Z.inj_add. lia. }
  clearbody m. clear Hay ay Hey. clear Hex.
  destruct (shl_align_spec m ez (fexp prec emax (Zpos (digits2_pos m) + ez))) as [Hmz Hez'].
  destruct (shl_align m ez (fexp prec emax (Zpos (digits2_pos m) + ez))) as [mz ez'].
  cbn [fst snd] in Hmz, Hez'. rewrite fexp_eq in Hez'.
  assert (Hez : -1074 <= ez') by lia.
  assert (Hle : ez' <= ex) by lia.
  (* the sum, in units of 2^ez', exceeds the first operand *)
  assert (Hgt : Zpos mx * 2 ^ (ex - ez') < Zpos mz).
  { rewrite Hmz. replace (ex - ez') with ((ex - ez) + (ez - ez')) by lia.
    rewrite Z.pow_add_r by lia.
    pose proof (pow2_pos (ez - ez') ltac:(lia)). nia. }
  clear Hmz Hm Hax ax Hez' m.
  destruct (binary_round_aux_stages false (Zpos mz) ez' loc_Exact ltac:(lia))
    as [m1 [e1 [m2 [m3 [e3 [Hm1 [He1 [Hm2 [Hm3 [He3 ->]]]]]]]]]].
  cbn [Zdigits2] in Hm1, He1. rewrite fexp_eq in Hm1, He1.
  pose proof (digits2_pos_bounds mz) as [Hzlo Hzhi].
  pose proof (digits2_pos_bounds mx) as [Hxlo Hxhi].
  set (d := Zpos (digits2_pos mz)) in *.
  set (dx := Zpos (digits2_pos mx)) in *.
  assert (Hd : 1 <= d) by (unfold d; lia).
  assert (Hdx : 1 <= dx) by (unfold dx; lia).
  (* the sum has at least as many digits *)
  assert (HD : dx + ex <= d + ez').
  { assert (H : 2 ^ (dx - 1 + (ex - ez')) < 2 ^ d).
    { rewrite Z.pow_add_r by lia.
      pose proof (pow2_pos (ex - ez') ltac:(lia)). nia. }
    apply Z.pow_lt_mono_r_iff in H; lia. }
  set (k1 := Z.max 0 (Z.max (d + ez' - 53) (-1074) - ez')) in *.
  assert (He1x : ex <= e1) by lia.
  assert (Hm1pos : 0 < m1).
  { rewrite Hm1. apply shifted_positive. fold d. lia. }
  assert (Hm1x : e1 = ex -> Zpos mx <= m1).
  { intros Heq. rewrite Hm1. replace k1 with (ex - ez') by lia.
    pose proof (pow2_pos (ex - ez') ltac:(lia)) as Hp.
    apply Z.div_le_lower_bound; [assumption|]. lia. }
  assert (He1min : -1074 <= e1) by lia.
  assert (Hm2pos : 0 < m2) by lia.
  destruct m2 as [|m2|m2]; [lia| |lia].
  cbn [Zdigits2] in Hm3, He3. rewrite fexp_eq in Hm3, He3.
  set (d2 := Zpos (digits2_pos m2)) in *.
  assert (Hd2 : 1 <= d2) by (unfold d2; lia).
  set (k2 := Z.max 0 (Z.max (d2 + e1 - 53) (-1074) - e1)) in *.
  assert (Hm3pos : 0 < m3).
  { rewrite Hm3. apply shifted_positive. fold d2. lia. }
  destruct m3 as [|m3|m3]; [lia| |lia].
  destruct (e3 <=? emax - prec); [right|left; reflexivity].
  exists m3, e3. split; [reflexivity|].
  destruct (Z.eq_dec e3 ex) as [Heq|Hne]; [right|left; lia].
  split; [assumption|].
  assert (Hk2 : k2 = 0) by lia.
  rewrite Hk2 in Hm3. cbn in Hm3. rewrite Z.div_1_r in Hm3.
  assert (e1 = ex) by lia. specialize (Hm1x H). lia.
Qed.


Lemma SFleb_refl (x : spec_float) : nonneg x -> SFleb x x = true.
Proof.
  destruct x as [s|[|]| |[|] m e]; cbn; try easy.
  intros _. unfold SFleb, SFcompare. rewrite Z.compare_refl.
  change (PosDef.Pos.compare_cont Eq m m) with (Pos.compare m m).
  now rewrite Pos.compare_refl.
Qed.

Lemma SFleb_finite (m1 : positive) (e1 : Z) (m2 : positive) (e2 : Z) :
  SFleb (S754_finite false m1 e1) (S754_finite false m2 e2) = true
  <-> e1 < e2 \/ (e1 = e2 /\ Zpos m1 <= Zpos m2).
Proof.
  unfold SFleb, SFcompare.
  change (PosDef.Pos.compare_cont Eq m1 m2) with (Pos.compare m1 m2).
  destruct (Z.compare_spec e1 e2) as [He|He|He].
  - destruct (Pos.compare_spec m1 m2) as [Hm|Hm|Hm]; split; intros H;
      try reflexivity; try discriminate; lia.
  - split; intros H; [lia|reflexivity].
  - split; intros H; [discriminate|lia].
Qed.

Lemma SFleb_trans (x y z : spec_float) :
  nonneg x -> nonneg y -> nonneg z ->
  SFleb x y = true -> SFleb y z = true -> SFleb x z = true.
Proof.
  destruct x as [sx|[|]| |[|] mx ex]; cbn [nonneg]; try easy;
    destruct y as [sy|[|]| |[|] my ey]; cbn [nonneg]; try easy;
      destruct z as [sz|[|]| |[|] mz ez]; cbn [nonneg]; try easy.
  intros _ _ _. rewrite !SFleb_finite. lia.
Qed.

Lemma SFadd_lower (x y : spec_float) :
  valid_binary x = true -> valid_binary y = true ->
  nonneg x -> positive_sf y ->
  positive_sf (SFadd prec emax x y) /\ SFleb x (SFadd prec emax x y) = true.
Proof.
  intros Vx Vy Hx Hy.
  destruct y as [sy|[|]| |[|] my ey]; try (now elim Hy);
    destruct x as [sx|[|]| |[|] mx ex]; try (now elim Hx);
      try (split; [exact I|reflexivity]).
  cbn [valid_binary] in Vx, Vy.
  destruct (SFadd_finite_lower mx ex my ey Vx Vy) as [->|[m3 [e3 [-> Hle]]]].
  - split; [exact I|reflexivity].
  - split; [exact I|]. apply SFleb_finite. lia.
Qed.

Lemma SFmul_nonneg (x : spec_float) (my : positive) (ey : Z) :
  nonneg x -> nonneg (SFmul prec emax x (S754_finite false my ey)).
Proof.
  destruct x as [sx|[|]| |[|] mx ex]; cbn [nonneg SFmul xorb]; try easy.
  intros _. apply binary_round_aux_nonneg. lia.
Qed.

Lemma SFdiv_core_nonneg (mx : positive) (ex : Z) (my : positive) (ey : Z) :
  0 <= fst (fst (SFdiv_core_binary prec emax (Zpos mx) ex (Zpos my) ey)).
Proof.
  unfold SFdiv_core_binary. cbv zeta.
  match goal with
  | |- context [IntDef.Z.div_eucl ?a ?b] =>
      assert (Ha : 0 <= a);
      [| pose proof (Z.div_pos a b Ha ltac:(lia)) as Hq; unfold Z.div in Hq;
         destruct (IntDef.Z.div_eucl a b) as [q r]; exact Hq ]
  end.
  match goal with
  | |- 0 <= match ?k with _ => _ end => destruct k; try lia
  end.
  apply Z.shiftl_nonneg. lia.
Qed.

Lemma SFdiv_nonneg (x : spec_float) (my : positive) (ey : Z) :
  nonneg x -> nonneg (SFdiv prec emax x (S754_finite false my ey)).
Proof.
  destruct x as [sx|[|]| |[|] mx ex]; cbn [nonneg SFdiv xorb]; try easy.
  intros _. pose proof (SFdiv_core_nonneg mx ex my ey) as Hq.
  destruct (SFdiv_core_binary prec emax (Zpos mx) ex (Zpos my) ey) as [[mz ez] lz].
  cbn [fst] in Hq. apply binary_round_aux_nonneg. assumption.
Qed.

End Binary64.

(** ** The same facts on [float] *)

Lemma Prim2SF_zero : Prim2SF 0 = S754_zero false.
Proof. reflexivity. Qed.

Lemma Prim2SF_one : Prim2SF 1 = S754_finite false 4503599627370496 (-52).
Proof. reflexivity. Qed.

Lemma positive_nonneg (x : spec_float) : positive_sf x -> nonneg x.
Proof. destruct x as [s|[|]| |[|] m e]; easy. Qed.

Lemma leb_zero_nonneg (x : float) : (0 <=? x)%float = true -> nonneg (Prim2SF x).
Proof.
  rewrite leb_spec, Prim2SF_zero.
  destruct (Prim2SF x) as [s|[|]| |[|] m e]; cbn; easy.
Qed.

Lemma add_lower (x y : float) :
  nonneg (Prim2SF x) -> positive_sf (Prim2SF y) ->
  positive_sf (Prim2SF (x + y)) /\ (x <=? x + y)%float = true.
Proof.
  intros Hx Hy. rewrite leb_spec, add_spec.
  apply SFadd_lower; try assumption; apply Prim2SF_valid.
Qed.

Lemma add_nan (x y : float) : Prim2SF y = S754_nan -> Prim2SF (x + y) = S754_nan.
Proof.
  intros Hy. rewrite add_spec, Hy. unfold SF64add.
  destruct (Prim2SF x) as [s|s| |s m e]; reflexivity.
Qed.

Lemma ltb_nan (x y : float) : Prim2SF x = S754_nan -> (x <? y)%float = false.
Proof. intros Hx. rewrite ltb_spec, Hx. reflexivity. Qed.

(** [y <= x] excludes [x < y]. *)
Lemma leb_ltb_false (x y : float) : (y <=? x)%float = true -> (x <? y)%float = false.
Proof.
  rewrite leb_spec, ltb_spec. unfold SFleb, SFltb.
  destruct (Prim2SF x) as [sx|sx| |sx mx ex], (Prim2SF y) as [sy|sy| |sy my ey];
    cbn [SFcompare];
    repeat match goal with s : bool |- _ => destruct s end;
    try easy.
  - change (PosDef.Pos.compare_cont Eq my mx) with (Pos.compare my mx).
    change (PosDef.Pos.compare_cont Eq mx my) with (Pos.compare mx my).
    rewrite (Z.compare_antisym ex ey), (Pos.compare_antisym mx my).
    destruct (ex ?= ey)%Z, (mx ?= my)%positive; easy.
  - change (PosDef.Pos.compare_cont Eq my mx) with (Pos.compare my mx).
    change (PosDef.Pos.compare_cont Eq mx my) with (Pos.compare mx my).
    rewrite (Z.compare_antisym ex ey), (Pos.compare_antisym mx my).
    destruct (ex ?= ey)%Z, (mx ?= my)%positive; easy.
Qed.

(** A non-negative double below another is a finite number. *)
Lemma below_is_finite (x y : float) :
  nonneg (Prim2SF x) -> (x <? y)%float = true -> isFiniteNumber x = true.
Proof.
  unfold isFiniteNumber. rewrite classify_spec, ltb_spec.
  unfold SF64classify, SFclassify, SFltb.
  destruct (Prim2SF x) as [s|[|]| |[|] m e]; cbn [nonneg]; try easy.
  - destruct s; reflexivity.
  - destruct (Prim2SF y) as [sy|[|]| |sy my ey]; easy.
  - intros _ _. destruct (Z.pos (digits2_pos m) =? prec)%Z; reflexivity.
Qed.

Lemma Prim2SF_is_nan (x : float) : is_nan x = true -> Prim2SF x = S754_nan.
Proof. intros Hx. unfold Prim2SF. now rewrite Hx. Qed.

(** [Math.max(1, x)] by cases: NaN for NaN, [x] above 1, and 1 otherwise. *)
Lemma Math_max_1_cases (x : float) :
  (is_nan x = true -> is_nan (Math_max 1 x) = true) /\
  ((1 <? x)%float = true -> Math_max 1 x = x) /\
  ((x <=? 1)%float = true -> Math_max 1 x = 1%float).
Proof.
  unfold Math_max. change (is_nan 1) with false. cbn [orb].
  change (get_sign 1) with false.
  destruct (is_nan x) eqn:Hn.
  - apply Prim2SF_is_nan in Hn.
    split; [|split]; intros H.
    + reflexivity.
    + rewrite ltb_spec, Hn in H. destruct (Prim2SF 1); discriminate H.
    + rewrite leb_spec, Hn in H. destruct (Prim2SF 1); discriminate H.
  - split; [|split]; intros H.
    + discriminate H.
    + now rewrite H.
    + rewrite (leb_ltb_false 1 x H). destruct (x <? 1)%float; reflexivity.
Qed.

(** The windows of the seven ranges. *)
Lemma scanWindow_spec (r : ScanRange) (duration : float) :
  scanWindow r duration
  = match r with
    | full => (0, duration)
    | first_half => (0, duration / 2)
    | second_half => (duration / 2, duration)
    | q1 => (0, duration * 0.25)
    | q2 => (duration * 0.25, duration * 0.5)
    | q3 => (duration * 0.5, duration * 0.75)
    | q4 => (duration * 0.75, duration)
    end%float.
Proof. destruct r; reflexivity. Qed.

(** [Math.max(1, x)] is NaN or a positive double. *)
Lemma Math_max_1 (x : float) :
  Prim2SF (Math_max 1 x) = S754_nan \/ positive_sf (Prim2SF (Math_max 1 x)).
Proof.
  unfold Math_max. change (is_nan 1) with false. cbn [orb].
  destruct (is_nan x); [left; reflexivity|right].
  destruct (1 <? x)%float eqn:Hlt.
  - rewrite ltb_spec, Prim2SF_one in Hlt. unfold SFltb in Hlt.
    destruct (Prim2SF x) as [s|[|]| |[|] m e]; try exact I; discriminate Hlt.
  - change (get_sign 1) with false.
    destruct (x <? 1)%float; rewrite Prim2SF_one; exact I.
Qed.

(** A video duration that is not negative gives a window that does not
    start below 0. *)
Lemma scanWindow_start_nonneg (r : ScanRange) (duration : float) :
  (0 <=? duration)%float = true -> nonneg (Prim2SF (fst (scanWindow r duration))).
Proof.
  intros Hd. apply leb_zero_nonneg in Hd.
  destruct r; cbn [scanWindow fst]; try (rewrite Prim2SF_zero; exact I).
  - rewrite div_spec. now apply SFdiv_nonneg.
  - rewrite mul_spec. now apply SFmul_nonneg.
  - rewrite mul_spec. now apply SFmul_nonneg.
  - rewrite mul_spec. now apply SFmul_nonneg.
Qed.

(** ** The loop *)

(** The value of [currentTime] when the loop test is made for the
    [k]-th time after the first: [startTime] with [interval] added [k]
    times, each addition rounded. *)
Fixpoint timeOfPass (startTime interval : float) (k : nat) : float :=
  match k with
  | O => startTime
  | S k' => (timeOfPass startTime interval k' + interval)%float
  end.

Lemma timeOfPass_shift (t step : float) (k : nat) :
  timeOfPass (t + step) step k = timeOfPass t step (S k).
Proof. induction k as [|k IH]; cbn [timeOfPass]; [reflexivity|]. now rewrite IH. Qed.

Lemma timeOfPass_lower (startTime step : float) :
  nonneg (Prim2SF startTime) -> positive_sf (Prim2SF step) ->
  forall k, nonneg (Prim2SF (timeOfPass startTime step k)) /\
            (startTime <=? timeOfPass startTime step k)%float = true.
Proof.
  intros Hs Hstep. induction k as [|k [IHn IHl]]; cbn [timeOfPass].
  - split; [assumption|]. rewrite leb_spec. now apply SFleb_refl.
  - destruct (add_lower (timeOfPass startTime step k) step IHn Hstep) as [Hpos Hle].
    split; [now apply positive_nonneg|].
    rewrite leb_spec in *.
    apply SFleb_trans with (y := Prim2SF (timeOfPass startTime step k));
      try assumption. now apply positive_nonneg.
Qed.

Lemma timeOfPass_nan (startTime step : float) (k : nat) :
  Prim2SF step = S754_nan -> Prim2SF (timeOfPass startTime step (S k)) = S754_nan.
Proof. intros Hstep. cbn [timeOfPass]. now apply add_nan. Qed.

Section ExtractionFacts.

Variable randomUUID : nat -> string.
Variable toDataURL : Q -> string.
Variables endTime step : float.

Let scan (fuel count : nat) (t : float) : list VideoFrame :=
  scanLoop randomUUID toDataURL fuel count t endTime step.

Lemma scan_nil (count : nat) (t : float) : scan 0 count t = [].
Proof. reflexivity. Qed.

Lemma scan_step (fuel count : nat) (t : float) :
  scan (S fuel) count t
  = if (t <? endTime)%float && (count <? maxFrames)%nat
    then newFrame randomUUID toDataURL count t :: scan fuel (S count) (t + step)%float
    else [].
Proof. reflexivity. Qed.

(** The fuel [maxFrames - count] is enough: with more the loop makes the
    same frames, so it always ends by its own test. *)
Lemma scanLoop_fuel (fuel : nat) :
  forall (count : nat) (t : float),
    (maxFrames - count <= fuel)%nat ->
    scanLoop randomUUID toDataURL fuel count t endTime step
    = scanLoop randomUUID toDataURL (maxFrames - count) count t endTime step.
Proof.
  induction fuel as [|fuel IH]; intros count t Hfuel.
  - replace (maxFrames - count)%nat with 0%nat by lia. reflexivity.
  - destruct (Nat.ltb_spec count maxFrames) as [Hlt|Hge].
    + replace (maxFrames - count)%nat with (S (maxFrames - S count)) by lia.
      cbn [scanLoop].
      destruct ((t <? endTime)%float && (count <? maxFrames)%nat); [|reflexivity].
      f_equal. apply IH. lia.
    + replace (maxFrames - count)%nat with 0%nat by lia.
      cbn [scanLoop].
      replace (count <? maxFrames)%nat with false
        by (symmetry; apply Nat.ltb_ge; exact Hge).
      rewrite andb_false_r. reflexivity.
Qed.

Lemma scan_length (fuel : nat) :
  forall (count : nat) (t : float),
    (List.length (scan fuel count t) <= maxFrames - count)%nat.
Proof.
  induction fuel as [|fuel IH]; intros count t.
  - rewrite scan_nil. cbn. lia.
  - rewrite scan_step.
    destruct (t <? endTime)%float; cbn [andb List.length]; [|lia].
    destruct (Nat.ltb_spec count maxFrames) as [Hlt|Hge]; cbn [List.length]; [|lia].
    specialize (IH (S count) (t + step)%float). lia.
Qed.

(** The [k]-th frame is stamped with the value of the [k]-th time. *)
Lemma scan_timestamps (fuel : nat) :
  forall (count : nat) (t : float),
    map timestamp (scan fuel count t)
    = map (fun k => numberValue (timeOfPass t step k))
          (seq 0 (List.length (scan fuel count t))).
Proof.
  induction fuel as [|fuel IH]; intros count t.
  - reflexivity.
  - rewrite scan_step.
    destruct ((t <? endTime)%float && (count <? maxFrames)%nat); [|reflexivity].
    cbn [map List.length seq timeOfPass newFrame timestamp]. f_equal.
    rewrite IH, <- seq_shift, map_map.
    apply map_ext. intros k. now rewrite timeOfPass_shift.
Qed.

(** Every frame is made at a time below [endTime]. *)
Lemma scan_below (fuel : nat) :
  forall (count : nat) (t : float) (k : nat),
    (k < List.length (scan fuel count t))%nat ->
    (timeOfPass t step k <? endTime)%float = true.
Proof.
  induction fuel as [|fuel IH]; intros count t k Hk.
  - rewrite scan_nil in Hk. cbn in Hk. lia.
  - rewrite scan_step in Hk.
    destruct (t <? endTime)%float eqn:Hlt; cbn [andb] in Hk; [|cbn in Hk; lia].
    destruct (count <? maxFrames)%nat; [|cbn in Hk; lia].
    cbn [List.length] in Hk. destruct k as [|k]; [exact Hlt|].
    rewrite <- timeOfPass_shift. apply (IH (S count)). lia.
Qed.

(** A loop that stops before the cap stops on its time test. *)
Lemma scan_stops (fuel : nat) :
  forall (count : nat) (t : float),
    (List.length (scan fuel count t) < fuel)%nat ->
    (count + List.length (scan fuel count t) < maxFrames)%nat ->
    (timeOfPass t step (List.length (scan fuel count t)) <? endTime)%float = false.
Proof.
  induction fuel as [|fuel IH]; intros count t Hfuel Hcap.
  - cbn in Hfuel. lia.
  - rewrite scan_step in *.
    destruct (t <? endTime)%float eqn:Hlt; cbn [andb] in *; [|exact Hlt].
    destruct (Nat.ltb_spec count maxFrames) as [Hc|Hc].
    + cbn [List.length] in *. rewrite <- timeOfPass_shift. apply (IH (S count)); lia.
    + cbn [List.length] in Hcap. lia.
Qed.

Lemma scan_empty_window (fuel count : nat) (t : float) :
  (t <? endTime)%float = false -> scan fuel count t = [].
Proof.
  intros Hlt. destruct fuel as [|fuel]; [reflexivity|].
  rewrite scan_step, Hlt. reflexivity.
Qed.

End ExtractionFacts.

(** C7 (as amended).  For every scan setting (any range, any interval) and
    any video duration, write [startTime] and [endTime] for the window the
    range resolves to, [step] for [Math.max(1, interval)], which is the
    interval when that is above 1 and 1 when it is not, and [n] for the
    number of frames made.  The timestamps of the frames, in order, are the
    values of the doubles [t_0 = startTime], [t_(k+1) = t_k + step], the
    sum being rounded to the nearest double, so that two consecutive
    timestamps differ by [step] up to that rounding.  Every [t_k] is below
    [endTime]; when the duration is not negative it is a finite number not
    below [startTime].  At most [maxFrames] = 50 frames are made (at most
    one when the interval is not a number), and none unless
    [startTime < endTime], in particular none when [endTime <= startTime]. *)
Theorem sampled_timestamps_spec :
  forall (randomUUID : nat -> string) (toDataURL : Q -> string)
         (scanSettings : ScanSettings) (duration : float),
    let startTime := fst (scanWindow (range scanSettings) duration) in
    let endTime := snd (scanWindow (range scanSettings) duration) in
    let step := Math_max 1 (interval scanSettings) in
    let made := startExtraction randomUUID toDataURL scanSettings duration in
    let n := List.length made in
    ((1 <? interval scanSettings)%float = true -> step = interval scanSettings) /\
    ((interval scanSettings <=? 1)%float = true -> step = 1%float) /\
    (is_nan (interval scanSettings) = true -> is_nan step = true /\ (n <= 1)%nat) /\
    map timestamp made
    = map (fun k => numberValue (timeOfPass startTime step k)) (seq 0 n) /\
    (forall k, (k < n)%nat -> (timeOfPass startTime step k <? endTime)%float = true) /\
    ((0 <=? duration)%float = true ->
     forall k, (k < n)%nat ->
       (startTime <=? timeOfPass startTime step k)%float = true /\
       isFiniteNumber (timeOfPass startTime step k) = true) /\
    (n <= maxFrames)%nat /\ maxFrames = 50%nat /\
    ((startTime <? endTime)%float = false -> made = []) /\
    ((endTime <=? startTime)%float = true -> made = []).
Proof.
  intros randomUUID toDataURL scanSettings duration startTime endTime step made n.
  assert (Hmade : made = scanLoop randomUUID toDataURL maxFrames 0 startTime endTime step).
  { unfold made, startExtraction, startTime, endTime, step.
    destruct (scanWindow (range scanSettings) duration) as [s e]. reflexivity. }
  assert (Hbelow : forall k, (k < n)%nat ->
                             (timeOfPass startTime step k <? endTime)%float = true).
  { intros k Hk. unfold n in Hk. rewrite Hmade in Hk.
    exact (scan_below randomUUID toDataURL endTime step maxFrames 0 startTime k Hk). }
  destruct (Math_max_1_cases (interval scanSettings)) as [Hcase_nan [Hcase_gt Hcase_le]].
  fold step in Hcase_nan, Hcase_gt, Hcase_le.
  split; [exact Hcase_gt|]. split; [exact Hcase_le|]. split.
  { intros Hi. specialize (Hcase_nan Hi). split; [exact Hcase_nan|].
    destruct (Nat.le_gt_cases n 1) as [Hn|Hn]; [exact Hn|exfalso].
    specialize (Hbelow 1%nat Hn).
    rewrite (ltb_nan _ _ (timeOfPass_nan startTime step 0 (Prim2SF_is_nan _ Hcase_nan)))
      in Hbelow.
    discriminate Hbelow. }
  clear Hcase_nan Hcase_gt Hcase_le.
  split; [|split; [exact Hbelow|split; [|split; [|split; [reflexivity|split]]]]].
  - unfold n. rewrite Hmade. apply scan_timestamps.
  - intros Hd k Hk.
    pose proof (scanWindow_start_nonneg (range scanSettings) duration Hd) as Hs.
    fold startTime in Hs.
    assert (Hk' : nonneg (Prim2SF (timeOfPass startTime step k)) /\
                  (startTime <=? timeOfPass startTime step k)%float = true).
    { destruct (Math_max_1 (interval scanSettings)) as [Hnan|Hpos];
        fold step in Hnan || fold step in Hpos.
      - destruct k as [|k].
        + split; [exact Hs|]. rewrite leb_spec. now apply SFleb_refl.
        + specialize (Hbelow (S k) Hk).
          rewrite (ltb_nan _ _ (timeOfPass_nan startTime step k Hnan)) in Hbelow.
          discriminate.
      - now apply timeOfPass_lower. }
    destruct Hk' as [Hn Hl]. split; [exact Hl|].
    exact (below_is_finite _ endTime Hn (Hbelow k Hk)).
  - unfold n. rewrite Hmade.
    pose proof (scan_length randomUUID toDataURL endTime step maxFrames 0 startTime). lia.
  - intros Hlt. rewrite Hmade. now apply scan_empty_window.
  - intros Hle. rewrite Hmade. apply scan_empty_window. now apply leb_ltb_false.
Qed.

Set Warnings "-inexact-float".

(** C7 as stated fails on the spacing: a decimal literal is read as the
    nearest double, and so is every sum.  For a video of 10.03 s scanned
    over its second half every 3 s, [Math.max(1, interval)] is 3 and two
    frames are made, at the doubles nearest to 5.015 and to 8.015; the two
    timestamps differ by 3 + 2^-50, not by 3. *)
Lemma sampled_spacing_is_rounded :
  map timestamp (startExtraction (fun _ => "uuid") (fun _ => "jpeg")
                                 (mkScan second_half 3) 10.03)
  = [5646388032815759 # 1125899906842624; 564005484583977 # 70368744177664] /\
  numberValue (Math_max 1 3) = 3 /\
  (564005484583977 # 70368744177664) - (5646388032815759 # 1125899906842624)
  == 3 + (1 # 1125899906842624) /\
  ~ (564005484583977 # 70368744177664) - (5646388032815759 # 1125899906842624) == 3.
Proof.
  split; [vm_compute; reflexivity|].
  split; [vm_compute; reflexivity|].
  split; [vm_compute; reflexivity|].
  intros H. vm_compute in H. discriminate H.
Qed.

(** The scenario of the specification: a 10 s video sampled every 5 s over
    the full range gives two frames, at 0 s and 5 s. *)
Example sample_10s_every_5s :
  map timestamp (startExtraction (fun _ => "uuid") (fun _ => "jpeg") (mkScan full 5) 10)
  = [0; 5].
Proof. vm_compute. reflexivity. Qed.

(** A long video is cut off at 50 frames. *)
Example sample_is_capped :
  List.length (startExtraction (fun _ => "uuid") (fun _ => "jpeg") (mkScan full 1) 1000)
  = 50%nat.
Proof. vm_compute. reflexivity. Qed.

(** An interval below one second is raised to one second. *)
Example sample_interval_floor :
  map timestamp (startExtraction (fun _ => "uuid") (fun _ => "jpeg") (mkScan q1 0.5) 8)
  = [0; 1].
Proof. vm_compute. reflexivity. Qed.

(** An interval that is not a number stops the scan after its first frame. *)
Example sample_interval_nan :
  map timestamp (startExtraction (fun _ => "uuid") (fun _ => "jpeg") (mkScan full nan) 8)
  = [0].
Proof. vm_compute. reflexivity. Qed.

(** A sum that rounds up to [endTime] ends the scan although the exact sum
    is below it: the last quarter of a video of 4.000000000000002 s starts
    at 3.0000000000000013, and one second later the clock reads
    4.000000000000002. *)
Example sample_stops_at_rounded_end :
  map timestamp (startExtraction (fun _ => "uuid") (fun _ => "jpeg")
                                 (mkScan q4 1) 4.000000000000002)
  = [6755399441055747 # 2251799813685248] /\
  (timeOfPass (4.000000000000002 * 0.75) 1 1 <? 4.000000000000002)%float = false /\
  (6755399441055747 # 2251799813685248) + 1 < numberValue 4.000000000000002.
Proof. repeat split; vm_compute; reflexivity. Qed.

(* ================================================================== *)
(** * Export *)

(** [entry[key]] on an object, [None] when it has no such member. *)
Fixpoint property (key : string) (entry : list (string * JsValue)) : option JsValue :=
  match entry with
  | [] => None
  | (k, v) :: rest => if String.eqb k key then Some v else property key rest
  end.

(** The keys of the object literal of a manifest entry, as the code names
    them. *)
Definition manifestKeys : list string :=
  ["id"; "timestamp"; "quality"; "score"; "tags"; "advice"; "people"; "shotType";
   "isEnhanced"].

Lemma manifestEntry_keys (f : VideoFrame) : map fst (manifestEntry f) = manifestKeys.
Proof. reflexivity. Qed.

(** The keys that reach [manifest.json]. *)
Lemma written_keys (f : VideoFrame) :
  map fst (JSON_stringify (manifestEntry f))
  = match analysis f with
    | Some a =>
        (["id"; "timestamp"]
         ++ match quality a with Some _ => ["quality"] | None => [] end
         ++ ["score"; "tags"; "advice"; "people"]
         ++ match shotType a with Some _ => ["shotType"] | None => [] end
         ++ ["isEnhanced"])%list
    | None => ["id"; "timestamp"; "isEnhanced"]
    end.
Proof.
  unfold manifestEntry.
  destruct (analysis f) as [a|]; [|reflexivity].
  cbn [optChain]. destruct (quality a), (shotType a); reflexivity.
Qed.

Lemma keepers_spec (frames : list VideoFrame) (f : VideoFrame) :
  In f (filter isSelected frames) <-> In f frames /\ isSelected f = true.
Proof. apply filter_In. Qed.

(** C8 (as amended).  Exporting a frame collection writes one manifest
    entry and one image file per keeper (frame with [isSelected = true]), in
    store order.  The entry always has the keys [id], [timestamp] and
    [isEnhanced]; for a keeper with an analysis it has in addition [score],
    which holds the composition score, [advice], which holds the technical
    advice, [tags] and [people], and [quality] and [shotType] when the
    analysis has them; for a keeper without analysis it has no other key,
    the undefined values being left out of the JSON text.  [isEnhanced]
    tells whether an enhanced image is present.  The image file is named
    [frame_<timestamp with two decimals>s_<quality or "ungraded">.png] and
    holds the enhanced image when present and the original otherwise, with
    the data-URL header removed. *)
Theorem export_bundle_spec :
  forall (frames : list VideoFrame),
    let keepers := filter isSelected frames in
    let bundle := exportProjectToZip frames in
    (forall f, In f keepers <-> In f frames /\ isSelected f = true) /\
    List.length (manifest bundle) = List.length keepers /\
    List.length (imageFiles bundle) = List.length keepers /\
    forall (k : nat) (f : VideoFrame),
      nth_error keepers k = Some f ->
      exists entry name data,
        nth_error (manifest bundle) k = Some entry /\
        nth_error (imageFiles bundle) k = Some (name, data) /\
        map fst entry
        = match analysis f with
          | Some a =>
              (["id"; "timestamp"]
               ++ match quality a with Some _ => ["quality"] | None => [] end
               ++ ["score"; "tags"; "advice"; "people"]
               ++ match shotType a with Some _ => ["shotType"] | None => [] end
               ++ ["isEnhanced"])%list
          | None => ["id"; "timestamp"; "isEnhanced"]
          end /\
        property "id" entry = Some (JsString (id f)) /\
        property "timestamp" entry = Some (JsNumber (timestamp f)) /\
        property "isEnhanced" entry = Some (JsBoolean (truthy (enhancedUrl f))) /\
        match analysis f with
        | Some a =>
            property "quality" entry = option_map JsString (quality a) /\
            property "score" entry = Some (JsNumber (compositionScore a)) /\
            property "tags" entry = Some (JsStrings (tags a)) /\
            property "advice" entry = Some (JsString (technicalAdvice a)) /\
            property "people" entry = Some (JsStrings (people a)) /\
            property "shotType" entry = option_map JsString (shotType a)
        | None =>
            forall key, In key ["quality"; "score"; "tags"; "advice"; "people"; "shotType"] ->
                        property key entry = None
        end /\
        (forall key, ~ In key manifestKeys -> property key entry = None) /\
        name = "frame_" ++ toFixed2 (timestamp f) ++ "s_"
               ++ match analysis f with
                  | Some a => match quality a with
                              | Some q => if String.eqb q "" then "ungraded" else q
                              | None => "ungraded"
                              end
                  | None => "ungraded"
                  end
               ++ ".png" /\
        data = stripDataUrl (if truthy (enhancedUrl f)
                             then match enhancedUrl f with
                                  | Some u => u
                                  | None => imageUrl f
                                  end
                             else imageUrl f).
Proof.
  intros frames keepers bundle.
  split; [intros f; apply keepers_spec|].
  split; [unfold bundle, exportProjectToZip; cbn [manifest]; now rewrite !length_map|].
  split; [apply length_map|].
  intros k f Hk.
  exists (JSON_stringify (manifestEntry f)), (filename f), (stripDataUrl (imageData f)).
  split; [|split].
  - unfold bundle, exportProjectToZip. cbn [manifest].
    fold keepers. rewrite !nth_error_map, Hk. reflexivity.
  - unfold bundle, exportProjectToZip. cbn [imageFiles].
    fold keepers. rewrite nth_error_map, Hk. reflexivity.
  - split; [apply written_keys|].
    split; [reflexivity|]. split; [reflexivity|].
    split; [|split; [|split; [|split]]].
    + unfold manifestEntry.
      destruct (analysis f) as [a|]; cbn [optChain];
        [destruct (quality a), (shotType a)|]; reflexivity.
    + unfold manifestEntry.
      destruct (analysis f) as [a|]; cbn [optChain].
      * destruct (quality a), (shotType a); repeat split.
      * intros key Hkey. cbn in Hkey.
        destruct Hkey as [<-|[<-|[<-|[<-|[<-|[<-|[]]]]]]]; reflexivity.
    + intros key Hkey. unfold manifestKeys in Hkey. cbn [In] in Hkey.
      assert (Hall : forall k0, In k0 manifestKeys -> String.eqb k0 key = false).
      { intros k0 Hin. apply String.eqb_neq. intros ->. apply Hkey. exact Hin. }
      unfold manifestEntry.
      destruct (analysis f) as [a|]; cbn [optChain];
        [destruct (quality a), (shotType a)|];
        cbn [JSON_stringify filter snd isUndefined negb JsOptString property];
        rewrite ?Hall by (cbn; tauto); reflexivity.
    + unfold filename, qualityLabel, or_string.
      destruct (analysis f) as [a|]; [destruct (quality a) as [q|]|]; reflexivity.
    + unfold imageData, or_string, truthy.
      destruct (enhancedUrl f) as [u|]; [destruct (String.eqb u "")|]; reflexivity.
Qed.

Definition enhancedKeeper : VideoFrame :=
  {| id := "e"; timestamp := 5 # 2; imageUrl := "data:image/jpeg;base64,EEEE";
     analysis := promoted (Some goodAnalysis); isSelected := true; isProcessing := false;
     enhancedUrl := Some "data:image/png;base64,NEW"; isEnhancing := Some false;
     appliedEnhancements := Some [EnhancementType.CINEMATIC] |}.

Lemma export_bundle_spec_witness :
  exists entry name data,
    nth_error (manifest (exportProjectToZip [pendingFrame "a" 0; unanalysedKeeper])) 0
    = Some entry /\
    nth_error (imageFiles (exportProjectToZip [pendingFrame "a" 0; unanalysedKeeper])) 0
    = Some (name, data) /\
    map fst entry = ["id"; "timestamp"; "isEnhanced"] /\
    name = "frame_6.00s_ungraded.png" /\ data = "BBBB".
Proof.
  destruct (proj2 (proj2 (proj2 (export_bundle_spec [pendingFrame "a" 0; unanalysedKeeper])))
              0%nat unanalysedKeeper eq_refl)
    as [entry [name [data [He [Hf [Hkeys [_ [_ [_ [_ [_ [Hname Hdata]]]]]]]]]]]].
  exists entry, name, data. repeat split; assumption.
Defined.

(** The scenario of the specification: two keepers, one enhanced and one
    not, and a frame that is not kept. *)
Example export_two_keepers :
  let bundle := exportProjectToZip [enhancedKeeper; pendingFrame "a" 0; unanalysedKeeper] in
  map (property "isEnhanced") (manifest bundle)
  = [Some (JsBoolean true); Some (JsBoolean false)] /\
  imageFiles bundle
  = [("frame_2.50s_Excellent.png", "NEW"); ("frame_6.00s_ungraded.png", "BBBB")].
Proof. split; reflexivity. Qed.

(** A saved version has the timestamp of its source and, like it, the
    quality Excellent: the two keepers are written under one file name. *)
Example saved_version_shares_file_name :
  let frames := handleSaveVersion "uuid-2" enhancedKeeper [enhancedKeeper] in
  map id (filter isSelected frames) = ["uuid-2"; "e"] /\
  map fst (imageFiles (exportProjectToZip frames))
  = ["frame_2.50s_Excellent.png"; "frame_2.50s_Excellent.png"].
Proof. split; reflexivity. Qed.

(** C8 as stated fails on the names of two fields: the manifest entry of a
    keeper has the keys [score] and [advice]; it has no [compositionScore]
    and no [technicalAdvice].  It fails on the number of fields too: the
    entry of a keeper without analysis is written with three keys. *)
Lemma manifest_has_score_and_advice_keys :
  map (map fst) (manifest (exportProjectToZip [enhancedKeeper]))
  = [["id"; "timestamp"; "quality"; "score"; "tags"; "advice"; "people"; "shotType";
      "isEnhanced"]] /\
  map (property "compositionScore") (manifest (exportProjectToZip [enhancedKeeper])) = [None] /\
  map (property "technicalAdvice") (manifest (exportProjectToZip [enhancedKeeper])) = [None] /\
  map (property "score") (manifest (exportProjectToZip [enhancedKeeper]))
  = [Some (JsNumber 6)] /\
  manifest (exportProjectToZip [unanalysedKeeper])
  = [[("id", JsString "b"); ("timestamp", JsNumber 6); ("isEnhanced", JsBoolean false)]].
Proof. repeat split. Qed.

(* ================================================================== *)
(** * Further properties of the service calls *)

(** The delays of [k] successive retries that start at [delay]. *)
Fixpoint backoff (k : nat) (delay : Z) : list Z :=
  match k with
  | O => []
  | S k' => delay :: backoff k' (delay * 2)
  end.

Section RetryBudget.

Context {T : Type}.
Variable fn : Promise T.
(** One attempt awaits no delay and sends at most one request. *)
Hypothesis fn_quiet : forall w, timeouts (snd (fn w)) = timeouts w.
Hypothesis fn_one :
  forall w, (requests w <= requests (snd (fn w)) <= S (requests w))%nat.

Lemma callWithRetry_unfold (retries : nat) (delay : Z) (w : World) :
  callWithRetry fn retries delay w
  = match fn w with
    | (Resolved v, w') => (Resolved v, w')
    | (Rejected e, w') =>
      match retries with
      | S r =>
        if isRateLimit e || isServerOverload e
        then callWithRetry fn r (delay * 2) (slept delay w')
        else (Rejected e, w')
      | O => (Rejected e, w')
      end
    end.
Proof.
  destruct retries; cbn [callWithRetry]; unfold try_catch at 1;
    destruct (fn w) as [[v|e] w']; try reflexivity.
  destruct (isRateLimit e || isServerOverload e); reflexivity.
Qed.

Lemma callWithRetry_budget (retries : nat) :
  forall (delay : Z) (w : World),
    exists k : nat,
      (k <= retries)%nat /\
      timeouts (snd (callWithRetry fn retries delay w))
      = (timeouts w ++ backoff k delay)%list /\
      (requests w <= requests (snd (callWithRetry fn retries delay w))
       <= requests w + k + 1)%nat.
Proof.
  induction retries as [|r IH]; intros delay w;
    rewrite callWithRetry_unfold;
    pose proof (fn_quiet w) as Hq; pose proof (fn_one w) as Ho;
    destruct (fn w) as [[v|e] w']; cbn [snd] in Hq, Ho.
  - exists 0%nat. cbn. rewrite app_nil_r. repeat split; try assumption; lia.
  - exists 0%nat. cbn. rewrite app_nil_r. repeat split; try assumption; lia.
  - exists 0%nat. cbn. rewrite app_nil_r. repeat split; try assumption; lia.
  - destruct (isRateLimit e || isServerOverload e).
    + destruct (IH (delay * 2)%Z (slept delay w')) as [k [Hk [Ht Hr]]].
      exists (S k). cbn [backoff]. rewrite Ht.
      cbn [slept timeouts requests] in *.
      rewrite Hq, <- app_assoc. repeat split; try reflexivity; lia.
    + exists 0%nat. cbn. rewrite app_nil_r. repeat split; try assumption; lia.
Qed.

End RetryBudget.

Lemma backoff_2000 (k : nat) :
  (k <= 3)%nat -> backoff k 2000 = firstn k [2000; 4000; 8000]%Z.
Proof.
  intros Hk. destruct k as [|[|[|[|k]]]]; try reflexivity. lia.
Qed.

(** What one analysis attempt can come to, in any world. *)
Lemma analyzeAttempt_cases (API_KEY : option string) (flash : nat -> Reply Response)
      (img : string) (w : World) :
  (exists a, analyzeAttempt API_KEY flash img w = (Resolved a, w)
             /\ a = fallbackAnalysis /\ truthy API_KEY = false)
  \/ (exists a, analyzeAttempt API_KEY flash img w = (Resolved a, sent w)
                /\ (a = fallbackAnalysis \/ exists j, a = analysisOfJson j))
  \/ (exists e, analyzeAttempt API_KEY flash img w = (Rejected e, sent w)
                /\ Z_is (status e) 429 = true).
Proof.
  unfold analyzeAttempt, try_catch, await, generateContent.
  destruct (truthy API_KEY) eqn:Hkey; cbn [negb].
  - right. fold (sent w).
    destruct (flash (requests w)) as [e|[ |msg| |j]]; cbn.
    + destruct (Z_is (status e) 429) eqn:H429.
      * right. exists e. split; [reflexivity|assumption].
      * left. exists fallbackAnalysis. split; [reflexivity|now left].
    + left. exists fallbackAnalysis. split; [reflexivity|now left].
    + left. exists fallbackAnalysis. split; [reflexivity|now left].
    + left. exists fallbackAnalysis. split; [reflexivity|now left].
    + left. exists (analysisOfJson j). split; [reflexivity|right; now exists j].
  - left. exists fallbackAnalysis. repeat split.
Qed.

Lemma analyzeAttempt_quiet (API_KEY : option string) (flash : nat -> Reply Response)
      (img : string) (w : World) :
  timeouts (snd (analyzeAttempt API_KEY flash img w)) = timeouts w.
Proof.
  destruct (analyzeAttempt_cases API_KEY flash img w)
    as [[a [H _]]|[[a [H _]]|[e [H _]]]]; rewrite H; reflexivity.
Qed.

Lemma analyzeAttempt_one (API_KEY : option string) (flash : nat -> Reply Response)
      (img : string) (w : World) :
  (requests w <= requests (snd (analyzeAttempt API_KEY flash img w)) <= S (requests w))%nat.
Proof.
  destruct (analyzeAttempt_cases API_KEY flash img w)
    as [[a [H _]]|[[a [H _]]|[e [H _]]]]; rewrite H; cbn; lia.
Qed.

(** Whatever the analysis model does, one [analyzeFrameWithGemini] call
    sends at most four requests, and the delays it awaits are the first
    [k <= 3] of 2000, 4000, 8000 ms, in this order; it sends at most
    [k + 1] requests. *)
Theorem analyze_request_budget :
  forall (API_KEY : option string) (flash : nat -> Reply Response)
         (img : string) (w : World),
    exists k : nat,
      (k <= 3)%nat /\
      timeouts (snd (analyzeFrameWithGemini API_KEY flash img w))
      = (timeouts w ++ firstn k [2000; 4000; 8000]%Z)%list /\
      (requests w <= requests (snd (analyzeFrameWithGemini API_KEY flash img w))
       <= requests w + k + 1)%nat.
Proof.
  intros API_KEY flash img w. unfold analyzeFrameWithGemini.
  destruct (callWithRetry_budget (analyzeAttempt API_KEY flash img)
              (analyzeAttempt_quiet API_KEY flash img)
              (analyzeAttempt_one API_KEY flash img) 3 2000%Z w)
    as [k [Hk [Ht Hr]]].
  exists k. rewrite <- (backoff_2000 k Hk). repeat split; try assumption; lia.
Qed.

(** The world after [retries + 1] attempts that each sent one request, with
    the delays of [callWithRetry] in between. *)
Fixpoint exhausted (retries : nat) (delay : Z) (w : World) : World :=
  match retries with
  | O => sent w
  | S r => exhausted r (delay * 2) (slept delay (sent w))
  end.

Section RetryRejection.

Context {T : Type}.
Variable fn : Promise T.
(** An attempt only rejects with a status 429 error, after one request. *)
Hypothesis fn_rejects :
  forall w e w', fn w = (Rejected e, w') -> Z_is (status e) 429 = true /\ w' = sent w.

Lemma callWithRetry_rejects (retries : nat) :
  forall (delay : Z) (w w' : World) (e : JsError),
    callWithRetry fn retries delay w = (Rejected e, w') ->
    Z_is (status e) 429 = true /\ w' = exhausted retries delay w.
Proof.
  induction retries as [|r IH]; intros delay w w' e;
    rewrite (callWithRetry_unfold fn);
    destruct (fn w) as [[v|e0] w0] eqn:Hfn; try discriminate;
    destruct (fn_rejects _ _ _ Hfn) as [H429 ->].
  - intros [= <- <-]. split; [assumption|reflexivity].
  - rewrite (status_429_isRateLimit e0 H429). intros Hrec.
    apply IH in Hrec. exact Hrec.
Qed.

End RetryRejection.

(** [analyzeFrameWithGemini] rejects in one way only: the error has status
    429 and the three retries are used up, after four requests and the
    delays 2000, 4000 and 8000 ms.  Every other failure is resolved. *)
Theorem analyze_rejects_only_when_exhausted :
  forall (API_KEY : option string) (flash : nat -> Reply Response)
         (img : string) (w w' : World) (e : JsError),
    analyzeFrameWithGemini API_KEY flash img w = (Rejected e, w') ->
    status e = Some 429%Z /\
    requests w' = (requests w + 4)%nat /\
    timeouts w' = (timeouts w ++ [2000; 4000; 8000]%Z)%list /\
    (forall n, (n < 4)%nat ->
               exists en, flash (requests w + n)%nat = Fails en /\ status en = Some 429%Z).
Proof.
  intros API_KEY flash img w w' e Hcall.
  assert (Hrej : forall w0 e0 w1,
             analyzeAttempt API_KEY flash img w0 = (Rejected e0, w1) ->
             Z_is (status e0) 429 = true /\ w1 = sent w0).
  { intros w0 e0 w1 H0.
    destruct (analyzeAttempt_cases API_KEY flash img w0)
      as [[a [H _]]|[[a [H _]]|[e1 [H H429]]]]; rewrite H in H0;
      try discriminate.
    injection H0 as <- <-. split; [assumption|reflexivity]. }
  assert (Hstatus : forall x, Z_is (status x) 429 = true -> status x = Some 429%Z).
  { intros x Hx. unfold Z_is in Hx. destruct (status x) as [z|]; [|discriminate].
    apply Z.eqb_eq in Hx. now subst z. }
  assert (Hreply : forall w0 e0 w1,
             analyzeAttempt API_KEY flash img w0 = (Rejected e0, w1) ->
             flash (requests w0) = Fails e0).
  { intros w0 e0 w1. unfold analyzeAttempt, try_catch, await, generateContent.
    destruct (truthy API_KEY); cbn [negb]; [|discriminate].
    destruct (flash (requests w0)) as [e1|[ |msg| |j]]; cbn; try discriminate.
    destruct (Z_is (status e1) 429); [|discriminate]. now intros [= -> _]. }
  unfold analyzeFrameWithGemini in Hcall.
  destruct (callWithRetry_rejects _ Hrej 3 _ _ _ _ Hcall) as [H429 ->].
  split; [now apply Hstatus|]. split; [cbn; lia|]. split.
  { cbn. rewrite <- !app_assoc. reflexivity. }
  (* every one of the four attempts was rejected with status 429 *)
  revert Hcall. rewrite (callWithRetry_unfold (analyzeAttempt API_KEY flash img)).
  destruct (analyzeAttempt API_KEY flash img w) as [[v0|e0] w0] eqn:A0; [discriminate|].
  destruct (Hrej _ _ _ A0) as [B0 ->]. rewrite (status_429_isRateLimit _ B0).
  rewrite (callWithRetry_unfold (analyzeAttempt API_KEY flash img)).
  destruct (analyzeAttempt API_KEY flash img (slept 2000 (sent w)))
    as [[v1|e1] w1] eqn:A1; [discriminate|].
  destruct (Hrej _ _ _ A1) as [B1 ->]. rewrite (status_429_isRateLimit _ B1).
  rewrite (callWithRetry_unfold (analyzeAttempt API_KEY flash img)).
  destruct (analyzeAttempt API_KEY flash img (slept (2000 * 2) (sent (slept 2000 (sent w)))))
    as [[v2|e2] w2] eqn:A2; [discriminate|].
  destruct (Hrej _ _ _ A2) as [B2 ->]. rewrite (status_429_isRateLimit _ B2).
  rewrite (callWithRetry_unfold (analyzeAttempt API_KEY flash img)).
  destruct (analyzeAttempt API_KEY flash img
              (slept (2000 * 2 * 2) (sent (slept (2000 * 2) (sent (slept 2000 (sent w)))))))
    as [[v3|e3] w3] eqn:A3; [discriminate|].
  destruct (Hrej _ _ _ A3) as [B3 ->]. intros _.
  apply Hreply in A0, A1, A2, A3. cbn [requests sent slept] in A0, A1, A2, A3.
  intros n Hn. destruct n as [|[|[|[|n]]]]; [| | | |lia].
  - exists e0. rewrite Nat.add_0_r. split; [assumption|now apply Hstatus].
  - exists e1. replace (requests w + 1)%nat with (S (requests w)) by lia.
    split; [assumption|now apply Hstatus].
  - exists e2. replace (requests w + 2)%nat with (S (S (requests w))) by lia.
    split; [assumption|now apply Hstatus].
  - exists e3. replace (requests w + 3)%nat with (S (S (S (requests w)))) by lia.
    split; [assumption|now apply Hstatus].
Qed.

Lemma analyze_rejects_only_when_exhausted_witness :
  status tooManyRequests = Some 429%Z /\
  requests (mkWorld 4 [2000; 4000; 8000]%Z) = 4%nat.
Proof.
  destruct (analyze_rejects_only_when_exhausted
              (Some "key") (fun _ => Fails tooManyRequests) "img" world0
              (mkWorld 4 [2000; 4000; 8000]%Z) tooManyRequests eq_refl)
    as [Hs [Hr _]].
  split; [exact Hs | exact Hr].
Defined.

Section RetryResolution.

Context {T : Type}.
Variable fn : Promise T.

(** A value [callWithRetry] resolves with is the value of one attempt. *)
Lemma callWithRetry_resolves (retries : nat) :
  forall (delay : Z) (w w' : World) (v : T),
    callWithRetry fn retries delay w = (Resolved v, w') ->
    exists w0, fn w0 = (Resolved v, w').
Proof.
  induction retries as [|r IH]; intros delay w w' v;
    rewrite (callWithRetry_unfold fn);
    destruct (fn w) as [[v0|e0] w0] eqn:Hfn; try discriminate.
  - intros [= <- <-]. now exists w.
  - intros [= <- <-]. now exists w.
  - destruct (isRateLimit e0 || isServerOverload e0); [|discriminate].
    apply IH.
Qed.

End RetryResolution.

Lemma or_string_nonempty (x : option string) (dflt : string) :
  dflt <> "" -> or_string x dflt <> "".
Proof.
  intros Hd. unfold or_string. destruct x as [s|]; [|assumption].
  destruct (String.eqb_spec s ""); assumption.
Qed.

Lemma or_number_nonzero (x : option Q) (dflt : Q) :
  ~ dflt == 0 -> ~ or_number x dflt == 0.
Proof.
  intros Hd. unfold or_number. destruct x as [q|]; [|assumption].
  destruct (Qeq_bool q 0) eqn:Hq; [assumption|].
  intros Hz. apply Qeq_bool_iff in Hz. congruence.
Qed.

Lemma analyze_resolved_shape (API_KEY : option string) (flash : nat -> Reply Response)
      (img : string) (w w' : World) (a : AIAnalysis) :
  analyzeFrameWithGemini API_KEY flash img w = (Resolved a, w') ->
  a = fallbackAnalysis \/ exists j, a = analysisOfJson j.
Proof.
  intros Hcall. unfold analyzeFrameWithGemini in Hcall.
  destruct (callWithRetry_resolves _ _ _ _ _ _ Hcall) as [w0 Hattempt].
  destruct (analyzeAttempt_cases API_KEY flash img w0)
    as [[a0 [H [Ha _]]]|[[a0 [H Ha]]|[e [H _]]]]; rewrite H in Hattempt;
    try discriminate; injection Hattempt as <- _; [now left | exact Ha].
Qed.

Lemma analyze_resolved_advice (API_KEY : option string) (flash : nat -> Reply Response)
      (img : string) (w w' : World) (a : AIAnalysis) :
  analyzeFrameWithGemini API_KEY flash img w = (Resolved a, w') ->
  technicalAdvice a <> "".
Proof.
  intros Hcall. destruct (analyze_resolved_shape _ _ _ _ _ _ Hcall) as [->|[j ->]];
    [discriminate|].
  cbn [technicalAdvice analysisOfJson]. apply or_string_nonempty. discriminate.
Qed.

(** Every analysis [analyzeFrameWithGemini] resolves with carries a
    non-empty [technicalAdvice], and its [compositionScore] is 0 only for
    the degraded fallback: a score of 0 sent by the service is replaced by
    5. *)
Theorem analysis_result_wellformed :
  forall (API_KEY : option string) (flash : nat -> Reply Response)
         (img : string) (w w' : World) (a : AIAnalysis),
    analyzeFrameWithGemini API_KEY flash img w = (Resolved a, w') ->
    technicalAdvice a <> "" /\
    (compositionScore a == 0 -> a = fallbackAnalysis) /\
    (a = fallbackAnalysis \/ exists j, a = analysisOfJson j).
Proof.
  intros API_KEY flash img w w' a Hcall.
  pose proof (analyze_resolved_shape _ _ _ _ _ _ Hcall) as Hshape.
  split; [exact (analyze_resolved_advice _ _ _ _ _ _ Hcall)|].
  split; [|exact Hshape].
  intros Hzero. destruct Hshape as [->|[j ->]]; [reflexivity|].
  exfalso. revert Hzero. cbn [compositionScore analysisOfJson].
  apply or_number_nonzero. discriminate.
Qed.

Definition zeroScoreJson : json.t :=
  {| json.quality := Some "Fair"; json.qualityReason := None;
     json.people := None; json.shotType := Some "Unknown";
     json.tags := None; json.compositionScore := Some 0;
     json.technicalAdvice := Some "";
     json.subjectId := None |}.

Lemma analysis_result_wellformed_witness :
  technicalAdvice (analysisOfJson zeroScoreJson) = "No advice available" /\
  technicalAdvice (analysisOfJson zeroScoreJson) <> "" /\
  compositionScore (analysisOfJson zeroScoreJson) = 5.
Proof.
  split; [reflexivity|]. split; [|reflexivity].
  exact (proj1 (analysis_result_wellformed
                  (Some "key") (fun _ => Responds (Parsed zeroScoreJson)) "img" world0
                  (mkWorld 1 []) (analysisOfJson zeroScoreJson) eq_refl)).
Defined.

(** What one enhancement attempt can come to, in any world. *)
Lemma enhanceAttempt_cases (API_KEY : option string)
      (flashImage : nat -> Reply (option string))
      (img advice : string) (types : list string) (w : World) :
  (enhanceAttempt API_KEY flashImage img advice types w = (Resolved None, w)
   /\ truthy API_KEY = false)
  \/ enhanceAttempt API_KEY flashImage img advice types w = (Resolved None, sent w)
  \/ (exists data, enhanceAttempt API_KEY flashImage img advice types w
                   = (Resolved (Some ("data:image/png;base64," ++ data)), sent w)
                   /\ flashImage (requests w) = Responds (Some data))
  \/ (exists e, enhanceAttempt API_KEY flashImage img advice types w = (Rejected e, sent w)
                /\ Z_is (status e) 429 = true).
Proof.
  unfold enhanceAttempt, try_catch, await, generateContent.
  destruct (truthy API_KEY) eqn:Hkey; cbn [negb].
  - right. fold (sent w).
    destruct (flashImage (requests w)) as [e|[data|]]; cbn.
    + destruct (Z_is (status e) 429) eqn:H429.
      * right. right. exists e. split; [reflexivity|assumption].
      * left. reflexivity.
    + right. left. exists data. split; reflexivity.
    + left. reflexivity.
  - left. split; reflexivity.
Qed.

(** [enhanceFrameWithGemini] resolves with [null] or with a PNG data URL,
    which is never the empty string (so [enhancedBase64 || undefined] keeps
    it); it rejects only with a status 429 error once the three retries are
    used up; and like the analysis call it sends at most four requests and
    awaits the first [k <= 3] of the delays 2000, 4000, 8000 ms. *)
Theorem enhance_result_shape :
  forall (API_KEY : option string) (flashImage : nat -> Reply (option string))
         (img advice : string) (types : list string) (w : World),
    let r := enhanceFrameWithGemini API_KEY flashImage img advice types w in
    (forall s, fst r = Resolved (Some s) ->
               (exists data, s = "data:image/png;base64," ++ data) /\
               or_undefined (Some s) = Some s) /\
    (forall e, fst r = Rejected e ->
               status e = Some 429%Z /\
               requests (snd r) = (requests w + 4)%nat /\
               timeouts (snd r) = (timeouts w ++ [2000; 4000; 8000]%Z)%list) /\
    (exists k : nat,
        (k <= 3)%nat /\
        timeouts (snd r) = (timeouts w ++ firstn k [2000; 4000; 8000]%Z)%list /\
        (requests w <= requests (snd r) <= requests w + k + 1)%nat).
Proof.
  intros API_KEY flashImage img advice types w r.
  set (fn := enhanceAttempt API_KEY flashImage img advice types).
  assert (Hcases := enhanceAttempt_cases API_KEY flashImage img advice types).
  fold fn in Hcases.
  split; [|split].
  - intros s Hs. destruct r as [o w'] eqn:Hr. cbn [fst] in Hs. subst o.
    unfold r, enhanceFrameWithGemini in Hr. fold fn in Hr.
    destruct (callWithRetry_resolves _ _ _ _ _ _ Hr) as [w0 Hattempt].
    destruct (Hcases w0) as [[H _]|[H|[[data [H _]]|[e [H _]]]]];
      rewrite H in Hattempt; try discriminate.
    injection Hattempt as <- _. split; [now exists data|reflexivity].
  - intros e He. destruct r as [o w'] eqn:Hr. cbn [fst snd] in *. subst o.
    unfold r, enhanceFrameWithGemini in Hr. fold fn in Hr.
    assert (Hrej : forall w0 e0 w1, fn w0 = (Rejected e0, w1) ->
                                    Z_is (status e0) 429 = true /\ w1 = sent w0).
    { intros w0 e0 w1 H0.
      destruct (Hcases w0) as [[H _]|[H|[[data [H _]]|[e1 [H H429]]]]];
        rewrite H in H0; try discriminate.
      injection H0 as <- <-. split; [assumption|reflexivity]. }
    destruct (callWithRetry_rejects _ Hrej 3 _ _ _ _ Hr) as [H429 ->].
    split; [|split].
    + unfold Z_is in H429. destruct (status e) as [z|]; [|discriminate].
      apply Z.eqb_eq in H429. now subst z.
    + cbn. lia.
    + cbn. rewrite <- !app_assoc. reflexivity.
  - assert (Hq : forall w0, timeouts (snd (fn w0)) = timeouts w0).
    { intros w0. destruct (Hcases w0) as [[H _]|[H|[[data [H _]]|[e [H _]]]]];
        rewrite H; reflexivity. }
    assert (Ho : forall w0, (requests w0 <= requests (snd (fn w0)) <= S (requests w0))%nat).
    { intros w0. destruct (Hcases w0) as [[H _]|[H|[[data [H _]]|[e [H _]]]]];
        rewrite H; cbn; lia. }
    destruct (callWithRetry_budget fn Hq Ho 3 2000%Z w) as [k [Hk [Ht Hreq]]].
    exists k. rewrite <- (backoff_2000 k Hk). unfold r, enhanceFrameWithGemini.
    fold fn. repeat split; try assumption; lia.
Qed.

(* ================================================================== *)
(** * Further properties of the store handlers *)

(** [clearSelection()] *)
Definition clearSelection (frames : list VideoFrame) : list VideoFrame :=
  map (fun f =>
         {| id := id f; timestamp := timestamp f; imageUrl := imageUrl f;
            analysis := analysis f; isSelected := false;
            isProcessing := isProcessing f;
            enhancedUrl := enhancedUrl f; isEnhancing := isEnhancing f;
            appliedEnhancements := appliedEnhancements f |}) frames.

Lemma updateFrame_Forall (P : VideoFrame -> Prop) (target : string)
      (patch : VideoFrame -> VideoFrame) (frames : list VideoFrame) :
  (forall f, P f -> P (patch f)) ->
  Forall P frames -> Forall P (updateFrame target patch frames).
Proof.
  intros Hpatch Hall. unfold updateFrame. apply Forall_map.
  eapply Forall_impl; [|exact Hall]. intros f Hf. cbn.
  destruct (String.eqb (id f) target); [now apply Hpatch | assumption].
Qed.

(** Whatever the analysis model does, the update [processFrameAI] makes
    keeps the ids and the order of the store, leaves every frame of
    another id as it is, and on the frames of its id clears [isProcessing]
    and keeps the image, the timestamp and the enhancement fields. *)
Theorem processFrameAI_frame :
  forall (API_KEY : option string) (flash : nat -> Reply Response)
         (frame : VideoFrame) (w : World) (frames : list VideoFrame),
    let frames' := fst (processFrameAI API_KEY flash frame w) frames in
    map id frames' = map id frames /\
    forall (n : nat) (f : VideoFrame),
      nth_error frames n = Some f ->
      exists f',
        nth_error frames' n = Some f' /\
        (id f <> id frame -> f' = f) /\
        (id f = id frame ->
         isProcessing f' = false /\
         timestamp f' = timestamp f /\ imageUrl f' = imageUrl f /\
         enhancedUrl f' = enhancedUrl f /\ isEnhancing f' = isEnhancing f /\
         appliedEnhancements f' = appliedEnhancements f).
Proof.
  intros API_KEY flash frame w frames frames'. unfold frames', processFrameAI.
  destruct (analyzeFrameWithGemini API_KEY flash (imageUrl frame) w)
    as [[result|e] w']; cbn [fst]; (split; [now apply updateFrame_ids|]);
    intros n f Hn; rewrite (updateFrame_nth _ _ _ _ _ Hn);
    (destruct (String.eqb_spec (id f) (id frame)) as [Heq|Hne];
     [ eexists; split; [reflexivity|]; split; [intros Hc; now elim Hc|];
       intros _; repeat split
     | exists f; split; [reflexivity|]; split; [reflexivity|];
       intros Hc; now elim Hne ]).
Qed.

(** A frame that shows an enhanced image has a history of applied
    styles. *)
Definition enhancedHasHistory (f : VideoFrame) : Prop :=
  truthy (enhancedUrl f) = true -> or_array (appliedEnhancements f) <> [].

Lemma withBatchEnhancement_history (enhanced : option string) (type : string)
      (f : VideoFrame) :
  enhancedHasHistory (withBatchEnhancement enhanced type f).
Proof.
  intros _. cbn. destruct (or_array (appliedEnhancements f)); discriminate.
Qed.

Lemma batchLoop_Forall (P : VideoFrame -> Prop)
      (API_KEY : option string) (flashImage : nat -> Reply (option string))
      (type : string) :
  (forall enhanced f, P f -> P (withBatchEnhancement enhanced type f)) ->
  (forall f, P f -> P (withEnhancing false f)) ->
  forall (selectedFrames frames : list VideoFrame) (w : World),
    Forall P frames ->
    Forall P (fst (batchLoop API_KEY flashImage type selectedFrames frames w)).
Proof.
  intros Hok Hfail. induction selectedFrames as [|s rest IH]; intros frames w Hall.
  - exact Hall.
  - cbn [batchLoop]. destruct (analysis s) as [a|]; [|now apply IH].
    destruct (enhanceFrameWithGemini API_KEY flashImage (imageUrl s)
                (technicalAdvice a) [type] w) as [[enhanced|e] w'];
      apply IH; apply updateFrame_Forall; auto.
Qed.

(** The store invariant "an enhanced image implies a non-empty
    [appliedEnhancements]" holds of the frames a scan makes and is kept
    by every handler: the analysis update, toggling and clearing the
    selection, saving a version, batch enhancement, and single enhancement
    with at least one style. *)
Theorem enhancement_history_invariant :
  forall (API_KEY : option string) (flash : nat -> Reply Response)
         (flashImage : nat -> Reply (option string))
         (randomUUID : nat -> string) (toDataURL : Q -> string)
         (frames : list VideoFrame),
    Forall enhancedHasHistory frames ->
    (forall frame w,
        Forall enhancedHasHistory (fst (processFrameAI API_KEY flash frame w) frames)) /\
    (forall target, Forall enhancedHasHistory (toggleFrameSelection target frames)) /\
    Forall enhancedHasHistory (clearSelection frames) /\
    (forall uuid frame, Forall enhancedHasHistory (handleSaveVersion uuid frame frames)) /\
    (forall type w,
        Forall enhancedHasHistory (fst (handleBatchEnhance API_KEY flashImage type frames w))) /\
    (forall frame advice types w,
        types <> [] ->
        Forall enhancedHasHistory
               (fst (handleEnhanceSelection API_KEY flashImage frame advice types frames w))) /\
    (forall scanSettings duration,
        Forall enhancedHasHistory
               (frames ++ startExtraction randomUUID toDataURL scanSettings duration)).
Proof.
  intros API_KEY flash flashImage randomUUID toDataURL frames Hall.
  repeat split.
  - intros frame w. unfold processFrameAI.
    destruct (analyzeFrameWithGemini API_KEY flash (imageUrl frame) w) as [[result|e] w'];
      cbn [fst]; apply updateFrame_Forall; auto.
  - intros target. unfold toggleFrameSelection. apply updateFrame_Forall; auto.
  - unfold clearSelection. apply Forall_map.
    eapply Forall_impl; [|exact Hall]. auto.
  - intros uuid frame. unfold handleSaveVersion.
    destruct (or_undefined (enhancedUrl frame)); [|assumption].
    constructor; [|assumption]. intros Habs. discriminate Habs.
  - intros type w. unfold handleBatchEnhance. apply batchLoop_Forall.
    + intros enhanced f _. apply withBatchEnhancement_history.
    + auto.
    + apply Forall_map. eapply Forall_impl; [|exact Hall]. intros f Hf. cbn.
      destruct (existsb _ _); auto.
  - intros frame advice types w Htypes. unfold handleEnhanceSelection, enhanceSelectionSettle.
    destruct (enhanceFrameWithGemini API_KEY flashImage (imageUrl frame) advice types w)
      as [[enhanced|e] w']; cbn [fst]; apply updateFrame_Forall;
      try (apply updateFrame_Forall; auto); auto.
    intros f _ _. cbn. destruct (or_array (appliedEnhancements f)); [|discriminate].
    cbn. assumption.
  - intros scanSettings duration. apply Forall_app. split; [assumption|].
    unfold startExtraction.
    destruct (scanWindow (range scanSettings) duration) as [startTime endTime].
    generalize 0%nat at 1. generalize startTime. generalize maxFrames at 1.
    induction n as [|fuel IH]; intros t count; cbn [scanLoop]; [constructor|].
    destruct ((t <? endTime)%float && (count <? maxFrames)%nat); constructor.
    + intros Habs. discriminate Habs.
    + apply IH.
Qed.

Lemma enhancement_history_invariant_witness :
  Forall enhancedHasHistory
         (fst (handleBatchEnhance (Some "key") someImage EnhancementType.CINEMATIC
                                  [unanalysedKeeper; analysedKeeper] world0)).
Proof.
  refine (proj1 (proj2 (proj2 (proj2 (proj2
            (enhancement_history_invariant
               (Some "key") (fun _ => Responds NoText) someImage
               (fun _ => "uuid") (fun _ => "jpeg")
               [unanalysedKeeper; analysedKeeper] _)))))
            EnhancementType.CINEMATIC world0).
  repeat constructor; intros Habs; discriminate Habs.
Defined.

(* ================================================================== *)
(** * Further properties of batch enhancement *)

Section BatchFacts.

Variable API_KEY : option string.
Variable flashImage : nat -> Reply (option string).
Variable type : string.

Lemma batchLoop_ids (selectedFrames : list VideoFrame) :
  forall (frames : list VideoFrame) (w : World),
    map id (fst (batchLoop API_KEY flashImage type selectedFrames frames w))
    = map id frames.
Proof.
  induction selectedFrames as [|s rest IH]; intros frames w; [reflexivity|].
  cbn [batchLoop]. destruct (analysis s) as [a|]; [|apply IH].
  destruct (enhanceFrameWithGemini API_KEY flashImage (imageUrl s)
              (technicalAdvice a) [type] w) as [[enhanced|e] w'];
    rewrite IH; now apply updateFrame_ids.
Qed.

(** A frame whose flag is already lowered, or whose id is that of a frame
    of the snapshot that has an analysis, ends with the flag lowered. *)
Lemma batchLoop_lowers_flag (selectedFrames : list VideoFrame) :
  forall (frames : list VideoFrame) (w : World) (n : nat) (g : VideoFrame),
    nth_error frames n = Some g ->
    (isEnhancing g = Some false
     \/ exists s, In s selectedFrames /\ analysis s <> None /\ id s = id g) ->
    exists g',
      nth_error (fst (batchLoop API_KEY flashImage type selectedFrames frames w)) n
      = Some g' /\
      isEnhancing g' = Some false /\ id g' = id g /\ isSelected g' = isSelected g.
Proof.
  induction selectedFrames as [|s rest IH]; intros frames w n g Hn Hg.
  - destruct Hg as [Hg|[s [[] _]]]. exists g. cbn. auto.
  - cbn [batchLoop]. destruct (analysis s) as [a|] eqn:Ha.
    + assert (Hstep : forall patch,
                 isEnhancing (patch g) = Some false ->
                 id (patch g) = id g -> isSelected (patch g) = isSelected g ->
                 forall w',
                 exists g',
                   nth_error (fst (batchLoop API_KEY flashImage type rest
                                             (updateFrame (id s) patch frames) w')) n
                   = Some g' /\
                   isEnhancing g' = Some false /\ id g' = id g /\
                   isSelected g' = isSelected g).
      { intros patch Hflag Hid Hsel w'.
        pose proof (updateFrame_nth (id s) patch _ _ _ Hn) as Hn'.
        destruct (String.eqb_spec (id g) (id s)) as [Heq|Hne].
        - destruct (IH _ w' _ _ Hn' (or_introl Hflag)) as [g' [H1 [H2 [H3 H4]]]].
          exists g'. rewrite H3, H4. auto.
        - apply (IH _ w' _ _ Hn').
          destruct Hg as [Hg|[s' [[<-|Hin] [Hs' Hid']]]].
          + now left.
          + now elim Hne.
          + right. now exists s'. }
      destruct (enhanceFrameWithGemini API_KEY flashImage (imageUrl s)
                  (technicalAdvice a) [type] w) as [[enhanced|e] w'];
        apply Hstep; reflexivity.
    + apply (IH _ w _ _ Hn).
      destruct Hg as [Hg|[s' [[<-|Hin] [Hs' Hid']]]].
      * now left.
      * congruence.
      * right. now exists s'.
Qed.

(** A frame whose id is none of the snapshot's is not touched by the
    loop. *)
Lemma batchLoop_other (selectedFrames : list VideoFrame) :
  forall (frames : list VideoFrame) (w : World) (n : nat) (g : VideoFrame),
    nth_error frames n = Some g ->
    ~ In (id g) (map id selectedFrames) ->
    nth_error (fst (batchLoop API_KEY flashImage type selectedFrames frames w)) n
    = Some g.
Proof.
  induction selectedFrames as [|s rest IH]; intros frames w n g Hn Hout.
  - exact Hn.
  - cbn [batchLoop]. cbn [map In] in Hout.
    assert (Hne : String.eqb (id g) (id s) = false).
    { apply String.eqb_neq. intros Heq. apply Hout. left. now symmetry. }
    assert (Hrest : ~ In (id g) (map id rest)) by (intros Hin; apply Hout; now right).
    destruct (analysis s) as [a|]; [|now apply IH].
    destruct (enhanceFrameWithGemini API_KEY flashImage (imageUrl s)
                (technicalAdvice a) [type] w) as [[enhanced|e] w'];
      apply IH; try assumption;
      rewrite (updateFrame_nth _ _ _ _ _ Hn), Hne; reflexivity.
Qed.

End BatchFacts.

(** Whatever the image model does, a batch enhancement keeps the ids and
    the order of the store, and every keeper that has an analysis ends
    with [isEnhancing = false], still selected. *)
Theorem batch_lowers_flag_of_analysed_keepers :
  forall (API_KEY : option string) (flashImage : nat -> Reply (option string))
         (type : string) (frames : list VideoFrame) (w : World),
    let frames' := fst (handleBatchEnhance API_KEY flashImage type frames w) in
    map id frames' = map id frames /\
    forall (n : nat) (f : VideoFrame),
      nth_error frames n = Some f ->
      isSelected f = true -> analysis f <> None ->
      exists f',
        nth_error frames' n = Some f' /\
        isEnhancing f' = Some false /\ id f' = id f /\ isSelected f' = true.
Proof.
  intros API_KEY flashImage type frames w frames'. unfold frames', handleBatchEnhance.
  split.
  - rewrite batchLoop_ids, map_map. apply map_ext. intros f.
    destruct (existsb _ _); reflexivity.
  - intros n f Hn Hsel Hana.
    pose proof (batch_start_flags_targets frames f n Hn Hsel) as Hstart.
    cbv zeta in Hstart.
    destruct (batchLoop_lowers_flag API_KEY flashImage type
                (filter isSelected frames) _ w n _ Hstart) as [f' [H1 [H2 [H3 H4]]]].
    + right. exists f. split; [|split; [assumption|reflexivity]].
      apply filter_In. split; [|assumption]. eapply nth_error_In; eassumption.
    + exists f'. cbn in H3, H4. rewrite Hsel in H4. auto.
Qed.

Lemma batch_lowers_flag_of_analysed_keepers_witness :
  exists f',
    nth_error (fst (handleBatchEnhance (Some "key") noImage EnhancementType.BOKEH
                                       [unanalysedKeeper; analysedKeeper] world0)) 1
    = Some f' /\
    isEnhancing f' = Some false /\ id f' = "c" /\ isSelected f' = true.
Proof.
  refine (proj2 (batch_lowers_flag_of_analysed_keepers
                   (Some "key") noImage EnhancementType.BOKEH
                   [unanalysedKeeper; analysedKeeper] world0)
                1%nat analysedKeeper eq_refl eq_refl _).
  discriminate.
Defined.

Lemma NoDup_ids_same (frames : list VideoFrame) (f g : VideoFrame) :
  NoDup (map id frames) -> In f frames -> In g frames -> id f = id g -> f = g.
Proof.
  induction frames as [|h frames IH]; intros Hnd Hf Hg Hid; [contradiction|].
  cbn [map] in Hnd. inversion Hnd as [|x l Hnotin Hnd']; subst.
  destruct Hf as [<-|Hf], Hg as [<-|Hg].
  - reflexivity.
  - exfalso. apply Hnotin. rewrite Hid. now apply in_map.
  - exfalso. apply Hnotin. rewrite <- Hid. now apply in_map.
  - now apply IH.
Qed.

(** When the ids of the store are pairwise distinct, a batch enhancement
    does not change any frame that is not selected. *)
Theorem batch_leaves_unselected_frames :
  forall (API_KEY : option string) (flashImage : nat -> Reply (option string))
         (type : string) (frames : list VideoFrame) (w : World)
         (n : nat) (f : VideoFrame),
    NoDup (map id frames) ->
    nth_error frames n = Some f ->
    isSelected f = false ->
    nth_error (fst (handleBatchEnhance API_KEY flashImage type frames w)) n = Some f.
Proof.
  intros API_KEY flashImage type frames w n f Hnd Hn Hsel.
  assert (Hout : ~ In (id f) (map id (filter isSelected frames))).
  { intros Hin. apply in_map_iff in Hin. destruct Hin as [g [Hid Hg]].
    apply filter_In in Hg. destruct Hg as [Hg Hgsel].
    assert (g = f).
    { apply (NoDup_ids_same frames); try assumption.
      eapply nth_error_In; eassumption. }
    subst g. congruence. }
  unfold handleBatchEnhance. apply batchLoop_other; [|assumption].
  rewrite nth_error_map, Hn. cbn [option_map].
  replace (existsb (String.eqb (id f)) (map id (filter isSelected frames))) with false;
    [reflexivity|].
  symmetry. apply not_true_is_false. intros Hex.
  apply existsb_exists in Hex. destruct Hex as [x [Hx Heq]].
  apply String.eqb_eq in Heq. subst x. contradiction.
Qed.

Lemma batch_leaves_unselected_frames_witness :
  nth_error (fst (handleBatchEnhance (Some "key") someImage EnhancementType.CINEMATIC
                                     [restoredFrame; analysedKeeper] world0)) 0
  = Some restoredFrame.
Proof.
  refine (batch_leaves_unselected_frames
            (Some "key") someImage EnhancementType.CINEMATIC
            [restoredFrame; analysedKeeper] world0 0%nat restoredFrame _ eq_refl eq_refl).
  repeat constructor; cbn; intuition discriminate.
Defined.

Definition hasAnalysis (f : VideoFrame) : bool :=
  match analysis f with
  | Some _ => true
  | None => false
  end.

Lemma enhance_when_answered (API_KEY : option string)
      (flashImage : nat -> Reply (option string))
      (img advice : string) (types : list string) (w : World) (part : option string) :
  truthy API_KEY = true ->
  flashImage (requests w) = Responds part ->
  enhanceFrameWithGemini API_KEY flashImage img advice types w
  = (Resolved (option_map (String.append "data:image/png;base64,") part), sent w).
Proof.
  intros Hkey Hr. unfold enhanceFrameWithGemini. apply callWithRetry_resolved.
  unfold enhanceAttempt, try_catch, await, generateContent.
  rewrite Hkey. cbn. rewrite Hr. destruct part; reflexivity.
Qed.

(** With credentials and an image model that answers every request (with an
    image or without), a batch enhancement sends exactly one request per
    keeper that has an analysis, one after the other, and awaits no
    delay. *)
Theorem batch_sends_one_request_per_analysed_keeper :
  forall (API_KEY : option string) (flashImage : nat -> Reply (option string))
         (type : string) (frames : list VideoFrame) (w : World),
    truthy API_KEY = true ->
    (forall n, exists part, flashImage n = Responds part) ->
    snd (handleBatchEnhance API_KEY flashImage type frames w)
    = mkWorld (requests w
               + List.length (filter hasAnalysis (filter isSelected frames)))
              (timeouts w).
Proof.
  intros API_KEY flashImage type frames w Hkey Hanswers.
  unfold handleBatchEnhance.
  generalize (map (fun f => if existsb (String.eqb (id f))
                                       (map id (filter isSelected frames))
                            then withEnhancing true f else f) frames).
  generalize (filter isSelected frames). intros sel. revert w.
  induction sel as [|s rest IH]; intros w store.
  - cbn. rewrite Nat.add_0_r. destruct w; reflexivity.
  - cbn [batchLoop filter]. unfold hasAnalysis at 1.
    destruct (analysis s) as [a|]; [|apply IH].
    destruct (Hanswers (requests w)) as [part Hpart].
    rewrite (enhance_when_answered _ _ _ _ _ _ part Hkey Hpart).
    rewrite IH. cbn. f_equal. lia.
Qed.

Lemma batch_sends_one_request_per_analysed_keeper_witness :
  snd (handleBatchEnhance (Some "key") someImage EnhancementType.CINEMATIC
                          [unanalysedKeeper; analysedKeeper; restoredFrame] world0)
  = mkWorld 1 [].
Proof.
  refine (batch_sends_one_request_per_analysed_keeper
            (Some "key") someImage EnhancementType.CINEMATIC
            [unanalysedKeeper; analysedKeeper; restoredFrame] world0 eq_refl _).
  intros n. exists (Some "NEW"). reflexivity.
Defined.

(** With credentials, when the image model answers the request with an
    image, [handleEnhanceSelection] stores it as a PNG data URL on the
    frames of that id, selects them, appends the requested styles to their
    history in the order given, forces the quality of an existing
    analysis to Excellent while keeping every other field of it, and lowers
    [isEnhancing]; the id, the timestamp, the original image and
    [isProcessing] of the frame are kept; one request is sent and no delay
    awaited. *)
Theorem enhance_success_frame :
  forall (API_KEY : option string) (flashImage : nat -> Reply (option string))
         (frame : VideoFrame) (advice : string) (types : list string)
         (frames : list VideoFrame) (w : World) (data : string)
         (n : nat) (f : VideoFrame),
    truthy API_KEY = true ->
    flashImage (requests w) = Responds (Some data) ->
    nth_error frames n = Some f -> id f = id frame ->
    exists f',
      nth_error (fst (handleEnhanceSelection API_KEY flashImage frame advice types frames w)) n
      = Some f' /\
      snd (handleEnhanceSelection API_KEY flashImage frame advice types frames w) = sent w /\
      enhancedUrl f' = Some ("data:image/png;base64," ++ data) /\
      isSelected f' = true /\ isEnhancing f' = Some false /\
      appliedEnhancements f' = Some (or_array (appliedEnhancements f) ++ types)%list /\
      match analysis f, analysis f' with
      | Some a, Some a' =>
          quality a' = Some FrameQuality.EXCELLENT /\
          qualityReason a' = qualityReason a /\
          tags a' = tags a /\ people a' = people a /\
          technicalAdvice a' = technicalAdvice a /\
          compositionScore a' = compositionScore a /\
          shotType a' = shotType a /\ subjectId a' = subjectId a
      | None, None => True
      | _, _ => False
      end /\
      id f' = id f /\ timestamp f' = timestamp f /\ imageUrl f' = imageUrl f /\
      isProcessing f' = isProcessing f.
Proof.
  intros API_KEY flashImage frame advice types frames w data n f Hkey Hr Hn Hid.
  unfold handleEnhanceSelection, enhanceSelectionSettle, enhanceSelectionStart.
  rewrite (enhance_when_answered _ _ _ _ _ _ (Some data) Hkey Hr). cbn [option_map fst snd].
  pose proof (updateFrame_nth (id frame) (withEnhancing true) _ _ _ Hn) as H1.
  rewrite Hid, String.eqb_refl in H1.
  pose proof (updateFrame_nth (id frame)
                (withEnhancement (Some ("data:image/png;base64," ++ data)) types)
                _ _ _ H1) as H2.
  cbn [id withEnhancing] in H2. rewrite Hid, String.eqb_refl in H2.
  eexists. split; [exact H2|]. split; [reflexivity|].
  cbn. repeat split. destruct (analysis f); cbn; repeat split.
Qed.

Lemma enhance_success_frame_witness :
  exists f',
    nth_error (fst (handleEnhanceSelection (Some "key") someImage restoredFrame "Sharpen"
                      [EnhancementType.UNBLUR; EnhancementType.BOKEH]
                      [restoredFrame] world0)) 0 = Some f' /\
    enhancedUrl f' = Some "data:image/png;base64,NEW" /\
    appliedEnhancements f'
    = Some [EnhancementType.RESTORE; EnhancementType.UNBLUR; EnhancementType.BOKEH].
Proof.
  destruct (enhance_success_frame (Some "key") someImage restoredFrame "Sharpen"
              [EnhancementType.UNBLUR; EnhancementType.BOKEH]
              [restoredFrame] world0 "NEW" 0%nat restoredFrame
              eq_refl eq_refl eq_refl eq_refl)
    as [f' [H1 [_ [H2 [_ [_ [H3 _]]]]]]].
  exists f'. repeat split; assumption.
Defined.

(* ================================================================== *)
(** * App.tsx: selection, statistics and the pipeline panel *)

Lemma withToggledSelection_twice (f : VideoFrame) :
  withToggledSelection (withToggledSelection f) = f.
Proof. destruct f as [i t u a [|] p e g h]; reflexivity. Qed.

(** Toggling the selection of an id flips [isSelected] on the frames of
    that id and on no other, changes no other field, and toggling a second
    time gives back the store. *)
Theorem toggleFrameSelection_involutive :
  forall (target : string) (frames : list VideoFrame),
    toggleFrameSelection target (toggleFrameSelection target frames) = frames /\
    map isSelected (toggleFrameSelection target frames)
    = map (fun f => if String.eqb (id f) target then negb (isSelected f) else isSelected f)
          frames /\
    clearSelection (toggleFrameSelection target frames) = clearSelection frames.
Proof.
  intros target frames. unfold toggleFrameSelection, updateFrame, clearSelection.
  split; [|split].
  - rewrite map_map. transitivity (map (fun f : VideoFrame => f) frames);
      [|apply map_id].
    apply map_ext. intros f. destruct (String.eqb (id f) target) eqn:Heq.
    + cbn [id withToggledSelection]. rewrite Heq.
      apply withToggledSelection_twice.
    + rewrite Heq. reflexivity.
  - rewrite map_map. apply map_ext. intros f.
    destruct (String.eqb (id f) target); reflexivity.
  - rewrite map_map. apply map_ext. intros f.
    destruct (String.eqb (id f) target); reflexivity.
Qed.

(** [stats] *)
Record ProcessingStats : Type := mkStats {
  totalFrames : nat;
  analyzedFrames : nat;
  keepers : nat
}.

Definition stats (frames : list VideoFrame) : ProcessingStats :=
  {| totalFrames := List.length frames;
     analyzedFrames := List.length (filter hasAnalysis frames);
     keepers := List.length (filter isSelected frames) |}.

(** The condition under which App renders [PipelineStatus], and the two
    flags the component derives from the props App passes. *)
Definition pipelineShown (isExtracting : bool) (frames : list VideoFrame) : bool :=
  isExtracting || (analyzedFrames (stats frames) <? totalFrames (stats frames))%nat.

Definition isAnalysisComplete (isExtracting : bool) (analyzedCount total : nat) : bool :=
  (0 <? total)%nat && (analyzedCount =? total)%nat && negb isExtracting.

Definition isClustering (isExtracting : bool) (analyzedCount total : nat)
           (isProcessing : bool) : bool :=
  isAnalysisComplete isExtracting analyzedCount total && negb isProcessing.

Lemma filter_length_le {A : Type} (p : A -> bool) (l : list A) :
  (List.length (filter p l) <= List.length l)%nat.
Proof.
  induction l as [|x l IH]; cbn; [lia|]. destruct (p x); cbn; lia.
Qed.

(** The counters never exceed the number of frames, and the export writes
    as many manifest entries as there are keepers.  Whenever App shows the
    pipeline panel, the panel's [isAnalysisComplete] and [isClustering] are
    false: the panel is only rendered while a scan runs or frames lack an
    analysis, so its "Analysis complete" state is never displayed. *)
Theorem stats_and_pipeline :
  forall (frames : list VideoFrame) (isExtracting : bool),
    let s := stats frames in
    (analyzedFrames s <= totalFrames s)%nat /\
    (keepers s <= totalFrames s)%nat /\
    List.length (manifest (exportProjectToZip frames)) = keepers s /\
    (pipelineShown isExtracting frames = true ->
     isAnalysisComplete isExtracting (analyzedFrames s) (totalFrames s) = false /\
     isClustering isExtracting (analyzedFrames s) (totalFrames s)
                  (analyzedFrames s <? totalFrames s)%nat = false).
Proof.
  intros frames isExtracting s.
  split; [apply filter_length_le|]. split; [apply filter_length_le|].
  split; [unfold exportProjectToZip; cbn [manifest]; rewrite !length_map; reflexivity|].
  unfold pipelineShown, isClustering, isAnalysisComplete. fold s.
  intros Hshown. destruct isExtracting; cbn [negb orb] in *.
  - rewrite !andb_false_r. split; reflexivity.
  - apply Nat.ltb_lt in Hshown.
    replace (analyzedFrames s =? totalFrames s)%nat with false
      by (symmetry; apply Nat.eqb_neq; lia).
    rewrite andb_false_r. split; reflexivity.
Qed.

(** After [clearSelection] no frame is selected: [isSelected] is false on
    every frame, the keeper count is 0 and an export would write no
    manifest entry and no image; the number of frames and of analysed
    frames, and every field other than [isSelected] ([id], [timestamp],
    [imageUrl], [analysis], [isProcessing], [enhancedUrl], [isEnhancing],
    [appliedEnhancements]), are unchanged; clearing twice is clearing
    once. *)
Theorem clearSelection_empties_library :
  forall (frames : list VideoFrame),
    keepers (stats (clearSelection frames)) = 0%nat /\
    manifest (exportProjectToZip (clearSelection frames)) = [] /\
    imageFiles (exportProjectToZip (clearSelection frames)) = [] /\
    totalFrames (stats (clearSelection frames)) = totalFrames (stats frames) /\
    analyzedFrames (stats (clearSelection frames)) = analyzedFrames (stats frames) /\
    map isSelected (clearSelection frames) = map (fun _ => false) frames /\
    map id (clearSelection frames) = map id frames /\
    map timestamp (clearSelection frames) = map timestamp frames /\
    map imageUrl (clearSelection frames) = map imageUrl frames /\
    map analysis (clearSelection frames) = map analysis frames /\
    map isProcessing (clearSelection frames) = map isProcessing frames /\
    map enhancedUrl (clearSelection frames) = map enhancedUrl frames /\
    map isEnhancing (clearSelection frames) = map isEnhancing frames /\
    map appliedEnhancements (clearSelection frames) = map appliedEnhancements frames /\
    clearSelection (clearSelection frames) = clearSelection frames.
Proof.
  intros frames.
  assert (Hnone : filter isSelected (clearSelection frames) = []).
  { unfold clearSelection. induction frames as [|f frames IH]; [reflexivity|].
    cbn. exact IH. }
  assert (Hana : filter hasAnalysis (clearSelection frames)
                 = clearSelection (filter hasAnalysis frames)).
  { unfold clearSelection. set (g := fun f : VideoFrame => _).
    assert (Hg : forall f, hasAnalysis (g f) = hasAnalysis f) by reflexivity.
    clear Hnone. induction frames as [|f frames IH]; [reflexivity|].
    cbn [map filter]. rewrite Hg.
    destruct (hasAnalysis f); cbn [map]; rewrite IH; reflexivity. }
  unfold stats, exportProjectToZip.
  cbn [keepers manifest imageFiles totalFrames analyzedFrames].
  rewrite Hnone, Hana. cbn [map List.length].
  split; [reflexivity|]. split; [reflexivity|]. split; [reflexivity|].
  unfold clearSelection. rewrite !length_map, !map_map.
  repeat split; reflexivity.
Qed.

(* ================================================================== *)
(** * App.tsx: filteredFrames, smartChips and toggleTagFilter *)

Inductive LibraryView : Type := view_all | view_library.
Inductive LibraryFilter : Type := sub_all | sub_enhanced | sub_original.

(** [interface FilterState]; ['All'] is the string ["All"]. *)
Module FilterState.
Record t : Type := mk {
  minQuality : string;
  shotType : string;
  activeTags : list string
}.
End FilterState.

(** [qualityOrder[q]]: the rank of the four qualities, [undefined] for
    anything else. *)
Definition qualityOrder (q : option string) : option nat :=
  match q with
  | Some s =>
    if String.eqb s FrameQuality.FAIR then Some 1%nat
    else if String.eqb s FrameQuality.GOOD then Some 2%nat
    else if String.eqb s FrameQuality.EXCELLENT then Some 3%nat
    else if String.eqb s FrameQuality.PENDING then Some 0%nat
    else None
  | None => None
  end.

(** [x < y] on two looked-up ranks: false when one is [undefined]. *)
Definition rank_lt (x y : option nat) : bool :=
  match x, y with
  | Some a, Some b => (a <? b)%nat
  | _, _ => false
  end.

(** [s.replace(/_/g, " ")] *)
Fixpoint replaceUnderscores (s : string) : string :=
  match s with
  | EmptyString => EmptyString
  | String c rest =>
    String (if Ascii.eqb c "_" then " "%char else c) (replaceUnderscores rest)
  end.

(** [subjectId?.replace(/_/g, " ")] *)
Definition humanized (subjectId : option string) : option string :=
  match subjectId with
  | Some s => Some (replaceUnderscores s)
  | None => None
  end.

(** [frame.appliedEnhancements?.length], as a truth value. *)
Definition hasEnhancements (frame : VideoFrame) : bool :=
  match appliedEnhancements frame with
  | Some (_ :: _) => true
  | _ => false
  end.

Section Filtering.

(** [String.prototype.toLowerCase] *)
Variable toLowerCase : string -> string.

(** [[...(tags || []), subjectId?.replace(/_/g, " ") || ""]] *)
Definition frameTags (a : AIAnalysis) : list string :=
  (tags a ++ [or_string (humanized (subjectId a)) ""])%list.

(** [activeTags.some(tag => frameTags.some(ft =>
      ft.toLowerCase().includes(tag.toLowerCase())))] *)
Definition someTagMatches (activeTags : list string) (a : AIAnalysis) : bool :=
  existsb (fun tag =>
             existsb (fun ft => includes (toLowerCase tag) (toLowerCase ft))
                     (frameTags a))
          activeTags.

(** The predicate of [frames.filter(frame => ...)]. *)
Definition isVisible (libraryView : LibraryView) (libraryFilter : LibraryFilter)
           (isExtracting : bool) (filters : FilterState.t) (frame : VideoFrame) : bool :=
  if match libraryView with view_library => negb (isSelected frame) | view_all => false end
  then false
  else if match libraryFilter with
          | sub_enhanced => negb (hasEnhancements frame)
          | _ => false
          end
  then false
  else if match libraryFilter with
          | sub_original => hasEnhancements frame
          | _ => false
          end
  then false
  else
    match analysis frame with
    | None => isExtracting
    | Some a =>
      if negb (String.eqb (FilterState.minQuality filters) "All")
         && rank_lt (qualityOrder (quality a))
                    (qualityOrder (Some (FilterState.minQuality filters)))
      then false
      else if negb (String.eqb (FilterState.shotType filters) "All")
              && negb (strict_eq (shotType a) (FilterState.shotType filters))
      then false
      else if match FilterState.activeTags filters with [] => false | _ => true end
              && negb (someTagMatches (FilterState.activeTags filters) a)
      then false
      else true
    end.

Definition filteredFrames (libraryView : LibraryView) (libraryFilter : LibraryFilter)
           (isExtracting : bool) (filters : FilterState.t) (frames : list VideoFrame)
  : list VideoFrame :=
  filter (isVisible libraryView libraryFilter isExtracting filters) frames.

(** [smartChips]: a [Set] keeps its elements in insertion order, once each. *)
Definition set_add (x : string) (s : list string) : list string :=
  if existsb (String.eqb x) s then s else (s ++ [x])%list.

Definition addFrameTags (allTags : list string) (f : VideoFrame) : list string :=
  match analysis f with
  | Some a =>
    let allTags := fold_left (fun acc t => set_add t acc) (tags a) allTags in
    if truthy (subjectId a)
    then set_add (replaceUnderscores (or_string (subjectId a) "")) allTags
    else allTags
  | None => allTags
  end.

Definition allTags (frames : list VideoFrame) : list string :=
  fold_left addFrameTags frames [].

Definition smartChips (frames : list VideoFrame) : list string :=
  firstn 8 (allTags frames).

(** [toggleTagFilter(tag)] on [filters.activeTags]. *)
Definition toggleTag (tag : string) (activeTags : list string) : list string :=
  if existsb (String.eqb tag) activeTags
  then filter (fun t => negb (String.eqb t tag)) activeTags
  else (activeTags ++ [tag])%list.

Definition toggleTagFilter (tag : string) (prev : FilterState.t) : FilterState.t :=
  {| FilterState.minQuality := FilterState.minQuality prev;
     FilterState.shotType := FilterState.shotType prev;
     FilterState.activeTags := toggleTag tag (FilterState.activeTags prev) |}.

End Filtering.

Example filter_good_floor :
  map id (filteredFrames (fun s => s) view_all sub_all false
            (FilterState.mk "Good" "All" [])
            [analysedKeeper; enhancedKeeper; unanalysedKeeper;
             {| id := "f"; timestamp := 1; imageUrl := "x";
                analysis := Some fallbackAnalysis; isSelected := false;
                isProcessing := false; enhancedUrl := None; isEnhancing := None;
                appliedEnhancements := Some [] |}])
  = ["c"; "e"].
Proof. reflexivity. Qed.

Example chips_of_two_frames :
  smartChips [analysedKeeper; enhancedKeeper; unanalysedKeeper]
  = ["Beach"; "Child Red Hat"].
Proof. reflexivity. Qed.

Section FilterFacts.

Variable toLowerCase : string -> string.
Variable libraryView : LibraryView.
Variable isExtracting : bool.

(** The view and the sub-view are tests of their own in front of the
    filters proper. *)
Lemma isVisible_split (sub : LibraryFilter) (filters : FilterState.t)
      (frame : VideoFrame) :
  isVisible toLowerCase libraryView sub isExtracting filters frame
  = match libraryView with view_library => isSelected frame | view_all => true end
    && match sub with
       | sub_enhanced => hasEnhancements frame
       | sub_original => negb (hasEnhancements frame)
       | sub_all => true
       end
    && isVisible toLowerCase view_all sub_all isExtracting filters frame.
Proof.
  unfold isVisible.
  destruct libraryView, sub, (isSelected frame), (hasEnhancements frame); reflexivity.
Qed.

(** The three sub-views: a frame shown under "All" is shown under exactly
    one of "Enhanced" and "Originals", according to whether its history of
    applied styles is non-empty; and the library view shows the frames the
    full view shows that are selected. *)
Theorem subviews_split_the_view :
  forall (filters : FilterState.t) (frame : VideoFrame),
    isVisible toLowerCase libraryView sub_all isExtracting filters frame
    = isVisible toLowerCase libraryView sub_enhanced isExtracting filters frame
      || isVisible toLowerCase libraryView sub_original isExtracting filters frame /\
    isVisible toLowerCase libraryView sub_enhanced isExtracting filters frame
    = isVisible toLowerCase libraryView sub_all isExtracting filters frame && hasEnhancements frame /\
    isVisible toLowerCase libraryView sub_original isExtracting filters frame
    = isVisible toLowerCase libraryView sub_all isExtracting filters frame
      && negb (hasEnhancements frame) /\
    (forall sub, isVisible toLowerCase view_library sub isExtracting filters frame
                 = isVisible toLowerCase view_all sub isExtracting filters frame && isSelected frame).
Proof.
  intros filters frame. rewrite !isVisible_split.
  assert (Hlib : forall sub,
             isVisible toLowerCase view_library sub isExtracting filters frame
             = isVisible toLowerCase view_all sub isExtracting filters frame
               && isSelected frame).
  { intros sub. unfold isVisible.
    destruct sub, (isSelected frame), (hasEnhancements frame); cbn [negb andb];
      rewrite ?andb_true_r, ?andb_false_r; reflexivity. }
  repeat split; try exact Hlib;
    destruct libraryView, (isSelected frame), (hasEnhancements frame),
             (isVisible toLowerCase view_all sub_all isExtracting filters frame);
    reflexivity.
Qed.

Lemma qualityOrder_cases (q : option string) :
  (q = Some FrameQuality.FAIR /\ qualityOrder q = Some 1%nat)
  \/ (q = Some FrameQuality.GOOD /\ qualityOrder q = Some 2%nat)
  \/ (q = Some FrameQuality.EXCELLENT /\ qualityOrder q = Some 3%nat)
  \/ (q = Some FrameQuality.PENDING /\ qualityOrder q = Some 0%nat)
  \/ qualityOrder q = None.
Proof.
  destruct q as [s|]; [|now right; right; right; right].
  unfold qualityOrder.
  destruct (String.eqb_spec s FrameQuality.FAIR) as [->|_]; [now left|].
  destruct (String.eqb_spec s FrameQuality.GOOD) as [->|_]; [now right; left|].
  destruct (String.eqb_spec s FrameQuality.EXCELLENT) as [->|_];
    [now right; right; left|].
  destruct (String.eqb_spec s FrameQuality.PENDING) as [->|_];
    [now right; right; right; left|].
  now right; right; right; right.
Qed.

(** The quality floor.  With the floor Good, no analysed frame of quality
    Fair or Pending is shown; with the floor Excellent, none of quality
    Fair, Good or Pending.  Raising the floor only hides frames.  A frame of
    quality Excellent passes every floor, and so does a frame whose quality
    is none of the four names (its rank is [undefined], which is below
    nothing). *)
Theorem quality_floor :
  forall (sub : LibraryFilter) (shot : string) (active : list string)
         (frame : VideoFrame) (a : AIAnalysis),
    analysis frame = Some a ->
    let shown := fun floor =>
      isVisible toLowerCase libraryView sub isExtracting (FilterState.mk floor shot active) frame in
    (shown FrameQuality.GOOD = true ->
     quality a <> Some FrameQuality.FAIR /\ quality a <> Some FrameQuality.PENDING) /\
    (shown FrameQuality.EXCELLENT = true ->
     quality a <> Some FrameQuality.FAIR /\ quality a <> Some FrameQuality.GOOD /\
     quality a <> Some FrameQuality.PENDING) /\
    (shown FrameQuality.EXCELLENT = true -> shown FrameQuality.GOOD = true) /\
    (shown FrameQuality.GOOD = true -> shown "All" = true) /\
    (quality a = Some FrameQuality.EXCELLENT \/ qualityOrder (quality a) = None ->
     forall floor, shown floor = shown "All").
Proof.
  intros sub shot active frame a Ha shown.
  set (rest := if negb (String.eqb shot "All") && negb (strict_eq (shotType a) shot)
               then false
               else if match active with [] => false | _ => true end
                       && negb (someTagMatches toLowerCase active a)
                    then false else true).
  set (pre := match libraryView with view_library => isSelected frame | view_all => true end
              && match sub with
                 | sub_enhanced => hasEnhancements frame
                 | sub_original => negb (hasEnhancements frame)
                 | sub_all => true
                 end).
  assert (Hshown : forall floor,
             shown floor
             = pre && (if negb (String.eqb floor "All")
                          && rank_lt (qualityOrder (quality a)) (qualityOrder (Some floor))
                       then false else rest)).
  { intros floor. unfold shown. rewrite isVisible_split. fold pre. f_equal.
    unfold isVisible. rewrite Ha. reflexivity. }
  rewrite !Hshown.
  change (String.eqb FrameQuality.GOOD "All") with false.
  change (String.eqb FrameQuality.EXCELLENT "All") with false.
  change (String.eqb "All" "All") with true.
  change (qualityOrder (Some FrameQuality.GOOD)) with (Some 2%nat).
  change (qualityOrder (Some FrameQuality.EXCELLENT)) with (Some 3%nat).
  cbn [negb andb].
  assert (Hfloor : forall floor,
             quality a = Some FrameQuality.EXCELLENT \/ qualityOrder (quality a) = None ->
             rank_lt (qualityOrder (quality a)) (qualityOrder (Some floor)) = false).
  { intros floor [Hq|Hq].
    - rewrite Hq. change (qualityOrder (Some FrameQuality.EXCELLENT)) with (Some 3%nat).
      destruct (qualityOrder_cases (Some floor))
        as [[_ Hr]|[[_ Hr]|[[_ Hr]|[[_ Hr]|Hr]]]]; rewrite Hr; reflexivity.
    - rewrite Hq. reflexivity. }
  split; [|split; [|split; [|split]]].
  - destruct (qualityOrder_cases (quality a))
      as [[Hq Hr]|[[Hq Hr]|[[Hq Hr]|[[Hq Hr]|Hr]]]]; rewrite Hr; cbn [rank_lt Nat.ltb Nat.leb];
      rewrite ?andb_false_r; try discriminate; intros _; split; intros Hc;
      rewrite Hc in *; discriminate.
  - destruct (qualityOrder_cases (quality a))
      as [[Hq Hr]|[[Hq Hr]|[[Hq Hr]|[[Hq Hr]|Hr]]]]; rewrite Hr; cbn [rank_lt Nat.ltb Nat.leb];
      rewrite ?andb_false_r; try discriminate; intros _; repeat split; intros Hc;
      rewrite Hc in *; discriminate.
  - destruct (qualityOrder_cases (quality a))
      as [[Hq Hr]|[[Hq Hr]|[[Hq Hr]|[[Hq Hr]|Hr]]]]; rewrite Hr; cbn [rank_lt Nat.ltb Nat.leb];
      rewrite ?andb_false_r; try discriminate; intros H; exact H.
  - destruct (qualityOrder_cases (quality a))
      as [[Hq Hr]|[[Hq Hr]|[[Hq Hr]|[[Hq Hr]|Hr]]]]; rewrite Hr; cbn [rank_lt Nat.ltb Nat.leb];
      rewrite ?andb_false_r; try discriminate; intros H; exact H.
  - intros Hq floor. rewrite !Hshown.
    rewrite (Hfloor floor Hq), ?(Hfloor "All" Hq), !andb_false_r. reflexivity.
Qed.

(** A frame without analysis is shown while a scan runs and never after it,
    whatever the quality, shot-type and tag filters are. *)
Theorem unanalysed_frames_visibility :
  forall (sub : LibraryFilter) (filters filters' : FilterState.t) (frame : VideoFrame),
    analysis frame = None ->
    isVisible toLowerCase libraryView sub false filters frame = false /\
    isVisible toLowerCase libraryView sub isExtracting filters frame
    = isVisible toLowerCase libraryView sub isExtracting filters' frame.
Proof.
  intros sub filters filters' frame Ha. unfold isVisible. rewrite Ha.
  split; repeat match goal with
                | |- context [if ?x then _ else _] => destruct x
                end; reflexivity.
Qed.

(** The tag filter has OR semantics: a frame shown when one tag alone is
    active stays shown when further tags are active with it; and with no
    active tag the filter hides nothing. *)
Theorem tag_filter_is_disjunctive :
  forall (sub : LibraryFilter) (floor shot : string) (tag : string)
         (active : list string) (frame : VideoFrame),
    In tag active ->
    isVisible toLowerCase libraryView sub isExtracting (FilterState.mk floor shot [tag]) frame = true ->
    isVisible toLowerCase libraryView sub isExtracting (FilterState.mk floor shot active) frame = true /\
    isVisible toLowerCase libraryView sub isExtracting (FilterState.mk floor shot []) frame = true.
Proof.
  intros sub floor shot tag active frame Hin. unfold isVisible.
  cbn [FilterState.minQuality FilterState.shotType FilterState.activeTags].
  repeat match goal with
         | |- context [if ?x then false else _] =>
           lazymatch x with
           | context [someTagMatches] => fail
           | _ => destruct x; [intros H; discriminate H|]
           end
         end.
  destruct (analysis frame) as [a|]; [|auto].
  repeat match goal with
         | |- context [if ?x then false else _] =>
           lazymatch x with
           | context [someTagMatches] => fail
           | _ => destruct x; [intros H; discriminate H|]
           end
         end.
  cbn [andb]. intros Hone. split; [|reflexivity].
  destruct (someTagMatches toLowerCase [tag] a) eqn:Hm; [|discriminate Hone].
  assert (Hall : someTagMatches toLowerCase active a = true).
  { unfold someTagMatches in *. cbn [existsb] in Hm. rewrite orb_false_r in Hm.
    apply existsb_exists. exists tag. split; assumption. }
  rewrite Hall. destruct active; reflexivity.
Qed.

End FilterFacts.

Lemma quality_floor_witness :
  isVisible (fun s => s) view_all sub_all false
            (FilterState.mk FrameQuality.GOOD "All" []) analysedKeeper = true /\
  quality goodAnalysis <> Some FrameQuality.FAIR.
Proof.
  split; [reflexivity|].
  exact (proj1 (proj1 (quality_floor (fun s => s) view_all false sub_all "All" []
                                     analysedKeeper goodAnalysis eq_refl)
                      eq_refl)).
Defined.

Lemma unanalysed_frames_visibility_witness :
  isVisible (fun s => s) view_library sub_all false
            (FilterState.mk "All" "All" []) unanalysedKeeper = false.
Proof.
  exact (proj1 (unanalysed_frames_visibility
                  (fun s => s) view_library false sub_all
                  (FilterState.mk "All" "All" []) (FilterState.mk "All" "All" [])
                  unanalysedKeeper eq_refl)).
Defined.

Lemma tag_filter_is_disjunctive_witness :
  isVisible (fun s => s) view_all sub_all false
            (FilterState.mk "All" "All" ["Snow"; "Beach"]) analysedKeeper = true.
Proof.
  refine (proj1 (tag_filter_is_disjunctive
                   (fun s => s) view_all false sub_all "All" "All" "Beach"
                   ["Snow"; "Beach"] analysedKeeper _ eq_refl)).
  right. left. reflexivity.
Defined.

(* ------------------------------------------------------------------ *)
(** ** The smart chips *)

Lemma set_add_In (x y : string) (s : list string) :
  In x (set_add y s) <-> x = y \/ In x s.
Proof.
  unfold set_add. destruct (existsb (String.eqb y) s) eqn:Hex.
  - split; [now right|]. intros [->|H]; [|assumption].
    apply existsb_exists in Hex. destruct Hex as [z [Hz Heq]].
    apply String.eqb_eq in Heq. now subst z.
  - rewrite in_app_iff. cbn. intuition.
Qed.

Lemma set_add_NoDup (y : string) (s : list string) :
  NoDup s -> NoDup (set_add y s).
Proof.
  intros Hnd. unfold set_add. destruct (existsb (String.eqb y) s) eqn:Hex; [assumption|].
  apply NoDup_app; [assumption | repeat constructor; intros [] |].
  intros x Hx [Heq|[]]. subst x.
  assert (existsb (String.eqb y) s = true); [|congruence].
  apply existsb_exists. exists y. split; [assumption|apply String.eqb_refl].
Qed.

Lemma fold_set_add_In (x : string) (ts acc : list string) :
  In x (fold_left (fun acc t => set_add t acc) ts acc) <-> In x ts \/ In x acc.
Proof.
  revert acc. induction ts as [|t ts IH]; intros acc; cbn [fold_left].
  - cbn. intuition.
  - rewrite IH, set_add_In. cbn. intuition.
Qed.

Lemma fold_set_add_NoDup (ts acc : list string) :
  NoDup acc -> NoDup (fold_left (fun acc t => set_add t acc) ts acc).
Proof.
  revert acc. induction ts as [|t ts IH]; intros acc Hnd; cbn [fold_left];
    [assumption|]. apply IH. now apply set_add_NoDup.
Qed.

(** The names one frame contributes: its tags, and its subject id with
    underscores turned into spaces when it has a non-empty one. *)
Definition contributes (f : VideoFrame) (x : string) : Prop :=
  exists a, analysis f = Some a /\
            (In x (tags a)
             \/ exists sid, subjectId a = Some sid /\ sid <> "" /\ x = replaceUnderscores sid).

Lemma contributes_analysed (f : VideoFrame) (a : AIAnalysis) (x : string) :
  analysis f = Some a ->
  contributes f x
  <-> In x (tags a)
      \/ exists sid, subjectId a = Some sid /\ sid <> "" /\ x = replaceUnderscores sid.
Proof.
  intros Ha. unfold contributes. split.
  - intros [a' [Ha' H]]. rewrite Ha in Ha'. injection Ha' as <-. exact H.
  - intros H. exists a. split; [exact Ha|exact H].
Qed.

Lemma addFrameTags_In (x : string) (acc : list string) (f : VideoFrame) :
  In x (addFrameTags acc f) <-> contributes f x \/ In x acc.
Proof.
  unfold addFrameTags. destruct (analysis f) as [a|] eqn:Ha.
  - rewrite (contributes_analysed f a x Ha).
    unfold truthy, or_string. destruct (subjectId a) as [sid|] eqn:Hs.
    + destruct (String.eqb_spec sid "") as [He|Hne]; cbn [negb].
      * rewrite fold_set_add_In. split.
        -- intros [H|H]; [left; now left | now right].
        -- intros [[H|[sid' [Hs' [Hne' _]]]]|H]; [now left| |now right].
           injection Hs' as <-. now elim Hne'.
      * rewrite set_add_In, fold_set_add_In. split.
        -- intros [Hx|[H|H]]; [|left; now left|now right].
           left. right. exists sid. repeat split; assumption.
        -- intros [[H|[sid' [Hs' [_ Hx]]]]|H]; [right; now left| |right; now right].
           injection Hs' as <-. now left.
    + rewrite fold_set_add_In. split.
      * intros [H|H]; [left; now left | now right].
      * intros [[H|[sid' [Hs' _]]]|H]; [now left|discriminate Hs'|now right].
  - split; [now right|]. intros [[a [Ha' _]]|H]; [congruence|assumption].
Qed.

Lemma addFrameTags_NoDup (acc : list string) (f : VideoFrame) :
  NoDup acc -> NoDup (addFrameTags acc f).
Proof.
  intros Hnd. unfold addFrameTags. destruct (analysis f) as [a|]; [|assumption].
  destruct (truthy (subjectId a)); [apply set_add_NoDup|]; now apply fold_set_add_NoDup.
Qed.

Lemma fold_addFrameTags_In (x : string) (frames : list VideoFrame) (acc : list string) :
  In x (fold_left addFrameTags frames acc)
  <-> (exists f, In f frames /\ contributes f x) \/ In x acc.
Proof.
  revert acc. induction frames as [|f frames IH]; intros acc; cbn [fold_left].
  - split; [now right|]. intros [[f [[] _]]|H]; assumption.
  - rewrite IH, addFrameTags_In. split.
    + intros [[g [Hg Hc]]|[Hc|H]].
      * left. exists g. split; [now right|assumption].
      * left. exists f. split; [now left|assumption].
      * now right.
    + intros [[g [[<-|Hg] Hc]]|H].
      * right. now left.
      * left. now exists g.
      * right. now right.
Qed.

Lemma fold_addFrameTags_NoDup (frames : list VideoFrame) (acc : list string) :
  NoDup acc -> NoDup (fold_left addFrameTags frames acc).
Proof.
  revert acc. induction frames as [|f frames IH]; intros acc Hnd; cbn [fold_left];
    [assumption|]. apply IH. now apply addFrameTags_NoDup.
Qed.

Lemma firstn_In {A : Type} (n : nat) (l : list A) (x : A) :
  In x (firstn n l) -> In x l.
Proof.
  revert n. induction l as [|y l IH]; intros n Hin.
  - rewrite firstn_nil in Hin. exact Hin.
  - destruct n as [|n]; [contradiction|]. cbn [firstn] in Hin.
    destruct Hin as [<-|Hin]; [now left|right; now apply (IH n)].
Qed.

Lemma firstn_NoDup {A : Type} (n : nat) (l : list A) : NoDup l -> NoDup (firstn n l).
Proof.
  revert n. induction l as [|x l IH]; intros n Hnd.
  - rewrite firstn_nil. constructor.
  - destruct n as [|n]; [constructor|]. cbn [firstn].
    inversion Hnd as [|y m Hnotin Hnd']; subst. constructor.
    + intros Hin. apply Hnotin. now apply (firstn_In n).
    + now apply IH.
Qed.

Lemma includes_refl (s : string) : includes s s = true.
Proof.
  assert (Hpre : String.prefix s s = true).
  { induction s as [|c s IH]; [reflexivity|]. cbn [String.prefix].
    destruct (ascii_dec c c) as [_|Hne]; [exact IH|now elim Hne]. }
  destruct s; cbn [includes]; rewrite Hpre; reflexivity.
Qed.

(** The smart chips are at most eight distinct names; each is a tag of an
    analysed frame or the humanized subject id of one; when the frames
    carry at most eight distinct names, every one of them is a chip.  A
    chip is never idle: with that chip as the only active tag (and no other
    filter), the frame it came from is shown. *)
Theorem smartChips_spec :
  forall (toLowerCase : string -> string) (frames : list VideoFrame),
    NoDup (smartChips frames) /\
    (List.length (smartChips frames) <= 8)%nat /\
    (forall chip, In chip (smartChips frames) ->
                  exists f, In f frames /\ contributes f chip /\
                            isVisible toLowerCase view_all sub_all false
                                      (FilterState.mk "All" "All" [chip]) f = true) /\
    ((List.length (allTags frames) <= 8)%nat ->
     forall f x, In f frames -> contributes f x -> In x (smartChips frames)).
Proof.
  intros toLowerCase frames. unfold smartChips.
  split; [apply firstn_NoDup, fold_addFrameTags_NoDup; constructor|].
  split; [apply firstn_le_length|]. split.
  - intros chip Hchip. apply firstn_In in Hchip.
    unfold allTags in Hchip. apply fold_addFrameTags_In in Hchip.
    destruct Hchip as [[f [Hf Hc]]|[]]. exists f. split; [assumption|].
    split; [assumption|].
    destruct Hc as [a [Ha Hsrc]]. unfold isVisible. rewrite Ha.
    cbn [isSelected negb andb FilterState.minQuality FilterState.shotType
         FilterState.activeTags String.eqb].
    change (String.eqb "All" "All") with true. cbn [negb andb].
    replace (someTagMatches toLowerCase [chip] a) with true; [reflexivity|].
    symmetry. unfold someTagMatches. cbn [existsb]. rewrite orb_false_r.
    apply existsb_exists. exists chip. split; [|apply includes_refl].
    unfold frameTags. apply in_app_iff.
    destruct Hsrc as [Htag|[sid [Hsid [Hne ->]]]]; [now left|].
    right. left. rewrite Hsid. cbn [humanized or_string].
    destruct (String.eqb_spec (replaceUnderscores sid) "") as [He|_]; [|reflexivity].
    destruct sid; [now elim Hne|discriminate He].
  - intros Hlen f x Hf Hc. rewrite firstn_all2 by assumption.
    unfold allTags. apply fold_addFrameTags_In. left. now exists f.
Qed.

(* ------------------------------------------------------------------ *)
(** ** Toggling a tag filter *)

(** Toggling a tag flips whether it is active and leaves the other tags, the
    quality floor and the shot type alone; a list of active tags without
    repetition stays without repetition. *)
Theorem toggleTagFilter_spec :
  forall (tag : string) (prev : FilterState.t),
    let next := toggleTagFilter tag prev in
    (In tag (FilterState.activeTags next) <-> ~ In tag (FilterState.activeTags prev)) /\
    (forall t, t <> tag ->
               (In t (FilterState.activeTags next) <-> In t (FilterState.activeTags prev))) /\
    (NoDup (FilterState.activeTags prev) -> NoDup (FilterState.activeTags next)) /\
    FilterState.minQuality next = FilterState.minQuality prev /\
    FilterState.shotType next = FilterState.shotType prev.
Proof.
  intros tag prev next. unfold next, toggleTagFilter, toggleTag.
  cbn [FilterState.activeTags FilterState.minQuality FilterState.shotType].
  set (active := FilterState.activeTags prev).
  assert (Hmem : existsb (String.eqb tag) active = true <-> In tag active).
  { rewrite existsb_exists. split.
    - intros [x [Hx Heq]]. apply String.eqb_eq in Heq. now subst x.
    - intros Hin. exists tag. split; [assumption|apply String.eqb_refl]. }
  destruct (existsb (String.eqb tag) active) eqn:Hex.
  - assert (Hin : In tag active) by now apply Hmem.
    repeat split.
    + intros Hf. apply filter_In in Hf. destruct Hf as [_ Hf].
      rewrite String.eqb_refl in Hf. discriminate Hf.
    + intros Hnot. contradiction.
    + intros Hf. apply filter_In in Hf. tauto.
    + intros Ht. apply filter_In. split; [assumption|].
      apply negb_true_iff. now apply String.eqb_neq.
    + intros Hnd. now apply NoDup_filter.
  - assert (Hnot : ~ In tag active).
    { intros Hin. apply Hmem in Hin. discriminate Hin. }
    repeat split.
    + intros _. assumption.
    + intros _. apply in_app_iff. right. now left.
    + intros Ht. apply in_app_iff in Ht. destruct Ht as [Ht|[Ht|[]]]; [assumption|].
      now elim H.
    + intros Ht. apply in_app_iff. now left.
    + intros Hnd. apply NoDup_app; [assumption | repeat constructor; intros [] |].
      intros x Hx [Heq|[]]. subst x. contradiction.
Qed.

(* ================================================================== *)
(** * Further properties of the scan *)

Section ScanFacts.

Variable randomUUID : nat -> string.
Variable toDataURL : Q -> string.
Variables endTime step : float.

(** A frame as the scan makes it. *)
Definition isFresh (f : VideoFrame) : Prop :=
  analysis f = None /\ isSelected f = false /\ isProcessing f = true /\
  enhancedUrl f = None /\ isEnhancing f = None /\ appliedEnhancements f = Some [] /\
  imageUrl f = toDataURL (timestamp f).

Lemma scanLoop_fresh (fuel : nat) :
  forall (count : nat) (t : float),
    Forall isFresh (scanLoop randomUUID toDataURL fuel count t endTime step).
Proof.
  induction fuel as [|fuel IH]; intros count t; cbn [scanLoop]; [constructor|].
  destruct ((t <? endTime)%float && (count <? maxFrames)%nat); constructor.
  - repeat split.
  - apply IH.
Qed.

Lemma scanLoop_ids (fuel : nat) :
  forall (count : nat) (t : float),
    map id (scanLoop randomUUID toDataURL fuel count t endTime step)
    = map randomUUID
          (seq count (List.length (scanLoop randomUUID toDataURL fuel count t endTime step))).
Proof.
  induction fuel as [|fuel IH]; intros count t; cbn [scanLoop]; [reflexivity|].
  destruct ((t <? endTime)%float && (count <? maxFrames)%nat); [|reflexivity].
  cbn [map List.length seq id newFrame]. f_equal. apply IH.
Qed.

End ScanFacts.

Lemma NoDup_map_injective {A B : Type} (f : A -> B) (l : list A) :
  (forall i j, f i = f j -> i = j) -> NoDup l -> NoDup (map f l).
Proof.
  intros Hinj Hnd. induction Hnd as [|x l Hnotin Hnd IH]; cbn [map]; constructor.
  - intros Hin. apply in_map_iff in Hin. destruct Hin as [y [Hy Hin]].
    apply Hinj in Hy. subst y. contradiction.
  - exact IH.
Qed.

(** One scan.  Every frame it makes is a fresh pending frame (no analysis,
    not selected, [isProcessing] set, no enhancement, image captured at its
    timestamp); the ids are the successive values of [crypto.randomUUID()],
    hence pairwise distinct when those are; and a scan that makes [n] frames,
    [n] below the cap of 50, stopped on its time test: [startTime] with
    [Math.max(1, interval)] added [n] times, each sum rounded to the nearest
    double, is not below [endTime]. *)
Theorem scan_frames_spec :
  forall (randomUUID : nat -> string) (toDataURL : Q -> string)
         (scanSettings : ScanSettings) (duration : float),
    let startTime := fst (scanWindow (range scanSettings) duration) in
    let endTime := snd (scanWindow (range scanSettings) duration) in
    let step := Math_max 1 (interval scanSettings) in
    let made := startExtraction randomUUID toDataURL scanSettings duration in
    Forall (isFresh toDataURL) made /\
    map id made = map randomUUID (seq 0 (List.length made)) /\
    ((forall i j, randomUUID i = randomUUID j -> i = j) -> NoDup (map id made)) /\
    ((List.length made < maxFrames)%nat ->
     (timeOfPass startTime step (List.length made) <? endTime)%float = false).
Proof.
  intros randomUUID toDataURL scanSettings duration startTime endTime step made.
  assert (Hmade : made = scanLoop randomUUID toDataURL maxFrames 0 startTime endTime step).
  { unfold made, startExtraction, startTime, endTime, step.
    destruct (scanWindow (range scanSettings) duration) as [s e]. reflexivity. }
  rewrite Hmade. clear Hmade made.
  split; [apply scanLoop_fresh|]. split; [apply scanLoop_ids|]. split.
  - intros Hinj. rewrite scanLoop_ids. apply NoDup_map_injective.
    + exact Hinj.
    + apply seq_NoDup.
  - intros Hlt.
    apply (scan_stops randomUUID toDataURL endTime step maxFrames 0 startTime);
      [exact Hlt | cbn [Nat.add]; exact Hlt].
Qed.

(* ================================================================== *)
(** * App.tsx: formatDuration *)

(** [n.toString()] for an integer [n]. *)
Definition intToString (n : Z) : string :=
  if (n <? 0)%Z then "-" ++ digits (- n) else digits n.

(** [s.padStart(2, '0')] *)
Definition padStart2 (s : string) : string :=
  zeros (2 - String.length s) ++ s.

(** [Math.trunc], and the remainder [a % b] of JavaScript, which takes the
    sign of [a]. *)
Definition Qtrunc (x : Q) : Z := if Qltb x 0 then Qceiling x else Qfloor x.
Definition js_rem (a b : Q) : Q := a - b * inject_Z (Qtrunc (a / b)).

Definition formatDuration (seconds : Q) : string :=
  let m := Qfloor (seconds / 60) in
  let s := Qfloor (js_rem seconds 60) in
  padStart2 (intToString m) ++ ":" ++ padStart2 (intToString s).

Example formatDuration_examples :
  formatDuration 0 = "00:00" /\ formatDuration (755 # 10) = "01:15" /\
  formatDuration 3599 = "59:59" /\ formatDuration 6000 = "100:00".
Proof. repeat split. Qed.






(* ================================================================== *)
(** * services/storageService.ts and the persistence effects of App.tsx *)

(** A frame as it is held in IndexedDB and handed to [initLoad], which
    reads it as [any]: a record written by an earlier version of the
    application lacks the properties added to [AIAnalysis] and [VideoFrame]
    since, which is what the defaults of [initLoad] are for.  The
    properties every version of [VideoFrame] has ([id], [timestamp],
    [imageUrl], [analysis], [isSelected], [isProcessing]) are there; any
    other property, and any property of the analysis, can be missing and is
    an [option]; [analysis] is [None] for [null]. *)
Module stored.
Record analysis_t : Type := mkAnalysis {
  quality : option string;
  qualityReason : option string;
  people : option (list string);
  shotType : option string;
  tags : option (list string);
  compositionScore : option Q;
  technicalAdvice : option string;
  subjectId : option string
}.
Record frame : Type := mkFrame {
  id : string;
  timestamp : Q;
  imageUrl : string;
  analysis : option analysis_t;
  isSelected : bool;
  isProcessing : bool;
  enhancedUrl : option string;
  isEnhancing : option bool;
  appliedEnhancements : option (list string)
}.
End stored.

(** The record [db.put] stores for a frame of the application (its
    structured clone): every property of [AIAnalysis] is there. *)
Definition storedAnalysis (a : AIAnalysis) : stored.analysis_t :=
  {| stored.quality := quality a; stored.qualityReason := qualityReason a;
     stored.people := Some (people a);
     stored.shotType := shotType a;
     stored.tags := Some (tags a);
     stored.compositionScore := Some (compositionScore a);
     stored.technicalAdvice := Some (technicalAdvice a);
     stored.subjectId := subjectId a |}.

Definition storedFrame (f : VideoFrame) : stored.frame :=
  {| stored.id := id f; stored.timestamp := timestamp f; stored.imageUrl := imageUrl f;
     stored.analysis := option_map storedAnalysis (analysis f);
     stored.isSelected := isSelected f; stored.isProcessing := isProcessing f;
     stored.enhancedUrl := enhancedUrl f; stored.isEnhancing := isEnhancing f;
     stored.appliedEnhancements := appliedEnhancements f |}.

(** A record of the object store [projects], whose key path is [id]. *)
Record Project : Type := mkProject {
  project_id : string;
  project_frames : list stored.frame;
  updatedAt : Z
}.

(** The object store: its records, at most one per key. *)
Definition ObjectStore : Type := list Project.

Definition PROJECT_KEY : string := "current_project".

(** [db.put(STORE_NAME, record)]: the record replaces the one of its key. *)
Definition db_put (db : ObjectStore) (record : Project) : ObjectStore :=
  record :: filter (fun r => negb (String.eqb (project_id r) (project_id record))) db.

(** [db.get(STORE_NAME, key)] *)
Definition db_get (db : ObjectStore) (key : string) : option Project :=
  find (fun r => String.eqb (project_id r) key) db.

(** [db.delete(STORE_NAME, key)] *)
Definition db_delete (db : ObjectStore) (key : string) : ObjectStore :=
  filter (fun r => negb (String.eqb (project_id r) key)) db.

(** [saveProject(frames)], with [now] the value of [Date.now()]. *)
Definition saveProject (now : Z) (frames : list VideoFrame) (db : ObjectStore)
  : ObjectStore :=
  db_put db {| project_id := PROJECT_KEY; project_frames := map storedFrame frames;
               updatedAt := now |}.

(** [loadProject()] *)
Definition loadProject (db : ObjectStore) : list stored.frame :=
  match db_get db PROJECT_KEY with
  | Some project => project_frames project
  | None => []
  end.

(** [clearProject()] *)
Definition clearProject (db : ObjectStore) : ObjectStore :=
  db_delete db PROJECT_KEY.

(** The effect [useEffect(() => { if (frames.length > 0) saveProject(frames) },
    [frames])]. *)
Definition saveEffect (now : Z) (frames : list VideoFrame) (db : ObjectStore)
  : ObjectStore :=
  match frames with
  | [] => db
  | _ :: _ => saveProject now frames db
  end.

(** [x ?? dflt] on a possibly missing number: only [undefined] and [null]
    are replaced, 0 is kept. *)
Definition nullish_number (x : option Q) (dflt : Q) : Q :=
  match x with
  | Some q => q
  | None => dflt
  end.

(** The defaults [initLoad] puts on a loaded frame:
    [{...f.analysis, tags: f.analysis.tags || [], people: f.analysis.people || [],
      technicalAdvice: f.analysis.technicalAdvice || "No advice available",
      compositionScore: f.analysis.compositionScore ?? 5}]. *)
Definition sanitizeAnalysis (a : stored.analysis_t) : AIAnalysis :=
  {| quality := stored.quality a; qualityReason := stored.qualityReason a;
     people := or_array (stored.people a);
     shotType := stored.shotType a;
     tags := or_array (stored.tags a);
     compositionScore := nullish_number (stored.compositionScore a) 5;
     technicalAdvice := or_string (stored.technicalAdvice a) "No advice available";
     subjectId := stored.subjectId a |}.

(** [{...f, analysis: f.analysis ? {...} : null,
      appliedEnhancements: f.appliedEnhancements || []}] *)
Definition sanitizeFrame (f : stored.frame) : VideoFrame :=
  {| id := stored.id f; timestamp := stored.timestamp f; imageUrl := stored.imageUrl f;
     analysis := match stored.analysis f with
                 | Some a => Some (sanitizeAnalysis a)
                 | None => None
                 end;
     isSelected := stored.isSelected f; isProcessing := stored.isProcessing f;
     enhancedUrl := stored.enhancedUrl f; isEnhancing := stored.isEnhancing f;
     appliedEnhancements := Some (or_array (stored.appliedEnhancements f)) |}.

(** [initLoad()] on the state [(frames, videoUrl)]. *)
Definition initLoad (db : ObjectStore) (state : list VideoFrame * option string)
  : list VideoFrame * option string :=
  match loadProject db with
  | [] => state
  | loadedFrames => (map sanitizeFrame loadedFrames, Some "restored")
  end.

(** A frame that [initLoad] gives back as it was saved. *)
Definition persistable (f : VideoFrame) : Prop :=
  appliedEnhancements f <> None /\
  forall a, analysis f = Some a -> technicalAdvice a <> "".

(** A record of an earlier version: analysed before [compositionScore],
    [technicalAdvice] and [appliedEnhancements] were there. *)
Definition legacyRecord : stored.frame :=
  {| stored.id := "old"; stored.timestamp := 12;
     stored.imageUrl := "data:image/jpeg;base64,OLD";
     stored.analysis :=
       Some {| stored.quality := Some FrameQuality.GOOD;
               stored.qualityReason := Some "Sharp";
               stored.people := None; stored.shotType := Some ShotType.POSE;
               stored.tags := None; stored.compositionScore := None;
               stored.technicalAdvice := None; stored.subjectId := None |};
     stored.isSelected := true; stored.isProcessing := false;
     stored.enhancedUrl := None; stored.isEnhancing := None;
     stored.appliedEnhancements := None |}.

Lemma sanitizeAnalysis_fixed (a : AIAnalysis) :
  technicalAdvice a <> "" -> sanitizeAnalysis (storedAnalysis a) = a.
Proof.
  intros Hne. destruct a as [q qr p st t cs ta sid]. cbn in *.
  unfold sanitizeAnalysis, storedAnalysis, or_string. cbn.
  destruct (String.eqb_spec ta ""); [contradiction|reflexivity].
Qed.

Lemma sanitizeFrame_fixed (f : VideoFrame) :
  persistable f -> sanitizeFrame (storedFrame f) = f.
Proof.
  intros [Happ Hadv]. destruct f as [i t u a sel pr e en app]. cbn in *.
  unfold sanitizeFrame, storedFrame. cbn.
  destruct app as [l|]; [|now elim Happ].
  destruct a as [a|]; [|reflexivity].
  cbn [option_map]. rewrite (sanitizeAnalysis_fixed a (Hadv a eq_refl)). reflexivity.
Qed.

Lemma sanitizeFrame_persistable (f : stored.frame) : persistable (sanitizeFrame f).
Proof.
  split; [discriminate|]. intros a. unfold sanitizeFrame. cbn [analysis].
  destruct (stored.analysis f) as [a0|]; [|discriminate]. intros [= <-].
  cbn [technicalAdvice sanitizeAnalysis]. apply or_string_nonempty. discriminate.
Qed.

Lemma loadProject_saveProject (now : Z) (frames : list VideoFrame) (db : ObjectStore) :
  loadProject (saveProject now frames db) = map storedFrame frames.
Proof. reflexivity. Qed.

(** Saving a non-empty collection of persistable frames and loading it
    again gives back the collection exactly, frame for frame and field for
    field, whatever the object store held before, and marks the video as
    restored. *)
Theorem save_then_initLoad_roundtrip :
  forall (now : Z) (frames : list VideoFrame) (db : ObjectStore)
         (state : list VideoFrame * option string),
    frames <> [] ->
    Forall persistable frames ->
    initLoad (saveEffect now frames db) state = (frames, Some "restored").
Proof.
  intros now frames db state Hne Hall. unfold initLoad, saveEffect.
  destruct frames as [|f frames]; [now elim Hne|].
  rewrite loadProject_saveProject. cbn [map]. rewrite <- (map_cons sanitizeFrame).
  rewrite <- (map_cons storedFrame), map_map. f_equal.
  transitivity (map (fun x : VideoFrame => x) (f :: frames)); [|apply map_id].
  apply map_ext_in. intros g Hg. apply sanitizeFrame_fixed.
  rewrite Forall_forall in Hall. now apply Hall.
Qed.

Lemma save_then_initLoad_roundtrip_witness :
  initLoad (saveEffect 0 [analysedKeeper; unanalysedKeeper] [] ) ([], None)
  = ([analysedKeeper; unanalysedKeeper], Some "restored").
Proof.
  refine (save_then_initLoad_roundtrip 0 [analysedKeeper; unanalysedKeeper] []
                                       ([], None) _ _).
  - discriminate.
  - repeat constructor; try discriminate; intros a [= <-]; discriminate.
Defined.

(** What [initLoad] does to any record it loads, read as [any]: a missing
    [tags] or [people] becomes the empty array, a missing
    [compositionScore] becomes 5 while a stored 0 is kept, a missing or
    empty [technicalAdvice] becomes "No advice available", a missing
    [appliedEnhancements] becomes the empty array; a [null] analysis stays
    [null] and every other property is kept.  The frame obtained satisfies
    the round-trip condition, so saving it and loading it again changes
    nothing, and whatever the object store holds the frames are in that
    condition after [initLoad] if they were before. *)
Theorem sanitizeFrame_spec :
  forall (f : stored.frame),
    persistable (sanitizeFrame f) /\
    sanitizeFrame (storedFrame (sanitizeFrame f)) = sanitizeFrame f /\
    (forall db state, Forall persistable (fst state) ->
                      Forall persistable (fst (initLoad db state))) /\
    id (sanitizeFrame f) = stored.id f /\
    timestamp (sanitizeFrame f) = stored.timestamp f /\
    imageUrl (sanitizeFrame f) = stored.imageUrl f /\
    enhancedUrl (sanitizeFrame f) = stored.enhancedUrl f /\
    isSelected (sanitizeFrame f) = stored.isSelected f /\
    isProcessing (sanitizeFrame f) = stored.isProcessing f /\
    isEnhancing (sanitizeFrame f) = stored.isEnhancing f /\
    appliedEnhancements (sanitizeFrame f)
    = Some (match stored.appliedEnhancements f with Some l => l | None => [] end) /\
    match stored.analysis f, analysis (sanitizeFrame f) with
    | Some a, Some a' =>
        quality a' = stored.quality a /\ qualityReason a' = stored.qualityReason a /\
        shotType a' = stored.shotType a /\ subjectId a' = stored.subjectId a /\
        tags a' = match stored.tags a with Some l => l | None => [] end /\
        people a' = match stored.people a with Some l => l | None => [] end /\
        compositionScore a'
        = match stored.compositionScore a with Some q => q | None => 5 end /\
        technicalAdvice a'
        = match stored.technicalAdvice a with
          | Some advice => if String.eqb advice "" then "No advice available" else advice
          | None => "No advice available"
          end
    | None, None => True
    | _, _ => False
    end.
Proof.
  intros f. split; [apply sanitizeFrame_persistable|].
  split; [apply sanitizeFrame_fixed, sanitizeFrame_persistable|].
  split.
  { intros db state Hstate. unfold initLoad.
    destruct (loadProject db) as [|g loaded]; [exact Hstate|].
    cbn [fst]. apply Forall_map, Forall_forall. intros x _.
    apply sanitizeFrame_persistable. }
  repeat split. unfold sanitizeFrame. cbn [analysis].
  destruct (stored.analysis f) as [a|]; [|exact I]. repeat split.
Qed.

(** The defaults at work on a record of an earlier version. *)
Example initLoad_legacy_record :
  initLoad [ {| project_id := PROJECT_KEY; project_frames := [legacyRecord];
                updatedAt := 0 |} ] ([], None)
  = ([ {| id := "old"; timestamp := 12; imageUrl := "data:image/jpeg;base64,OLD";
          analysis := Some {| quality := Some FrameQuality.GOOD;
                              qualityReason := Some "Sharp";
                              people := []; shotType := Some ShotType.POSE;
                              tags := []; compositionScore := 5;
                              technicalAdvice := "No advice available";
                              subjectId := None |};
          isSelected := true; isProcessing := false;
          enhancedUrl := None; isEnhancing := None;
          appliedEnhancements := Some [] |} ],
     Some "restored").
Proof. reflexivity. Qed.

(** Clearing the project empties what a later start would load: [initLoad]
    then leaves the state alone.  The save effect does not write an empty
    collection, so after "New Scan" (frames reset, project cleared) nothing
    is restored. *)
Theorem clearProject_then_initLoad :
  forall (now : Z) (db : ObjectStore) (state : list VideoFrame * option string),
    loadProject (clearProject db) = [] /\
    initLoad (clearProject db) state = state /\
    initLoad (saveEffect now [] (clearProject db)) state = state.
Proof.
  intros now db state.
  assert (Hload : loadProject (clearProject db) = []).
  { unfold loadProject, clearProject, db_get, db_delete.
    induction db as [|r db IH]; [reflexivity|]. cbn [filter].
    destruct (String.eqb (project_id r) PROJECT_KEY) eqn:Hk; cbn [negb]; [exact IH|].
    cbn [find]. rewrite Hk. exact IH. }
  unfold initLoad, saveEffect. rewrite Hload. repeat split.
Qed.

Lemma promoted_advice (o : option AIAnalysis) (a' : AIAnalysis) :
  promoted o = Some a' ->
  exists a, o = Some a /\ technicalAdvice a' = technicalAdvice a.
Proof.
  destruct o as [a|]; [|discriminate]. cbn. intros [= <-]. now exists a.
Qed.

Lemma persistable_withEnhancing (b : bool) (f : VideoFrame) :
  persistable f -> persistable (withEnhancing b f).
Proof. intros H. exact H. Qed.

Lemma persistable_withBatchEnhancement (enhanced : option string) (type : string)
      (f : VideoFrame) :
  persistable f -> persistable (withBatchEnhancement enhanced type f).
Proof.
  intros [_ Hadv]. split; [discriminate|]. intros a' Ha'. cbn [analysis withBatchEnhancement] in Ha'.
  destruct (promoted_advice _ _ Ha') as [a [Ha ->]]. now apply Hadv.
Qed.

Lemma persistable_withEnhancement (enhanced : option string) (types : list string)
      (f : VideoFrame) :
  persistable f -> persistable (withEnhancement enhanced types f).
Proof.
  intros [_ Hadv]. split; [discriminate|]. intros a' Ha'. cbn [analysis withEnhancement] in Ha'.
  destruct (promoted_advice _ _ Ha') as [a [Ha ->]]. now apply Hadv.
Qed.

(** Every store the application builds is persistable: the frames of a scan
    are, and the analysis update, toggling and clearing the selection,
    single and batch enhancement, and saving a version of a persistable
    frame keep the property.  With the round trip above, such a store is
    reloaded exactly as it was saved. *)
Theorem persistable_invariant :
  forall (API_KEY : option string) (flash : nat -> Reply Response)
         (flashImage : nat -> Reply (option string))
         (randomUUID : nat -> string) (toDataURL : Q -> string)
         (frames : list VideoFrame),
    Forall persistable frames ->
    (forall frame w,
        Forall persistable (fst (processFrameAI API_KEY flash frame w) frames)) /\
    (forall target, Forall persistable (toggleFrameSelection target frames)) /\
    Forall persistable (clearSelection frames) /\
    (forall uuid frame, persistable frame ->
                        Forall persistable (handleSaveVersion uuid frame frames)) /\
    (forall type w,
        Forall persistable (fst (handleBatchEnhance API_KEY flashImage type frames w))) /\
    (forall frame advice types w,
        Forall persistable
               (fst (handleEnhanceSelection API_KEY flashImage frame advice types frames w))) /\
    (forall scanSettings duration,
        Forall persistable
               (frames ++ startExtraction randomUUID toDataURL scanSettings duration)).
Proof.
  intros API_KEY flash flashImage randomUUID toDataURL frames Hall.
  repeat split.
  - intros frame w. unfold processFrameAI.
    destruct (analyzeFrameWithGemini API_KEY flash (imageUrl frame) w)
      as [[result|e] w'] eqn:Hcall; cbn [fst]; apply updateFrame_Forall; auto.
    intros f [Happ _]. split; [exact Happ|].
    intros a [= <-].
    exact (analyze_resolved_advice _ _ _ _ _ _ Hcall).
  - intros target. unfold toggleFrameSelection. apply updateFrame_Forall; auto.
  - unfold clearSelection. apply Forall_map.
    eapply Forall_impl; [|exact Hall]. auto.
  - intros uuid frame [Happ Hadv]. unfold handleSaveVersion.
    destruct (or_undefined (enhancedUrl frame)); [|assumption].
    constructor; [|assumption]. split; [exact Happ|].
    intros a' Ha'. cbn [analysis] in Ha'.
    destruct (promoted_advice _ _ Ha') as [a [Ha ->]]. now apply Hadv.
  - intros type w. unfold handleBatchEnhance. apply batchLoop_Forall.
    + intros enhanced f. apply persistable_withBatchEnhancement.
    + intros f. apply persistable_withEnhancing.
    + apply Forall_map. eapply Forall_impl; [|exact Hall]. intros f Hf. cbn.
      destruct (existsb _ _); auto.
  - intros frame advice types w. unfold handleEnhanceSelection, enhanceSelectionSettle.
    destruct (enhanceFrameWithGemini API_KEY flashImage (imageUrl frame) advice types w)
      as [[enhanced|e] w']; cbn [fst]; apply updateFrame_Forall;
      try (apply updateFrame_Forall; auto); auto.
    intros f. apply persistable_withEnhancement.
  - intros scanSettings duration. apply Forall_app. split; [assumption|].
    assert (Hfresh : Forall (isFresh toDataURL)
                            (startExtraction randomUUID toDataURL scanSettings duration)).
    { unfold startExtraction.
      destruct (scanWindow (range scanSettings) duration) as [startTime endTime].
      apply scanLoop_fresh. }
    eapply Forall_impl; [|exact Hfresh].
    intros f [Ha [_ [_ [_ [_ [Happ _]]]]]]. split.
    + rewrite Happ. discriminate.
    + intros a Hsome. congruence.
Qed.

Lemma persistable_invariant_witness :
  Forall persistable
         (fst (processFrameAI (Some "key") (fun _ => Responds (Parsed zeroScoreJson))
                              (pendingFrame "a" 0) world0)
              [pendingFrame "a" 0]).
Proof.
  refine (proj1 (persistable_invariant
                   (Some "key") (fun _ => Responds (Parsed zeroScoreJson)) noImage
                   (fun _ => "uuid") (fun _ => "jpeg") [pendingFrame "a" 0] _)
                (pendingFrame "a" 0) world0).
  repeat constructor; try discriminate.
Defined.

(* ================================================================== *)
(** * services/geminiService.ts: the enhancement prompt *)

(** [types.includes(t)] on an array of strings. *)
Definition array_includes (t : string) (types : list string) : bool :=
  existsb (String.eqb t) types.

(** The template literal the prompt starts from, line breaks and
    indentation included. *)
Definition basePrompt (advice : string) : string :=
  "Act as a professional photo editor. Enhance this image. 
      
      Primary Instructions: " ++ advice ++ "
      
      Base Style: Sharpen details, fix lighting, and improve color grading.".

(** The text part of the request of [enhanceFrameWithGemini]. *)
Definition enhancePrompt (advice : string) (types : list string) : string :=
  let prompt := basePrompt advice in
  let prompt :=
    if array_includes EnhancementType.UNBLUR types
    then prompt ++ " Focus heavily on unblurring faces and sharpening edges."
    else prompt in
  let prompt :=
    if array_includes EnhancementType.REMOVE_BG types
    then prompt ++ " Keep the main subject exactly as is, but change the background to a solid clean white or transparent studio backdrop."
    else prompt in
  let prompt :=
    if array_includes EnhancementType.CINEMATIC types
    then prompt ++ " Apply a cinematic color grade. Teal and orange look, high contrast, dramatic lighting."
    else prompt in
  let prompt :=
    if array_includes EnhancementType.BOKEH types
    then prompt ++ " Apply a strong portrait mode effect. Creamy bokeh blur to the background."
    else prompt in
  prompt.

Lemma array_includes_In (t : string) (types : list string) :
  array_includes t types = true <-> In t types.
Proof.
  unfold array_includes. rewrite existsb_exists. split.
  - intros [x [Hx Heq]]. apply String.eqb_eq in Heq. now subst x.
  - intros Hin. exists t. split; [assumption|apply String.eqb_refl].
Qed.

Lemma array_includes_ext (t : string) (types1 types2 : list string) :
  (In t types1 <-> In t types2) ->
  array_includes t types1 = array_includes t types2.
Proof.
  intros Hiff. destruct (array_includes t types2) eqn:H2.
  - apply array_includes_In. apply Hiff. now apply array_includes_In.
  - destruct (array_includes t types1) eqn:H1; [|reflexivity].
    apply array_includes_In in H1. apply Hiff in H1.
    apply array_includes_In in H1. congruence.
Qed.

Lemma prefix_app (s t : string) : String.prefix s (s ++ t) = true.
Proof.
  induction s as [|c s IH]; [destruct t; reflexivity|]. cbn.
  destruct (ascii_dec c c) as [_|Hne]; [exact IH|now elim Hne].
Qed.

Lemma prefix_refl (s : string) : String.prefix s s = true.
Proof.
  induction s as [|c s IH]; [reflexivity|]. cbn.
  destruct (ascii_dec c c) as [_|Hne]; [exact IH|now elim Hne].
Qed.

Lemma prefix_trans (a b c : string) :
  String.prefix a b = true -> String.prefix b c = true -> String.prefix a c = true.
Proof.
  revert b c. induction a as [|x a IH]; intros b c Hab Hbc; [destruct c; reflexivity|].
  destruct b as [|y b]; [discriminate Hab|]. destruct c as [|z c]; [discriminate Hbc|].
  cbn in *. destruct (ascii_dec x y) as [->|]; [|discriminate Hab].
  destruct (ascii_dec y z) as [->|]; [|discriminate Hbc].
  now apply (IH b c).
Qed.

(** The prompt depends on the requested styles only through which of
    Unblur, Remove Background, Cinematic and Bokeh are among them: their
    order, repetitions and the presence of Restore make no difference.  It
    always begins with the base instruction built around the advice, and
    with no such style (Restore alone, or none) it is the base
    instruction. *)
Theorem enhancePrompt_spec :
  forall (advice : string) (types1 types2 : list string),
    ((forall t, In t [EnhancementType.UNBLUR; EnhancementType.REMOVE_BG;
                      EnhancementType.CINEMATIC; EnhancementType.BOKEH] ->
                (In t types1 <-> In t types2)) ->
     enhancePrompt advice types1 = enhancePrompt advice types2) /\
    String.prefix (basePrompt advice) (enhancePrompt advice types1) = true /\
    enhancePrompt advice [] = basePrompt advice /\
    enhancePrompt advice [EnhancementType.RESTORE] = basePrompt advice.
Proof.
  intros advice types1 types2. split; [|split; [|split; reflexivity]].
  - intros Hsame. unfold enhancePrompt.
    rewrite (array_includes_ext EnhancementType.UNBLUR types1 types2)
      by (apply Hsame; cbn; auto).
    rewrite (array_includes_ext EnhancementType.REMOVE_BG types1 types2)
      by (apply Hsame; cbn; auto).
    rewrite (array_includes_ext EnhancementType.CINEMATIC types1 types2)
      by (apply Hsame; cbn; auto).
    rewrite (array_includes_ext EnhancementType.BOKEH types1 types2)
      by (apply Hsame; cbn; auto).
    reflexivity.
  - unfold enhancePrompt.
    repeat match goal with
           | |- context [if ?b then _ else _] => destruct b
           end;
      repeat first [ apply prefix_refl
                   | apply prefix_app
                   | eapply prefix_trans; [|apply prefix_app] ].
Qed.

Example enhancePrompt_order_irrelevant :
  enhancePrompt "Fix contrast" [EnhancementType.BOKEH; EnhancementType.UNBLUR]
  = enhancePrompt "Fix contrast"
                  [EnhancementType.UNBLUR; EnhancementType.RESTORE;
                   EnhancementType.BOKEH; EnhancementType.UNBLUR].
Proof. reflexivity. Qed.

(* ================================================================== *)
(** * services/exportService.ts: the folder name *)

Definition between (lo hi : nat) (c : ascii) : bool :=
  (lo <=? nat_of_ascii c)%nat && (nat_of_ascii c <=? hi)%nat.

Definition isDigit (c : ascii) : bool := between 48 57 c.
Definition isUpper (c : ascii) : bool := between 65 90 c.
Definition isLower (c : ascii) : bool := between 97 122 c.

(** Here and for the advice list below a string is read as its sequence of
    UTF-16 code units, each below 256.

    [s.replace(/[^a-z0-9]/gi, '_')]: every character that is not a letter
    A-Z, a-z or a digit becomes an underscore. *)
Fixpoint replaceNonAlnum (s : string) : string :=
  match s with
  | EmptyString => EmptyString
  | String c rest =>
    String (if isDigit c || isUpper c || isLower c then c else "_"%char)
           (replaceNonAlnum rest)
  end.

(** [s.toLowerCase()] on a string of letters A-Z, a-z, digits and
    underscores, which is what [replaceNonAlnum] returns. *)
Fixpoint lowerAscii (s : string) : string :=
  match s with
  | EmptyString => EmptyString
  | String c rest =>
    String (if isUpper c then ascii_of_nat (nat_of_ascii c + 32) else c)
           (lowerAscii rest)
  end.

(** [safeName] of [exportProjectToZip]. *)
Definition safeName (projectName : string) : string :=
  or_string (Some (lowerAscii (replaceNonAlnum projectName))) "frameperfect_export".

Fixpoint allChars (p : ascii -> bool) (s : string) : bool :=
  match s with
  | EmptyString => true
  | String c rest => p c && allChars p rest
  end.

Definition isSafeChar (c : ascii) : bool :=
  isDigit c || isLower c || Ascii.eqb c "_".

Lemma safe_char (c : ascii) :
  let r := if isDigit c || isUpper c || isLower c then c else "_"%char in
  isSafeChar (if isUpper r then ascii_of_nat (nat_of_ascii r + 32) else r) = true.
Proof.
  destruct c as [[] [] [] [] [] [] [] []]; reflexivity.
Qed.

Lemma safe_char_fixed (c : ascii) :
  isSafeChar c = true ->
  (if isUpper (if isDigit c || isUpper c || isLower c then c else "_"%char)
   then ascii_of_nat
          (nat_of_ascii (if isDigit c || isUpper c || isLower c then c else "_"%char) + 32)
   else (if isDigit c || isUpper c || isLower c then c else "_"%char)) = c.
Proof.
  destruct c as [[] [] [] [] [] [] [] []]; cbn; intros H;
    first [reflexivity | discriminate H].
Qed.

Lemma lower_replace_safe (s : string) :
  allChars isSafeChar (lowerAscii (replaceNonAlnum s)) = true.
Proof.
  induction s as [|c s IH]; [reflexivity|].
  cbn [replaceNonAlnum lowerAscii allChars]. rewrite IH, andb_true_r.
  apply safe_char.
Qed.

Lemma lower_replace_length (s : string) :
  String.length (lowerAscii (replaceNonAlnum s)) = String.length s.
Proof.
  induction s as [|c s IH]; [reflexivity|]. cbn. now rewrite IH.
Qed.

Lemma lower_replace_fixed (s : string) :
  allChars isSafeChar s = true -> lowerAscii (replaceNonAlnum s) = s.
Proof.
  induction s as [|c s IH]; [reflexivity|]. cbn [allChars].
  intros H. apply andb_true_iff in H. destruct H as [Hc Hs].
  cbn [replaceNonAlnum lowerAscii]. rewrite (IH Hs). f_equal.
  now apply safe_char_fixed.
Qed.

(** The folder and archive name is never empty and consists of lower-case
    letters, digits and underscores only; for a non-empty project name it
    has the length of the name (one character for each), and for the empty
    name it is "frameperfect_export"; a name that is already of this form
    is kept, so the operation is idempotent. *)
Theorem safeName_spec :
  forall (projectName : string),
    safeName projectName <> "" /\
    allChars isSafeChar (safeName projectName) = true /\
    (projectName <> "" ->
     String.length (safeName projectName) = String.length projectName) /\
    safeName "" = "frameperfect_export" /\
    (projectName <> "" -> allChars isSafeChar projectName = true ->
     safeName projectName = projectName) /\
    safeName (safeName projectName) = safeName projectName.
Proof.
  intros projectName.
  assert (Hcases : (projectName = "" /\ safeName projectName = "frameperfect_export")
                   \/ (projectName <> ""
                       /\ safeName projectName = lowerAscii (replaceNonAlnum projectName))).
  { destruct projectName as [|c s]; [left; split; reflexivity|].
    right. split; [discriminate|]. reflexivity. }
  assert (Hsafe : allChars isSafeChar (safeName projectName) = true).
  { destruct Hcases as [[_ ->]|[_ ->]]; [reflexivity|apply lower_replace_safe]. }
  assert (Hne : safeName projectName <> "").
  { unfold safeName. apply or_string_nonempty. discriminate. }
  assert (Hfix : forall s, s <> "" -> allChars isSafeChar s = true -> safeName s = s).
  { intros s Hs Hall. unfold safeName. rewrite (lower_replace_fixed s Hall).
    unfold or_string. destruct (String.eqb_spec s ""); [contradiction|reflexivity]. }
  split; [exact Hne|]. split; [exact Hsafe|]. split.
  - intros Hn. destruct Hcases as [[He _]|[_ ->]]; [contradiction|].
    apply lower_replace_length.
  - split; [reflexivity|]. split; [apply Hfix|]. now apply Hfix.
Qed.

Example safeName_examples :
  safeName "Summer Vacation 2025!" = "summer_vacation_2025_" /\
  safeName "My Project" = "my_project" /\ safeName "   " = "___".
Proof. repeat split. Qed.

(* ================================================================== *)
(** * components/DetailModal.tsx: the advice list *)

(** White space and line terminators among the characters below 256:
    tab, line feed, vertical tab, form feed, carriage return, space and
    no-break space. *)
Definition isSpace (c : ascii) : bool :=
  let n := nat_of_ascii c in
  (9 <=? n)%nat && (n <=? 13)%nat || (n =? 32)%nat || (n =? 160)%nat.

Fixpoint trimStart (s : string) : string :=
  match s with
  | EmptyString => EmptyString
  | String c rest => if isSpace c then trimStart rest else s
  end.

Fixpoint trimEnd (s : string) : string :=
  match s with
  | EmptyString => EmptyString
  | String c rest =>
    match trimEnd rest with
    | EmptyString => if isSpace c then EmptyString else String c EmptyString
    | kept => String c kept
    end
  end.

(** [s.trim()] *)
Definition trim (s : string) : string := trimEnd (trimStart s).

(** [s.split(sep)] for a separator of one character. *)
Fixpoint split (sep : ascii) (s : string) : list string :=
  match s with
  | EmptyString => [EmptyString]
  | String c rest =>
    if Ascii.eqb c sep then EmptyString :: split sep rest
    else match split sep rest with
         | piece :: pieces => String c piece :: pieces
         | [] => [String c EmptyString]
         end
  end.

(** [items.join(sep)] *)
Fixpoint join (sep : string) (items : list string) : string :=
  match items with
  | [] => EmptyString
  | [item] => item
  | item :: rest => item ++ sep ++ join sep rest
  end.

(** [adviceList] of the modal. *)
Definition adviceList (analysis : option AIAnalysis) : list string :=
  match analysis with
  | Some a =>
    if String.eqb (technicalAdvice a) "" then []
    else filter (fun s => (0 <? String.length s)%nat)
                (map trim (split "." (technicalAdvice a)))
  | None => []
  end.

(** [combinedAdvice] of [handleApplyEnhance]. *)
Definition combinedAdvice (selectedAdvice : list string) : string :=
  join ". " selectedAdvice.

Example adviceList_good :
  adviceList (Some goodAnalysis) = ["Lift the shadows"; "Straighten the horizon"] /\
  adviceList (Some fallbackAnalysis) = ["Retry analysis"] /\
  adviceList None = [].
Proof. repeat split. Qed.

Definition noDot (s : string) : bool := allChars (fun c => negb (Ascii.eqb c ".")) s.

Lemma split_pieces_noDot (s : string) : Forall (fun p => noDot p = true) (split "." s).
Proof.
  induction s as [|c s IH]; [repeat constructor|]. cbn [split].
  destruct (Ascii.eqb c ".") eqn:Hc; [constructor; [reflexivity|exact IH]|].
  destruct (split "." s) as [|piece pieces]; [repeat constructor; cbn; now rewrite Hc|].
  inversion IH as [|x l Hp Hps]; subst. constructor; [|assumption].
  cbn. unfold noDot in Hp. now rewrite Hc, Hp.
Qed.

Lemma trimStart_noDot (s : string) : noDot s = true -> noDot (trimStart s) = true.
Proof.
  induction s as [|c s IH]; [reflexivity|]. intros H. cbn [trimStart].
  destruct (isSpace c); [|assumption].
  apply IH. cbn in H. apply andb_true_iff in H. tauto.
Qed.

Lemma trimEnd_noDot (s : string) : noDot s = true -> noDot (trimEnd s) = true.
Proof.
  induction s as [|c s IH]; [reflexivity|]. intros H. cbn in H.
  apply andb_true_iff in H. destruct H as [Hc Hs]. specialize (IH Hs).
  cbn [trimEnd]. destruct (trimEnd s) as [|d kept].
  - destruct (isSpace c); [reflexivity|]. cbn. now rewrite Hc.
  - cbn. cbn in IH. now rewrite Hc, IH.
Qed.

Lemma trimEnd_idempotent (s : string) : trimEnd (trimEnd s) = trimEnd s.
Proof.
  induction s as [|c s IH]; [reflexivity|]. cbn [trimEnd].
  destruct (trimEnd s) as [|d kept] eqn:Hk.
  - destruct (isSpace c) eqn:Hc; [reflexivity|]. cbn. now rewrite Hc.
  - cbn [trimEnd]. cbn [trimEnd] in IH. rewrite IH. reflexivity.
Qed.

Definition startsClean (s : string) : bool :=
  match s with
  | EmptyString => true
  | String c _ => negb (isSpace c)
  end.

Lemma trimStart_startsClean (s : string) : startsClean (trimStart s) = true.
Proof.
  induction s as [|c s IH]; [reflexivity|]. cbn [trimStart].
  destruct (isSpace c) eqn:Hc; [exact IH|]. cbn. now rewrite Hc.
Qed.

Lemma trimStart_fixed (s : string) : startsClean s = true -> trimStart s = s.
Proof.
  destruct s as [|c s]; [reflexivity|]. cbn. intros H.
  apply negb_true_iff in H. now rewrite H.
Qed.

Lemma trimEnd_startsClean (s : string) :
  startsClean s = true -> startsClean (trimEnd s) = true.
Proof.
  destruct s as [|c s]; [reflexivity|]. cbn [startsClean trimEnd]. intros Hc.
  destruct (trimEnd s); [|exact Hc].
  apply negb_true_iff in Hc. rewrite Hc. cbn. now rewrite Hc.
Qed.

Lemma trim_idempotent (s : string) : trim (trim s) = trim s.
Proof.
  unfold trim. rewrite (trimStart_fixed (trimEnd (trimStart s))).
  - apply trimEnd_idempotent.
  - apply trimEnd_startsClean, trimStart_startsClean.
Qed.

(** An advice item as the list shows it. *)
Definition isAdviceItem (s : string) : Prop :=
  s <> "" /\ noDot s = true /\ trim s = s.

Lemma split_noDot (s : string) : noDot s = true -> split "." s = [s].
Proof.
  induction s as [|c s IH]; [reflexivity|]. intros H. cbn in H.
  apply andb_true_iff in H. destruct H as [Hc Hs]. apply negb_true_iff in Hc.
  cbn [split]. rewrite Hc, (IH Hs). reflexivity.
Qed.

Lemma split_app_dot (a rest : string) :
  noDot a = true -> split "." (a ++ String "." rest) = a :: split "." rest.
Proof.
  induction a as [|c a IH]; [reflexivity|]. intros H. cbn in H.
  apply andb_true_iff in H. destruct H as [Hc Ha]. apply negb_true_iff in Hc.
  cbn [append split]. rewrite Hc, (IH Ha). reflexivity.
Qed.

Lemma split_join (item : string) (rest : list string) :
  Forall (fun p => noDot p = true) (item :: rest) ->
  split "." (join ". " (item :: rest)) = item :: map (String " ") rest.
Proof.
  revert item. induction rest as [|next rest IH]; intros item Hall.
  - cbn [join map]. apply split_noDot. now inversion Hall.
  - inversion Hall as [|x l Hitem Hrest]; subst.
    change (join ". " (item :: next :: rest))
      with (item ++ String "." (String " " (join ". " (next :: rest)))).
    rewrite (split_app_dot _ _ Hitem). f_equal.
    cbn [split]. change (Ascii.eqb " " ".") with false. cbn iota.
    rewrite (IH next Hrest). reflexivity.
Qed.

(** Every entry of the advice list is non-empty, contains no full stop and
    has no white space at either end.  Joining the selected advice with
    ". ", as [handleApplyEnhance] does, loses nothing: the list made from
    the combined text is the selection again. *)
Theorem adviceList_spec :
  forall (a : AIAnalysis),
    Forall isAdviceItem (adviceList (Some a)) /\
    forall (selected : list string) (a' : AIAnalysis),
      Forall isAdviceItem selected ->
      technicalAdvice a' = combinedAdvice selected ->
      adviceList (Some a') = selected.
Proof.
  intros a. split.
  - unfold adviceList. destruct (String.eqb (technicalAdvice a) ""); [constructor|].
    apply Forall_forall. intros item Hin. apply filter_In in Hin.
    destruct Hin as [Hin Hlen]. apply in_map_iff in Hin.
    destruct Hin as [piece [<- Hpiece]].
    pose proof (split_pieces_noDot (technicalAdvice a)) as Hnd.
    rewrite Forall_forall in Hnd. specialize (Hnd piece Hpiece).
    repeat split.
    + intros He. rewrite He in Hlen. discriminate Hlen.
    + unfold trim. apply trimEnd_noDot, trimStart_noDot. exact Hnd.
    + apply trim_idempotent.
  - intros selected a' Hall Hadv. unfold adviceList. rewrite Hadv. unfold combinedAdvice.
    destruct selected as [|item rest]; [reflexivity|].
    assert (Hne : String.eqb (join ". " (item :: rest)) "" = false).
    { apply String.eqb_neq. inversion Hall as [|x l [Hitem _] _]; subst.
      destruct item as [|c item]; [now elim Hitem|].
      destruct rest; discriminate. }
    rewrite Hne, split_join.
    + assert (Hkeep : forall l, Forall isAdviceItem l ->
                 filter (fun s => (0 <? String.length s)%nat) l = l).
      { induction l as [|x l IH]; intros Hl; [reflexivity|].
        inversion Hl as [|y m [Hx _] Hm]; subst. cbn [filter].
        destruct x as [|c x]; [now elim Hx|]. cbn. f_equal. now apply IH. }
      assert (Htrim : forall l, Forall isAdviceItem l ->
                 map trim (map (String " ") l) = l).
      { induction l as [|x l IH]; intros Hl; [reflexivity|].
        inversion Hl as [|y m [_ [_ Hx]] Hm]; subst. cbn [map]. f_equal; [|now apply IH].
        exact Hx. }
      inversion Hall as [|x l [Hi1 [Hi2 Hi3]] Hrest]; subst.
      cbn [map]. rewrite Hi3, (Htrim rest Hrest). apply (Hkeep (item :: rest) Hall).
    + eapply Forall_impl; [|exact Hall]. intros x [_ [Hx _]]. exact Hx.
Qed.

Lemma adviceList_spec_witness :
  adviceList (Some {| quality := None; qualityReason := None; people := [];
                      shotType := None; tags := []; compositionScore := 5;
                      technicalAdvice := "Lift the shadows. Straighten the horizon";
                      subjectId := None |})
  = ["Lift the shadows"; "Straighten the horizon"].
Proof.
  refine (proj2 (adviceList_spec goodAnalysis)
                ["Lift the shadows"; "Straighten the horizon"] _ _ _).
  - repeat constructor; discriminate.
  - reflexivity.
Defined.

(* ================================================================== *)
(** * Further properties of the export *)

Lemma substring_all (s : string) : String.substring 0 (String.length s) s = s.
Proof. induction s as [|c s IH]; [reflexivity|]. cbn. now rewrite IH. Qed.

Lemma substring_skip (p d : string) (m : nat) :
  String.substring (String.length p) m (p ++ d) = String.substring 0 m d.
Proof. induction p as [|c p IH]; [reflexivity|]. cbn. exact IH. Qed.

Lemma length_append (p d : string) :
  String.length (p ++ d) = (String.length p + String.length d)%nat.
Proof. induction p as [|c p IH]; [reflexivity|]. cbn. now rewrite IH. Qed.

Lemma drop_prefix_app (p d : string) : drop_prefix p (p ++ d) = Some d.
Proof.
  unfold drop_prefix. rewrite prefix_app, substring_skip, length_append.
  replace (String.length p + String.length d - String.length p)%nat
    with (String.length d) by lia.
  now rewrite substring_all.
Qed.

(** The data-URL header is removed exactly: whatever base64 text follows a
    PNG, JPEG or JPG header is what is written to the archive.  So the
    image file of a keeper enhanced by [enhanceFrameWithGemini] holds the
    very [data] the image model returned, and a string without such a
    header is written as it is. *)
Theorem stripDataUrl_spec :
  forall (data : string),
    stripDataUrl ("data:image/png;base64," ++ data) = data /\
    stripDataUrl ("data:image/jpeg;base64," ++ data) = data /\
    stripDataUrl ("data:image/jpg;base64," ++ data) = data /\
    (forall (f : VideoFrame),
        enhancedUrl f = Some ("data:image/png;base64," ++ data) ->
        stripDataUrl (imageData f) = data) /\
    (forall (s : string),
        String.prefix "data:image/" s = false -> stripDataUrl s = s).
Proof.
  intros data.
  assert (Hpng : stripDataUrl ("data:image/png;base64," ++ data) = data).
  { unfold stripDataUrl. now rewrite drop_prefix_app. }
  split; [exact Hpng|]. split; [|split; [|split]].
  - unfold stripDataUrl.
    change (drop_prefix "data:image/png;base64," ("data:image/jpeg;base64," ++ data))
      with (@None string).
    now rewrite drop_prefix_app.
  - unfold stripDataUrl.
    change (drop_prefix "data:image/png;base64," ("data:image/jpg;base64," ++ data))
      with (@None string).
    change (drop_prefix "data:image/jpeg;base64," ("data:image/jpg;base64," ++ data))
      with (@None string).
    now rewrite drop_prefix_app.
  - intros f Hf. unfold imageData. rewrite Hf. exact Hpng.
  - intros s Hs. unfold stripDataUrl, drop_prefix.
    assert (Hno : forall tail, String.prefix ("data:image/" ++ tail) s = false).
    { intros tail. destruct (String.prefix ("data:image/" ++ tail) s) eqn:Hp; [|reflexivity].
      rewrite <- Hs. symmetry.
      apply (prefix_trans "data:image/" ("data:image/" ++ tail) s); [|exact Hp].
      apply prefix_app. }
    pose proof (Hno "png;base64,") as H1. pose proof (Hno "jpeg;base64,") as H2.
    pose proof (Hno "jpg;base64,") as H3. cbn [append] in H1, H2, H3.
    rewrite H1, H2, H3. reflexivity.
Qed.

(** Saving a version of a selected, enhanced frame whose analysis (if any)
    is graded Excellent - the state every successful enhancement leaves -
    puts a new keeper in front of the store and keeps all frames; the new
    frame has the given id, the enhanced image as its image and no enhanced
    image of its own.  In the export the two keepers are written under one
    and the same file name. *)
Theorem saved_version_shares_file_name_with_source :
  forall (uuid : string) (frame : VideoFrame) (frames : list VideoFrame),
    truthy (enhancedUrl frame) = true ->
    (forall a, analysis frame = Some a -> quality a = Some FrameQuality.EXCELLENT) ->
    exists version,
      handleSaveVersion uuid frame frames = version :: frames /\
      id version = uuid /\ isSelected version = true /\
      Some (imageUrl version) = enhancedUrl frame /\ enhancedUrl version = None /\
      timestamp version = timestamp frame /\
      appliedEnhancements version = appliedEnhancements frame /\
      filename version = filename frame /\
      (In frame frames -> isSelected frame = true ->
       In (filename frame)
          (map fst (imageFiles (exportProjectToZip frames))) /\
       map fst (imageFiles (exportProjectToZip (handleSaveVersion uuid frame frames)))
       = filename frame :: map fst (imageFiles (exportProjectToZip frames))).
Proof.
  intros uuid frame frames Henh Hq. unfold handleSaveVersion, or_undefined.
  rewrite Henh. destruct (enhancedUrl frame) as [enhanced|] eqn:He; [|discriminate Henh].
  eexists. split; [reflexivity|]. cbn [id isSelected imageUrl enhancedUrl timestamp
                                        appliedEnhancements].
  assert (Hname : forall v, timestamp v = timestamp frame ->
                            analysis v = promoted (analysis frame) ->
                            filename v = filename frame).
  { intros v Ht Ha. unfold filename, qualityLabel. rewrite Ht, Ha.
    destruct (analysis frame) as [a|]; [|reflexivity].
    cbn [promoted quality]. rewrite (Hq a eq_refl). reflexivity. }
  repeat split.
  - now apply Hname.
  - apply in_map_iff. exists (filename frame, stripDataUrl (imageData frame)).
    split; [reflexivity|]. cbn [exportProjectToZip imageFiles].
    apply in_map_iff. exists frame. split; [reflexivity|].
    apply filter_In. split; assumption.
  - cbn [exportProjectToZip imageFiles filter isSelected map fst]. f_equal.
    now apply Hname.
Qed.

Lemma saved_version_shares_file_name_with_source_witness :
  exists version,
    handleSaveVersion "uuid-2" enhancedKeeper [enhancedKeeper] = [version; enhancedKeeper] /\
    filename version = "frame_2.50s_Excellent.png" /\
    filename enhancedKeeper = "frame_2.50s_Excellent.png".
Proof.
  destruct (saved_version_shares_file_name_with_source
              "uuid-2" enhancedKeeper [enhancedKeeper] eq_refl)
    as [version [H1 [_ [_ [_ [_ [_ [_ [H2 _]]]]]]]]].
  - intros a [= <-]. reflexivity.
  - exists version. split; [exact H1|]. split; [|reflexivity].
    rewrite H2. reflexivity.
Defined.
